(** * Real-ESRGAN video inference: the frame processing pipeline

    A shallow embedding of [inference_realesrgan_video.py]: frame discovery
    ([get_frames]), the streaming pipeline ([inference_stream]), the
    frame-file pipeline ([inference_frames]) and the option adjustments of
    [main], followed by the properties of the pipeline specification.

    Python values are modelled as the code has them: [int] as [Z], [float]
    as IEEE binary64 ([spec_float] with precision 53), [str] as [string],
    [bytes] as [list byte], exceptions as the [Err] side of [result], the
    [args] namespace as a record threaded through the calls that assign to
    it, the file system as a finite map from paths to nodes. *)

From Stdlib Require Import ZArith QArith Qabs Lia List Bool Ascii String DecimalString.
From Stdlib.Strings Require Import Byte.
From Stdlib Require Import Floats.SpecFloat.
From stdpp Require Import base option list gmap strings sorting.

Local Open Scope string_scope.
Local Open Scope list_scope.
Local Open Scope Z_scope.

(** ** Python exceptions and results *)

Inductive exn : Type :=
| AttributeError (msg : string)
| AssertionError (msg : string)
| IndexError (msg : string)
| NameError (msg : string)
| ValueError (msg : string)
| OverflowError (msg : string)
| ZeroDivisionError (msg : string)
| ExternalError (msg : string).

Inductive result (A : Type) : Type :=
| Ok (a : A)
| Err (e : exn).
Arguments Ok {A} a.
Arguments Err {A} e.

#[global] Instance result_bind : MBind result := fun A B f r =>
  match r with
  | Ok a => f a
  | Err e => Err e
  end.

#[global] Instance result_ret : MRet result := fun A a => Ok a.

(** ** Strings: [str] methods and [os.path] *)

Module Py.

(** [s.rfind(c)] for a one-character [c]: the last index, or [-1]. *)
Fixpoint rfind_from (c : ascii) (i : Z) (s : string) : Z :=
  match s with
  | EmptyString => -1
  | String a r =>
      let k := rfind_from c (i + 1) r in
      if 0 <=? k then k else if Ascii.eqb a c then i else -1
  end.

Definition rfind (c : ascii) (s : string) : Z := rfind_from c 0 s.

(** [s[i:]] and [s[:i]] for [i >= 0]. *)
Definition slice_from (i : Z) (s : string) : string :=
  substring (Z.to_nat i) (String.length s - Z.to_nat i)%nat s.

Definition slice_to (i : Z) (s : string) : string :=
  substring 0 (Z.to_nat i) s.

Fixpoint all_dots (s : string) : bool :=
  match s with
  | EmptyString => true
  | String a r => Ascii.eqb a "." && all_dots r
  end.

(** [os.path.basename(p)]: [p[p.rfind('/') + 1:]]. *)
Definition basename (p : string) : string := slice_from (rfind "/" p + 1) p.

(** [os.path.splitext(p)] (posixpath): the extension starts at the last dot
    of the last path component, unless that component has only dots before
    it. The loop over the leading dots is the [all_dots] test. *)
Definition splitext (p : string) : string * string :=
  let sepIndex := rfind "/" p in
  let dotIndex := rfind "." p in
  if sepIndex <? dotIndex then
    let filenameIndex := sepIndex + 1 in
    if all_dots (substring (Z.to_nat filenameIndex)
                           (Z.to_nat (dotIndex - filenameIndex)) p)
    then (p, "")
    else (slice_to dotIndex p, slice_from dotIndex p)
  else (p, "").

Definition ends_with_sep (a : string) : bool :=
  match String.length a with
  | O => false
  | S n => match String.get n a with
           | Some c => Ascii.eqb c "/"
           | None => false
           end
  end.

(** [os.path.join(a, b)]. *)
Definition join (a b : string) : string :=
  if String.prefix "/" b then b
  else if (String.eqb a "" || ends_with_sep a)%bool then a +:+ b
  else a +:+ "/" +:+ b.

(** [s.startswith(p)]. *)
Definition startswith (p s : string) : bool := String.prefix p s.

(** [p in s] for strings. *)
Fixpoint contains (p s : string) : bool :=
  String.prefix p s ||
  match s with
  | EmptyString => false
  | String _ r => contains p r
  end.

(** [s[1:]]. *)
Definition tail (s : string) : string :=
  match s with
  | EmptyString => EmptyString
  | String _ r => r
  end.

(** [s.rstrip(c)] for a one-character [c]. *)
Fixpoint rstrip (c : ascii) (s : string) : string :=
  match s with
  | EmptyString => EmptyString
  | String a r =>
      match rstrip c r with
      | EmptyString => if Ascii.eqb a c then EmptyString else String a EmptyString
      | r' => String a r'
      end
  end.

(** [s.split(sep)[0]]: the text before the first occurrence of [sep]. *)
Fixpoint split_head (sep s : string) : string :=
  if String.prefix sep s then EmptyString
  else match s with
       | EmptyString => EmptyString
       | String a r => String a (split_head sep r)
       end.

(** [str(n)] for a natural number. *)
Definition str_of_nat (n : nat) : string :=
  DecimalString.NilZero.string_of_uint (Nat.to_uint n).

End Py.

(** ** Numbers: [int] and binary64 [float] *)

Module Float.

Definition prec : Z := 53.
Definition emax : Z := 1024.

(** [float(z)]: the nearest binary64 value; Python raises [OverflowError]
    where the conversion would give an infinity. *)
Definition of_int (z : Z) : result spec_float :=
  match binary_normalize prec emax z 0 false with
  | S754_infinity _ => Err (OverflowError "int too large to convert to float")
  | f => Ok f
  end.

Definition mul : spec_float -> spec_float -> spec_float := SFmul prec emax.
Definition div : spec_float -> spec_float -> spec_float := SFdiv prec emax.

(** [int(f)]: the integer part, towards zero. *)
Definition to_int (f : spec_float) : result Z :=
  match f with
  | S754_zero _ => Ok 0
  | S754_infinity _ => Err (OverflowError "cannot convert float infinity to integer")
  | S754_nan => Err (ValueError "cannot convert float NaN to integer")
  | S754_finite s m e => Ok (cond_Zopp s (Z.shiftl (Z.pos m) e))
  end.

(** The real number a finite float stands for: [m * 2^e], signed. *)
Definition to_Q (f : spec_float) : Q :=
  match f with
  | S754_finite s m e =>
      match e with
      | Z.neg p => Qmake (cond_Zopp s (Z.pos m)) (2 ^ p)%positive
      | _ => inject_Z (cond_Zopp s (Z.pos m) * 2 ^ e)
      end
  | _ => 0%Q
  end.

(** The binary64 value of the dyadic number [m * 2^e]. *)
Definition dyadic (m e : Z) : spec_float := binary_normalize prec emax m e false.

End Float.

Inductive pynum : Type :=
| PInt (z : Z)
| PFloat (f : spec_float).

(** [w * x] for an [int] [w]: an [int] when [x] is one, else a [float]. *)
Definition py_mul_int (w : Z) (x : pynum) : result pynum :=
  match x with
  | PInt z => Ok (PInt (w * z))
  | PFloat f => fw ← Float.of_int w; Ok (PFloat (Float.mul fw f))
  end.

(** [int(x)]. *)
Definition py_int (x : pynum) : result Z :=
  match x with
  | PInt z => Ok z
  | PFloat f => Float.to_int f
  end.

(** [n / d] on two [int]s, as [eval] computes it for a rate ["n/d"]: the
    quotient of the two as floats, which is what Python gives for integers
    below [2^53] in magnitude. *)
Definition py_truediv (n d : Z) : result pynum :=
  if d =? 0 then Err (ZeroDivisionError "division by zero")
  else fn ← Float.of_int n; fd ← Float.of_int d; Ok (PFloat (Float.div fn fd)).

(** ** Data model *)

(** The options [main] parses ([argparse] namespace [args]). *)
Record args : Type := mkArgs {
  input : string;
  model_name : string;
  output : string;
  outscale : pynum;
  suffix : string;
  tile : Z;
  tile_pad : Z;
  pre_pad : Z;
  face_enhance : bool;
  fp32 : bool;
  fps : option pynum;
  consumer : Z;
  stream : bool;
  ffmpeg_bin : string;
  alpha_upsampler : string;
  ext : string
}.

Definition set_fps (v : option pynum) (a : args) : args :=
  mkArgs (input a) (model_name a) (output a) (outscale a) (suffix a) (tile a)
         (tile_pad a) (pre_pad a) (face_enhance a) (fp32 a) v (consumer a)
         (stream a) (ffmpeg_bin a) (alpha_upsampler a) (ext a).

Definition set_face_enhance (v : bool) (a : args) : args :=
  mkArgs (input a) (model_name a) (output a) (outscale a) (suffix a) (tile a)
         (tile_pad a) (pre_pad a) v (fp32 a) (fps a) (consumer a)
         (stream a) (ffmpeg_bin a) (alpha_upsampler a) (ext a).

Definition set_input (v : string) (a : args) : args :=
  mkArgs v (model_name a) (output a) (outscale a) (suffix a) (tile a)
         (tile_pad a) (pre_pad a) (face_enhance a) (fp32 a) (fps a) (consumer a)
         (stream a) (ffmpeg_bin a) (alpha_upsampler a) (ext a).

Definition set_model_name (v : string) (a : args) : args :=
  mkArgs (input a) v (output a) (outscale a) (suffix a) (tile a)
         (tile_pad a) (pre_pad a) (face_enhance a) (fp32 a) (fps a) (consumer a)
         (stream a) (ffmpeg_bin a) (alpha_upsampler a) (ext a).

(** A decoded frame: a numpy array of 8-bit values with its [shape]. *)
Record image : Type := mkImage {
  shape : list nat;
  data : list byte
}.

(** What the enhancement engine does with a frame: an enhanced frame, or the
    [RuntimeError] the accelerator raises when out of memory. *)
Inductive engine_result : Type :=
| Enhanced (out : image)
| RuntimeError (msg : string).

(** One entry of [ffmpeg.probe(path)['streams']]; [avg_frame_rate] is the
    text ["num/den"], kept as the two integers. *)
Record probe_stream : Type := mkStream {
  codec_type : string;
  width : Z;
  height : Z;
  avg_frame_rate : Z * Z
}.

(** The file system: which paths exist, and of which kind. *)
Inductive node : Type :=
| Dir
| File.

#[global] Instance node_eq_dec : EqDecision node.
Proof. solve_decision. Defined.

(** The messages of the result queue [que]. *)
Inductive msg : Type :=
| Item (out : image) (save_path : string)
| Quit.

(** The command of the merge step (line 200). *)
Record merge_cmd : Type := mkMerge {
  merge_fps : option pynum;
  merge_frames : string;
  merge_audio : string;
  merge_video : string
}.

(** The effects of a run that its properties speak about, in the order the
    code performs them. *)
Inductive event : Type :=
| Print (line : string)
| DecoderStart (path : string)
| EncoderStart (out_width out_height : Z) (framerate : option pynum)
               (video_save_path : string) (with_audio : bool)
| DecodeRead (img_bytes : list byte)
| ImRead (path : string)
| EncodeWrite (out : list byte)
| CudaSynchronize
| DecoderClose
| EncoderClose
| ReaderStart (paths : list string)
| ConsumersStart (k : nat)
| QuePut (m : msg)
| PbarUpdate
| PbarDescription (idx : nat)
| ConsumersJoin
| SystemExtract (video : string) (pattern : string)
| SystemMerge (cmd : merge_cmd).

(** The external collaborators of the pipeline. *)
Record env : Type := mkEnv {
  (** [mimetypes.guess_type(path)[0]] *)
  guess_type : string -> option string;
  (** [ffmpeg.probe(path)['streams']] *)
  ffmpeg_probe : string -> result (list probe_stream);
  (** the number of frames the [ffmpeg] extraction writes for a video *)
  video_frames : string -> nat;
  (** the bytes the decoder process writes to its standard output *)
  decoder_stdout : string -> list byte;
  (** [Image.open(path).size] *)
  image_size : string -> result (Z * Z);
  (** [cv2.imread(path)], [None] when the file cannot be decoded *)
  imread : string -> option image;
  (** the frames a [PrefetchReader] over the paths yields *)
  reader : list string -> list image;
  (** [upsampler.enhance(img, outscale=...)] *)
  upsampler_enhance : image -> pynum -> engine_result;
  (** [face_enhancer.enhance(img, ...)] *)
  face_enhancer_enhance : image -> engine_result;
  (** the exit status of the merge command *)
  ffmpeg_merge : merge_cmd -> gmap string node -> Z
}.

(** ** The state of a run and its monad *)

Record state : Type := mkState {
  st_args : args;
  st_fs : gmap string node;
  st_pipe : list byte;
  st_trace : list event
}.

(** A computation changes the state and returns a value or raises; the
    state reached when an exception is raised is kept. *)
Definition M (A : Type) : Type := state -> state * result A.

#[global] Instance M_ret : MRet M := fun A a s => (s, Ok a).

#[global] Instance M_bind : MBind M := fun A B k m s =>
  match m s with
  | (s', Ok a) => k a s'
  | (s', Err e) => (s', Err e)
  end.

Definition raise {A : Type} (e : exn) : M A := fun s => (s, Err e).

Definition lift {A : Type} (r : result A) : M A := fun s => (s, r).

Definition get_args : M args := fun s => (s, Ok (st_args s)).

(** An assignment to an attribute of [args]. *)
Definition modify_args (f : args -> args) : M unit := fun s =>
  (mkState (f (st_args s)) (st_fs s) (st_pipe s) (st_trace s), Ok tt).

Definition get_fs : M (gmap string node) := fun s => (s, Ok (st_fs s)).

Definition put_fs (fs : gmap string node) : M unit := fun s =>
  (mkState (st_args s) fs (st_pipe s) (st_trace s), Ok tt).

Definition get_pipe : M (list byte) := fun s => (s, Ok (st_pipe s)).

Definition put_pipe (p : list byte) : M unit := fun s =>
  (mkState (st_args s) (st_fs s) p (st_trace s), Ok tt).

Definition get_trace : M (list event) := fun s => (s, Ok (st_trace s)).

Definition emit (e : event) : M unit := fun s =>
  (mkState (st_args s) (st_fs s) (st_pipe s) (st_trace s ++ [e]), Ok tt).

Definition print (line : string) : M unit := emit (Print line).

Definition init_state (a : args) (fs : gmap string node) : state :=
  mkState a fs [] [].

(** ** File system operations *)

Definition str_le (a b : string) : Prop := String.leb a b = true.

#[global] Instance str_le_dec : RelDecision str_le.
Proof. intros a b. unfold str_le. apply _. Defined.

(** [sorted(l)] on a list of strings. *)
Definition sorted (l : list string) : list string := merge_sort str_le l.

Fixpoint zeros (n : nat) : string :=
  match n with
  | O => EmptyString
  | S k => String "0" (zeros k)
  end.

(** The text of [%08d]. *)
Definition pad8 (n : nat) : string :=
  let s := Py.str_of_nat n in zeros (8 - String.length s) +:+ s.

Fixpoint dir_prefixes_from (acc p : string) : list string :=
  match p with
  | EmptyString => []
  | String c r =>
      (if Ascii.eqb c "/" && negb (String.eqb acc "") then [acc] else [])
        ++ dir_prefixes_from (acc +:+ String c EmptyString) r
  end.

(** The directories [os.makedirs(p)] goes through, [p] last. *)
Definition makedirs_chain (p : string) : list string :=
  dir_prefixes_from "" p ++ [p].

(** [os.makedirs(p, exist_ok=True)]. *)
Definition makedirs (p : string) : M unit :=
  fs ← get_fs;
  if existsb (fun q => bool_decide (fs !! q = Some File)) (makedirs_chain p)
  then raise (ExternalError "FileExistsError")
  else put_fs (foldr (fun q m => <[q := Dir]> m) fs (makedirs_chain p)).

Definition is_under (d k : string) : bool := String.prefix (d +:+ "/") k.

(** [shutil.rmtree(d)]: [d] and everything below it. *)
Definition rmtree (d : string) : M unit :=
  fs ← get_fs;
  match fs !! d with
  | Some Dir =>
      put_fs (filter (fun kv => kv.1 ≠ d ∧ is_under d kv.1 = false) fs)
  | _ => raise (ExternalError "FileNotFoundError")
  end.

(** [os.path.isdir(d)]. *)
Definition isdir (d : string) : M bool :=
  fs ← get_fs; mret (bool_decide (fs !! d = Some Dir)).

(** What [*] matches below [d]: the entries of [d] that are not hidden. *)
Definition is_child (d k : string) : bool :=
  let pre := Py.join d "" in
  let name := Py.slice_from (Z.of_nat (String.length pre)) k in
  String.prefix pre k && negb (String.eqb name "")
  && negb (Py.contains "/" name) && negb (String.prefix "." name).

(** [glob.glob(os.path.join(d, '*'))]. *)
Definition glob_star (d : string) : M (list string) :=
  fs ← get_fs; mret (List.filter (is_child d) (map fst (map_to_list fs))).

(** The frame extraction of line 28: [ffmpeg] writes the frames of the video,
    numbered from 1, as [frame%08d.png] into the frame folder. *)
Definition extracted_names (frame_folder : string) (n : nat) : list string :=
  map (fun i => frame_folder +:+ "/frame" +:+ pad8 (S i) +:+ ".png") (seq 0 n).

Section Pipeline.

Variable E : env.

Definition system_extract (video frame_folder : string) : M unit :=
  emit (SystemExtract video (frame_folder +:+ "/frame%08d.png"));;
  fs ← get_fs;
  put_fs (foldr (fun q m => <[q := File]> m) fs
                (extracted_names frame_folder (video_frames E video))).

(** ** [get_frames] *)

Definition mime_startswith (p : string) (path : string) : M bool :=
  match guess_type E path with
  | None => raise (AttributeError "'NoneType' object has no attribute 'startswith'")
  | Some t => mret (Py.startswith p t)
  end.

Definition video_streams_of (path : string) : M (list probe_stream) :=
  probe ← lift (ffmpeg_probe E path);
  mret (List.filter (fun st => String.eqb (codec_type st) "video") probe).

Definition first_stream (l : list probe_stream) : M probe_stream :=
  match l with
  | st :: _ => mret st
  | [] => raise (IndexError "list index out of range")
  end.

Definition get_frames (extract_frames : bool) : M (bool * list string) :=
  a ← get_args;
  v ← mime_startswith "video" (input a);
  '(is_video, paths) ←
    (if v : bool then
       let video_name := fst (Py.splitext (Py.basename (input a))) in
       paths ←
         (if extract_frames then
            let frame_folder := Py.join "tmp_frames" video_name in
            makedirs frame_folder;;
            system_extract (input a) frame_folder;;
            l ← glob_star frame_folder;
            mret (sorted l)
          else mret []);
       match fps a with
       | None =>
           video_streams ← video_streams_of (input a);
           st ← first_stream video_streams;
           r ← lift (py_truediv (fst (avg_frame_rate st)) (snd (avg_frame_rate st)));
           modify_args (set_fps (Some r))
       | Some _ => mret tt
       end;;
       mret (true, paths)
     else
       i ← mime_startswith "image" (input a);
       if i : bool then mret (false, [input a])
       else
         l ← glob_star (input a);
         let paths := sorted l in
         if (0 <? Z.of_nat (length paths)) then mret (false, paths)
         else raise (AssertionError "the input folder is empty"));
  a ← get_args;
  match fps a with
  | None => modify_args (set_fps (Some (PInt 24)))
  | Some _ => mret tt
  end;;
  mret (is_video, paths).

(** ** The enhancement engine *)

Definition run_engine (a : args) (img : image) : engine_result :=
  if face_enhance a then face_enhancer_enhance E img
  else upsampler_enhance E img (outscale a).

Definition tile_hint : string :=
  "If you encounter CUDA out of memory, try to set --tile with a smaller number.".

(** ** [inference_stream] *)

(** [decoder.stdout.read(n)]: [n] bytes, fewer at the end of the stream; all
    of it for a negative [n]. *)
Definition pipe_read (n : Z) : M (list byte) :=
  p ← get_pipe;
  let k := if n <? 0 then length p else Z.to_nat n in
  put_pipe (drop k p);;
  emit (DecodeRead (take k p));;
  mret (take k p).

(** [np.frombuffer(img_bytes, np.uint8).reshape([height, width, 3])]. *)
Definition frombuffer_reshape (img_bytes : list byte) (h w : Z) : result image :=
  if (0 <=? h) && (0 <=? w) && (Z.of_nat (length img_bytes) =? h * w * 3)
  then Ok (mkImage [Z.to_nat h; Z.to_nat w; 3%nat] img_bytes)
  else Err (ValueError "cannot reshape array").

(** Lines 118-130: the [try] statement and the barrier after it. *)
Definition stream_frame (img : image) : M unit :=
  a ← get_args;
  match run_engine a img with
  | RuntimeError m => print ("Error " +:+ m);; print tile_hint
  | Enhanced out => emit (EncodeWrite (data out))
  end;;
  emit CudaSynchronize.

(** The loop of line 106 on a video: one iteration per unit of fuel. *)
Fixpoint video_loop (fuel : nat) (w h : Z) (s : state) : option (state * result unit) :=
  match fuel with
  | O => None
  | S k =>
      match pipe_read (w * h * 3) s with
      | (s1, Ok []) => Some (s1, Ok tt)
      | (s1, Ok img_bytes) =>
          match (img ← lift (frombuffer_reshape img_bytes h w); stream_frame img) s1 with
          | (s2, Ok _) => video_loop k w h s2
          | (s2, Err e) => Some (s2, Err e)
          end
      | (s1, Err e) => Some (s1, Err e)
      end
  end.

(** The loop of line 106 on image paths: [idx] runs over [paths]. *)
Fixpoint image_loop (paths : list string) : M unit :=
  match paths with
  | [] => mret tt
  | p :: rest =>
      emit (ImRead p);;
      match imread E p with
      | None => raise (AttributeError "'NoneType' object has no attribute 'shape'")
      | Some img => stream_frame img
      end;;
      image_loop rest
  end.

Definition out_size (w : Z) (scale : pynum) : result Z :=
  py_mul_int w scale ≫= py_int.

Definition large_output_warning : string :=
  "You are generating video that is larger than 4K, which will be very slow due to IO speed. We highly recommend to decrease the outscale(aka, -s).".

(** Lines 58-104: frame discovery, the decoder, the output size, the encoder. *)
Definition stream_setup : M (bool * list string * Z * Z) :=
  '(is_video, paths) ← get_frames false;
  a ← get_args;
  let video_name := fst (Py.splitext (Py.basename (input a))) in
  let video_save_path :=
    Py.join (output a) (video_name +:+ "_" +:+ suffix a +:+ ".mp4") in
  '(w, h) ←
    (if is_video : bool then
       video_streams ← video_streams_of (input a);
       st ← first_stream video_streams;
       emit (DecoderStart (input a));;
       put_pipe (decoder_stdout E (input a));;
       mret (width st, height st)
     else
       match paths with
       | p :: _ => lift (image_size E p)
       | [] => raise (IndexError "list index out of range")
       end);
  out_width ← lift (out_size w (outscale a));
  out_height ← lift (out_size h (outscale a));
  (if 2160 <? out_height then print large_output_warning else mret tt);;
  emit (EncoderStart out_width out_height (fps a) video_save_path is_video);;
  mret (is_video, paths, w, h).

(** Lines 132-136. *)
Definition stream_close (is_video : bool) : M unit :=
  (if is_video then emit DecoderClose else mret tt);;
  emit EncoderClose.

Definition inference_stream_with (fuel : nat) (s : state) : option (state * result unit) :=
  match stream_setup s with
  | (s1, Err e) => Some (s1, Err e)
  | (s1, Ok (is_video, paths, w, h)) =>
      match (if is_video : bool then video_loop fuel w h s1
             else Some (image_loop paths s1)) with
      | None => None
      | Some (s2, Err e) => Some (s2, Err e)
      | Some (s2, Ok _) => Some (stream_close is_video s2)
      end
  end.

(** One unit of fuel per byte the decoder delivers, and one for the empty
    read that ends the loop. *)
Definition inference_stream (s : state) : option (state * result unit) :=
  inference_stream_with (S (length (decoder_stdout E (input (st_args s))))) s.

(** ** [inference_frames] *)

(** Lines 161-164. *)
Definition img_mode (img : image) : option string :=
  match shape img with
  | [_; _; c] => if Nat.eqb c 4 then Some "RGBA" else None
  | _ => None
  end.

(** [img_mode == m], where [img_mode] may be [None]. *)
Definition mode_is (mode : option string) (m : string) : bool :=
  match mode with
  | Some x => String.eqb x m
  | None => false
  end.

(** Lines 176-181: the extension a frame is saved with, from the extension
    [splitext] gave for its path. *)
Definition save_extension (a : args) (mode : option string) (extension : string) : string :=
  let extension := if String.eqb (ext a) "auto" then Py.tail extension else ext a in
  if mode_is mode "RGBA" then "png" else extension.

(** One iteration of the loop of line 159; the value is what the variable
    [extension] holds when the iteration ends. *)
Definition frame_step (save_frame_folder : string) (idx : nat)
    (path : string) (img : image) : M string :=
  let '(imgname, extension) := Py.splitext (Py.basename path) in
  let mode := img_mode img in
  a ← get_args;
  extension ←
    match run_engine a img with
    | RuntimeError m =>
        print ("Error " +:+ m);; print tile_hint;; mret extension
    | Enhanced out =>
        let extension := save_extension a mode extension in
        let save_path :=
          Py.join save_frame_folder (imgname +:+ "_out." +:+ extension) in
        emit (QuePut (Item out save_path));;
        mret extension
    end;
  emit PbarUpdate;;
  emit CudaSynchronize;;
  emit (PbarDescription idx);;
  mret extension.

(** The loop of line 159 over [enumerate(zip(paths, reader))]; [extension]
    is unbound ([None]) until the first iteration. *)
Fixpoint frames_loop (save_frame_folder : string) (idx : nat)
    (frames : list (string * image)) (extension : option string) : M (option string) :=
  match frames with
  | [] => mret extension
  | (path, img) :: rest =>
      e ← frame_step save_frame_folder idx path img;
      frames_loop save_frame_folder (S idx) rest (Some e)
  end.

(** The messages put on the queue so far. *)
Definition event_put (e : event) : option msg :=
  match e with QuePut m => Some m | _ => None end.

Definition que_puts (t : list event) : list msg := omap event_put t.

(** Modelled from the spec: the class [IOConsumer] is not part of the
    sources at hand; a worker persists the buffer of each item it pops to
    its target path. This is what the pool leaves on disk once joined: each
    item taken from the queue is written to its path. Without a consumer
    nothing is taken. *)
Definition pool_writes (k : nat) (q : list msg) (fs : gmap string node) : gmap string node :=
  match k with
  | O => fs
  | S _ =>
      foldl (fun m x => match x with
                        | Item _ save_path => <[save_path := File]> m
                        | Quit => m
                        end) fs q
  end.

(** Line 192: one ['quit'] per unit of [range(args.consumer)]. *)
Fixpoint put_quits (n : nat) : M unit :=
  match n with
  | O => mret tt
  | S k => emit (QuePut Quit);; put_quits k
  end.

(** Lines 192-195. *)
Definition shutdown_consumers (k : Z) : M unit :=
  put_quits (Z.to_nat k);;
  emit ConsumersJoin;;
  t ← get_trace;
  fs ← get_fs;
  put_fs (pool_writes (Z.to_nat k) (que_puts t) fs).

(** [os.system] on the merge command of line 200: the exit status; the video
    is there after a successful merge. *)
Definition system_merge (cmd : merge_cmd) : M Z :=
  emit (SystemMerge cmd);;
  fs ← get_fs;
  let status := ffmpeg_merge E cmd fs in
  (if status =? 0 then put_fs (<[merge_video cmd := File]> fs) else mret tt);;
  mret status.

(** Lines 140-196: frame discovery, the reader, the consumers, the
    enhancement loop, the shutdown of the consumers. The value is the folder
    of the saved frames, the name of the video, and the variable
    [extension] as the loop leaves it. *)
Definition enhance_phase : M (string * string * option string) :=
  '(is_video, paths) ← get_frames true;
  a ← get_args;
  let video_name := fst (Py.splitext (Py.basename (input a))) in
  let save_frame_folder := Py.join (Py.join (output a) video_name) "frames_tmpout" in
  makedirs save_frame_folder;;
  emit (ReaderStart paths);;
  emit (ConsumersStart (Z.to_nat (consumer a)));;
  last_extension ← frames_loop save_frame_folder 0 (zip paths (reader E paths)) None;
  shutdown_consumers (consumer a);;
  mret (save_frame_folder, video_name, last_extension).

(** Lines 203-206. *)
Definition cleanup (save_frame_folder video_name : string) : M unit :=
  rmtree save_frame_folder;;
  let frame_folder := Py.join "tmp_frames" video_name in
  d ← isdir frame_folder;
  if d : bool then rmtree frame_folder else mret tt.

(** Lines 198-206: the merge command, then the removal of the scratch
    folders. The exit status of the command is not looked at. *)
Definition merge_and_cleanup (save_frame_folder video_name : string)
    (last_extension : option string) : M unit :=
  a ← get_args;
  let video_save_path :=
    Py.join (output a) (video_name +:+ "_" +:+ suffix a +:+ ".mp4") in
  extension ←
    match last_extension with
    | Some e => mret e
    | None => raise (NameError "local variable 'extension' referenced before assignment")
    end;
  _ ← system_merge (mkMerge (fps a)
                            (save_frame_folder +:+ "/frame%08d_out." +:+ extension)
                            (input a) video_save_path);
  cleanup save_frame_folder video_name.

Definition inference_frames : M unit :=
  '(save_frame_folder, video_name, last_extension) ← enhance_phase;
  merge_and_cleanup save_frame_folder video_name last_extension.

(** ** [main] *)

Definition isfile (p : string) : M bool :=
  fs ← get_fs; mret (bool_decide (fs !! p = Some File)).

Definition known_models : list string :=
  ["RealESRGAN_x4plus"; "RealESRNet_x4plus"; "RealESRGAN_x4plus_anime_6B";
   "RealESRGAN_x2plus"; "realesr-animevideov3"].

Definition anime_notice : string :=
  "face_enhance is not supported in anime models, we turned this option off for you. if you insist on turning it on, please manually comment the relevant lines of code.".

(** Lines 250-300: what [main] does to [args] and to the file system before
    it starts a pipeline. The construction of the engines is external. *)
Definition main_setup : M unit :=
  modify_args (fun a => set_input (Py.rstrip "\" (Py.rstrip "/" (input a))) a);;
  modify_args (fun a => set_model_name (Py.split_head ".pth" (model_name a)) a);;
  a ← get_args;
  p1 ← isfile (Py.join "experiments/pretrained_models" (model_name a +:+ ".pth"));
  p2 ← isfile (Py.join "realesrgan/weights" (model_name a +:+ ".pth"));
  (if p1 || p2 then mret tt
   else raise (ValueError ("Model " +:+ model_name a +:+ " does not exist.")));;
  (if existsb (String.eqb (model_name a)) known_models then mret tt
   else raise (NameError "name 'netscale' is not defined"));;
  (if Py.contains "anime" (model_name a) && face_enhance a
   then print anime_notice;; modify_args (set_face_enhance false)
   else mret tt);;
  a ← get_args;
  makedirs (output a).

Definition main (s : state) : option (state * result unit) :=
  match main_setup s with
  | (s1, Err e) => Some (s1, Err e)
  | (s1, Ok _) =>
      if stream (st_args s1) then inference_stream s1
      else Some (inference_frames s1)
  end.

End Pipeline.

(** ** The consumer pool *)

Module Pool.

(** A consumer is waiting on the queue, holds an item it has taken and not
    yet written, or has left its loop. *)
Inductive worker : Type :=
| Waiting
| Holding (out : image) (save_path : string)
| Done.

(** The pool while a run is in its enhancement loop: the messages the loop
    will still put ([script]), the queue, the consumers, the disk. *)
Record pool : Type := mkPool {
  script : list msg;
  queue : list msg;
  workers : list worker;
  disk : gmap string node
}.

(** Modelled from the spec: the class [IOConsumer] is not part of the
    sources at hand. Each worker, in a loop, pops one item; if it is the
    shutdown sentinel it exits; otherwise it persists the buffer to its
    target path, then loops. [step_put] is the [que.put] of the
    orchestrator (lines 184 and 193); a worker can only pop from a queue
    that is not empty. *)
Inductive step : pool -> pool -> Prop :=
| step_put m sc q ws d :
    step (mkPool (m :: sc) q ws d) (mkPool sc (q ++ [m]) ws d)
| step_take_item i out p sc q ws d :
    ws !! i = Some Waiting ->
    step (mkPool sc (Item out p :: q) ws d)
         (mkPool sc q (<[i := Holding out p]> ws) d)
| step_take_quit i sc q ws d :
    ws !! i = Some Waiting ->
    step (mkPool sc (Quit :: q) ws d) (mkPool sc q (<[i := Done]> ws) d)
| step_write i out p sc q ws d :
    ws !! i = Some (Holding out p) ->
    step (mkPool sc q ws d) (mkPool sc q (<[i := Waiting]> ws) (<[p := File]> d)).

(** Executions, with their number of steps. *)
Inductive steps : nat -> pool -> pool -> Prop :=
| steps_refl σ : steps 0 σ σ
| steps_step n σ1 σ2 σ3 : step σ1 σ2 -> steps n σ2 σ3 -> steps (S n) σ1 σ3.

(** The pool when the consumers are started (line 157): nothing is queued
    yet, and the loop has all its messages still to put. *)
Definition init (k : nat) (sc : list msg) (d : gmap string node) : pool :=
  mkPool sc [] (replicate k Waiting) d.

(** Every [consumer.join()] of line 195 returns. *)
Definition joined (σ : pool) : Prop :=
  script σ = [] ∧ Forall (fun w => w = Done) (workers σ).

Definition stuck (σ : pool) : Prop := ∀ σ', ¬ step σ σ'.

Definition is_quit (m : msg) : bool :=
  match m with Quit => true | Item _ _ => false end.

Definition is_done (w : worker) : bool :=
  match w with Done => true | _ => false end.

Definition is_holding (w : worker) : bool :=
  match w with Holding _ _ => true | _ => false end.

Definition count {A : Type} (f : A -> bool) (l : list A) : nat :=
  length (List.filter f l).

(** What is left to do: it decreases with every step. *)
Definition measure (σ : pool) : nat :=
  3 * length (script σ) + 2 * length (queue σ) + count is_holding (workers σ).

End Pool.

(** ** Notions of the specification *)

(** The real number a Python number stands for. *)
Definition num_to_Q (x : pynum) : Q :=
  match x with
  | PInt z => inject_Z z
  | PFloat f => Float.to_Q f
  end.

(** [z] is [q] rounded to an integer, whatever the rule for ties. *)
Definition rounds_to (q : Q) (z : Z) : Prop :=
  (Qabs (inject_Z z - q) <= 1 # 2)%Q.

(** The integer part of [q], towards zero. *)
Definition trunc (q : Q) : Z := Z.quot (Qnum q) (Z.pos (Qden q)).

(** What a trace shows of a run. *)
Definition event_write (e : event) : option (list byte) :=
  match e with EncodeWrite b => Some b | _ => None end.

Definition event_encoder_size (e : event) : option (Z * Z) :=
  match e with EncoderStart ow oh _ _ _ => Some (ow, oh) | _ => None end.

Definition event_print (e : event) : option string :=
  match e with Print l => Some l | _ => None end.

Definition event_merge (e : event) : option merge_cmd :=
  match e with SystemMerge c => Some c | _ => None end.

Definition event_consumers (e : event) : option nat :=
  match e with ConsumersStart k => Some k | _ => None end.

Definition event_reader (e : event) : option (list string) :=
  match e with ReaderStart paths => Some paths | _ => None end.

(** A frame read by a streaming run: a non-empty read of the decode pipe, as
    a [height x width x 3] array, or an image read from a path. *)
Definition event_frame (E : env) (h w : Z) (e : event) : option image :=
  match e with
  | DecodeRead (b :: bs) => Some (mkImage [Z.to_nat h; Z.to_nat w; 3%nat] (b :: bs))
  | ImRead p => imread E p
  | _ => None
  end.

Definition event_framerate (e : event) : option (option pynum) :=
  match e with EncoderStart _ _ fr _ _ => Some fr | _ => None end.

(** A frame taken from the decode pipe: a read that is not empty. *)
Definition event_pipe_frame (e : event) : option (list byte) :=
  match e with DecodeRead (b :: bs) => Some (b :: bs) | _ => None end.

Definition encode_writes (t : list event) : list (list byte) := omap event_write t.
Definition pipe_frames (t : list event) : list (list byte) := omap event_pipe_frame t.
Definition framerates (t : list event) : list (option pynum) := omap event_framerate t.
Definition encoder_sizes (t : list event) : list (Z * Z) := omap event_encoder_size t.
Definition printed (t : list event) : list string := omap event_print t.
Definition merge_cmds (t : list event) : list merge_cmd := omap event_merge t.
Definition consumers_started (t : list event) : list nat := omap event_consumers t.
Definition readers_started (t : list event) : list (list string) := omap event_reader t.
Definition frames_read (E : env) (h w : Z) (t : list event) : list image :=
  omap (event_frame E h w) t.

(** The bytes written for a frame: none when the engine fails on it. *)
Definition written_for (E : env) (a : args) (img : image) : option (list byte) :=
  match run_engine E a img with
  | Enhanced out => Some (data out)
  | RuntimeError _ => None
  end.

Definition engine_fails (E : env) (a : args) (img : image) : bool :=
  match run_engine E a img with
  | Enhanced _ => false
  | RuntimeError _ => true
  end.

(** The lines the code prints when the engine fails with message [m]. *)
Definition failure_lines (m : string) : list string :=
  ["Error " +:+ m; tile_hint].

(** A printed line names a frame when it has the name of its file, or its
    position in the run, counted from 0 or from 1. *)
Definition names_frame (line : string) (idx : nat) (path : string) : bool :=
  Py.contains (Py.basename path) line
  || Py.contains (Py.str_of_nat idx) line
  || Py.contains (Py.str_of_nat (S idx)) line.

(** The pixel buffer of a frame has four channels. *)
Definition has_alpha (img : image) : bool :=
  match shape img with
  | [_; _; c] => Nat.eqb c 4
  | _ => false
  end.

(** The extension of a file name, without its dot. *)
Definition file_extension (path : string) : string :=
  Py.tail (snd (Py.splitext (Py.basename path))).

(** What the loop of [inference_frames] does for one frame. *)
Definition frame_save_path (E : env) (a : args) (folder : string)
    (f : string * image) : option msg :=
  match run_engine E a f.2 with
  | Enhanced out =>
      let '(imgname, extension) := Py.splitext (Py.basename f.1) in
      Some (Item out (Py.join folder
              (imgname +:+ "_out." +:+ save_extension a (img_mode f.2) extension)))
  | RuntimeError _ => None
  end.

Definition frame_prints (E : env) (a : args) (f : string * image) : list string :=
  match run_engine E a f.2 with
  | Enhanced _ => []
  | RuntimeError m => failure_lines m
  end.

(** The value of the variable [extension] after the iteration on a frame. *)
Definition extension_after (E : env) (a : args) (f : string * image) : string :=
  let extension := snd (Py.splitext (Py.basename f.1)) in
  match run_engine E a f.2 with
  | Enhanced _ => save_extension a (img_mode f.2) extension
  | RuntimeError _ => extension
  end.

(** The events of the iteration of the loop on the frame at position [idx]. *)
Definition frame_events (E : env) (a : args) (folder : string) (idx : nat)
    (f : string * image) : list event :=
  map Print (frame_prints E a f)
  ++ match frame_save_path E a folder f with
     | Some m => [QuePut m]
     | None => []
     end
  ++ [PbarUpdate; CudaSynchronize; PbarDescription idx].

Fixpoint loop_events (E : env) (a : args) (folder : string) (idx : nat)
    (frames : list (string * image)) : list event :=
  match frames with
  | [] => []
  | f :: rest => frame_events E a folder idx f ++ loop_events E a folder (S idx) rest
  end.

(** The names a run of [inference_frames] works with. *)
Definition video_name_of (a : args) : string :=
  fst (Py.splitext (Py.basename (input a))).

Definition save_frame_folder_of (a : args) : string :=
  Py.join (Py.join (output a) (video_name_of a)) "frames_tmpout".

Definition frame_folder_of (a : args) : string :=
  Py.join "tmp_frames" (video_name_of a).

Definition video_save_path_of (a : args) : string :=
  Py.join (output a) (video_name_of a +:+ "_" +:+ suffix a +:+ ".mp4").

(** The file names the pattern [prefix%08d_out.extension] of the merge
    command stands for. *)
Definition picked_up (folder extension file : string) : Prop :=
  ∃ n : nat, file = folder +:+ "/frame" +:+ pad8 n +:+ "_out." +:+ extension.

Fixpoint has_char (c : ascii) (s : string) : bool :=
  match s with
  | EmptyString => false
  | String a r => Ascii.eqb a c || has_char c r
  end.

(** No directory is left at [d], nor anything below it. *)
Definition tree_gone (d : string) (fs : gmap string node) : Prop :=
  fs !! d = None ∧ ∀ k, is_under d k = true → fs !! k = None.

(** The options other than the frame rate. *)
Definition same_but_fps (a b : args) : Prop := set_fps None a = set_fps None b.

(** The options of the pipeline: all but the input and the name of the
    model. What [main] may do to them before it starts a pipeline: switch
    face enhancement off. *)
Definition pipeline_options (a : args) : args :=
  set_input "" (set_model_name "" (set_face_enhance false a)).

Definition setup_keeps (a b : args) : Prop :=
  pipeline_options a = pipeline_options b ∧
  (face_enhance b = true -> face_enhance a = true).

(** The frame rate of a run: the override, else the rate probed for a
    video, else 24. *)
Definition resolved_fps (override : option pynum) (is_video : bool)
    (probed : result pynum) : option pynum :=
  match override with
  | Some f => Some f
  | None =>
      if is_video then
        match probed with
        | Ok r => Some r
        | Err _ => None
        end
      else Some (PInt 24)
  end.

(** The rate [get_frames] probes: [avg_frame_rate] of the first video
    stream. *)
Definition probed_fps (E : env) (path : string) : result pynum :=
  streams ← ffmpeg_probe E path;
  match List.filter (fun st => String.eqb (codec_type st) "video") streams with
  | st :: _ => py_truediv (fst (avg_frame_rate st)) (snd (avg_frame_rate st))
  | [] => Err (IndexError "list index out of range")
  end.

Definition with_merge_status (E : env) (status : Z) : env :=
  mkEnv (guess_type E) (ffmpeg_probe E) (video_frames E) (decoder_stdout E)
        (image_size E) (imread E) (reader E) (upsampler_enhance E)
        (face_enhancer_enhance E) (fun _ _ => status).

(** ** Concrete runs *)

Module Demo.

(** An excerpt of the table of [mimetypes]: a path without a known extension
    has no type. *)
Definition guess (path : string) : option string :=
  match snd (Py.splitext path) with
  | ".mp4" => Some "video/mp4"
  | ".png" => Some "image/png"
  | ".jpg" => Some "image/jpeg"
  | ".txt" => Some "text/plain"
  | _ => None
  end.

(** A frame of one pixel whose first byte is its number. *)
Definition pixel (b : byte) : image := mkImage [1%nat; 1%nat; 3%nat] [b; x00; x00].

Definition numbered (n : nat) : byte :=
  match Byte.of_nat n with
  | Some b => b
  | None => x00
  end.

(** An engine that doubles a one-pixel frame, and runs out of memory on the
    frames whose number is in [bad]. *)
Definition engine (bad : list nat) (img : image) : engine_result :=
  match data img with
  | b :: _ =>
      if existsb (Nat.eqb (Byte.to_nat b)) bad
      then RuntimeError "CUDA out of memory"
      else Enhanced (mkImage [2%nat; 2%nat; 3%nat] (List.repeat b 12))
  | [] => Enhanced (mkImage [0%nat; 0%nat; 3%nat] [])
  end.

(** A video of [w x h] pixels at 30 frames per second with [n] frames, the
    frames numbered from 1, in a world where the merge command exits with
    [status]. *)
Definition world (w h : Z) (n : nat) (bad : list nat) (status : Z) : env :=
  mkEnv guess
        (fun _ => Ok [mkStream "audio" 0 0 (0, 0); mkStream "video" w h (30, 1)])
        (fun _ => n)
        (fun _ => flat_map (fun i => [numbered (S i); x00; x00]) (seq 0 n))
        (fun _ => Ok (w, h))
        (fun _ => Some (pixel x01))
        (fun paths => imap (fun i _ => pixel (numbered (S i))) paths)
        (fun img _ => engine bad img)
        (fun img => engine bad img)
        (fun _ _ => status).

Definition options (inp : string) (scale : pynum) (rate : option pynum) : args :=
  mkArgs inp "realesr-animevideov3" "results" scale "out" 0 10 0 false false
         rate 4 false "ffmpeg" "realesrgan" "auto".

(** [--outscale] and [--fps] are of [type=float]: a value given on the
    command line arrives as a [float]. *)
Definition scale_1_75 : pynum := PFloat (Float.dyadic 7 (-2)).

Definition scale_2 : pynum := PFloat (Float.dyadic 2 0).

Definition rate_12 : pynum := PFloat (Float.dyadic 12 0).

(** A folder of frames under a name without a type, and one under a name
    with the type of a text file. *)
Definition folders : gmap string node :=
  {[ "inputs" := Dir; "inputs/b.png" := File; "inputs/a.jpg" := File;
     "frames.txt" := Dir; "frames.txt/b.png" := File; "frames.txt/a.jpg" := File;
     "empty.txt" := Dir ]}.

End Demo.

(** ** Notions used in the proofs *)

(** [m] relates the state it starts in to the state it ends in, whether it
    returns or raises. *)
Definition preserves (R : state -> state -> Prop) {A : Type} (m : M A) : Prop :=
  ∀ s s' r, m s = (s', r) -> R s s'.

(** The relation of a frame condition: the options change along [Q], and
    the events added to the trace all satisfy [P]. *)
Definition frame_rel (Q : args -> args -> Prop) (P : event -> Prop)
    (s s' : state) : Prop :=
  Q (st_args s) (st_args s') ∧
  ∃ t, st_trace s' = st_trace s ++ t ∧ Forall P t.

(** An event that a projection of the trace does not show. *)
Definition silent {B : Type} (f : event -> option B) (e : event) : Prop := f e = None.

Definition add_events (s : state) (t : list event) : state :=
  mkState (st_args s) (st_fs s) (st_pipe s) (st_trace s ++ t).

Definition set_fs (s : state) (fs : gmap string node) : state :=
  mkState (st_args s) fs (st_pipe s) (st_trace s).

Definition makedirs_fs (p : string) (fs : gmap string node) : gmap string node :=
  foldr (fun q m => <[q := Dir]> m) fs (makedirs_chain p).

(** The events of the setup of the streaming pipeline between frame
    discovery and the start of the encoder. *)
Definition setup_events (v : bool) (inp : string) (oh : Z) : list event :=
  (if v then [DecoderStart inp] else [])
  ++ (if 2160 <? oh then [Print large_output_warning] else []).

(** The variable [extension] after the loop over [frames]. *)
Definition loop_extension (E : env) (a : args) (frames : list (string * image))
    (e : option string) : option string :=
  match last frames with
  | Some f => Some (extension_after E a f)
  | None => e
  end.

(** The trace of the enhancement phase after frame discovery. *)
Definition phase_events (E : env) (a : args) (paths : list string) : list event :=
  [ReaderStart paths; ConsumersStart (Z.to_nat (consumer a))]
  ++ loop_events E a (save_frame_folder_of a) 0 (zip paths (reader E paths))
  ++ replicate (Z.to_nat (consumer a)) (QuePut Quit)
  ++ [ConsumersJoin].

Fixpoint last_char (s : string) : option ascii :=
  match s with
  | EmptyString => None
  | String a EmptyString => Some a
  | String _ r => last_char r
  end.

Definition item_path (m : msg) : option string :=
  match m with
  | Item _ p => Some p
  | Quit => None
  end.

(** The events of lines 118-130 for one frame in stream mode. *)
Definition stream_frame_events (E : env) (a : args) (img : image) : list event :=
  match run_engine E a img with
  | Enhanced out => [EncodeWrite (data out)]
  | RuntimeError m => map Print (failure_lines m)
  end ++ [CudaSynchronize].

Definition option_list {A : Type} (o : option A) : list A :=
  match o with Some x => [x] | None => [] end.

(** What a loop of the streaming pipeline that came to its end has done:
    the options and the file system are as before, and the writes to the
    encode pipe are the outputs of the engine on the frames read, those on
    which it failed left out. *)
Definition loop_result (E : env) (v : bool) (h w : Z) (s s' : state) : Prop :=
  st_args s' = st_args s ∧ st_fs s' = st_fs s ∧
  ∃ t, st_trace s' = st_trace s ++ t ∧
       encode_writes t = omap (written_for E (st_args s)) (frames_read E h w t) ∧
       encoder_sizes t = [] ∧
       (if v then length (pipe_frames t) = length (frames_read E h w t)
        else pipe_frames t = []).

(** The merge command of a run whose loop left [extension]. *)
Definition merge_cmd_of (a : args) (extension : string) : merge_cmd :=
  mkMerge (fps a)
          (save_frame_folder_of a +:+ "/frame%08d_out." +:+ extension)
          (input a) (video_save_path_of a).

(** The state after the merge command: the video is there when it passed. *)
Definition after_merge (E : env) (extension : string) (s : state) : state :=
  let cmd := merge_cmd_of (st_args s) extension in
  mkState (st_args s)
          (if ffmpeg_merge E cmd (st_fs s) =? 0
           then <[merge_video cmd := File]> (st_fs s) else st_fs s)
          (st_pipe s) (st_trace s ++ [SystemMerge cmd]).

(** *** Invariants of the consumer pool *)

Module PoolInv.
Import Pool.

Definition alive (w : worker) : bool := negb (is_done w).

(** As many sentinels are queued or still to come as consumers are alive. *)
Definition balanced (σ : pool) : Prop :=
  count is_quit (queue σ ++ script σ) = count alive (workers σ).

Definition held_path (w : worker) : option string :=
  match w with Holding _ p => Some p | _ => None end.

(** The paths still to be written: of the items held by a consumer, queued,
    or still to be put. *)
Definition pending (σ : pool) : list string :=
  omap held_path (workers σ) ++ omap item_path (queue σ ++ script σ).

(** [target] is the disk once all that is pending is written. *)
Definition covers (target : gmap string node) (σ : pool) : Prop :=
  ∀ p, (p ∈ pending σ -> target !! p = Some File) ∧
       (p ∉ pending σ -> target !! p = disk σ !! p).

(** The sentinels come last, and a consumer has left only when no item is
    queued or still to come. *)
Definition ordered (σ : pool) : Prop :=
  ∃ its n,
    queue σ ++ script σ = its ++ replicate n Quit ∧
    Forall (fun m => is_quit m = false) its ∧
    (Exists (fun w => w = Done) (workers σ) -> its = []).

(** What holds of every pool an execution reaches. *)
Record invariant (k : nat) (target : gmap string node) (σ : pool) : Prop := {
  inv_balanced : balanced σ;
  inv_ordered : ordered σ;
  inv_covers : covers target σ;
  inv_workers : length (workers σ) = k
}.

(** The disk after the consumers have written every item of [q]. *)
Definition write_all (q : list msg) (fs : gmap string node) : gmap string node :=
  foldl (fun m x => match x with
                    | Item _ save_path => <[save_path := File]> m
                    | Quit => m
                    end) fs q.

End PoolInv.

(** ** The statements of the specification that the code does not meet *)

(** The encoder is started with the rounded products of the frame
    dimensions and the scale. *)
Definition output_size_rounded (E : env) (a : args) (fs : gmap string node) : Prop :=
  ∀ s' v paths w h ow oh,
    stream_setup E (init_state a fs) = (s', Ok (v, paths, w, h)) ->
    In (ow, oh) (encoder_sizes (st_trace s')) ->
    rounds_to (inject_Z w * num_to_Q (outscale a)) ow ∧
    rounds_to (inject_Z h * num_to_Q (outscale a)) oh.

(** In stream mode every write to the encode pipe has the size of an output
    frame, and there is one write per frame read from the decode pipe. *)
Definition no_frame_dropped (E : env) (a : args) (fs : gmap string node) : Prop :=
  ∀ s' ow oh,
    inference_stream E (init_state a fs) = Some (s', Ok tt) ->
    In (ow, oh) (encoder_sizes (st_trace s')) ->
    Forall (fun b => Z.of_nat (length b) = ow * oh * 3) (encode_writes (st_trace s')) ∧
    length (encode_writes (st_trace s')) = length (pipe_frames (st_trace s')).

(** In file mode a failure of the engine is logged with the identity of the
    frame it failed on. *)
Definition failures_name_their_frame (E : env) (a : args) (fs : gmap string node) : Prop :=
  ∀ s' r paths idx path img,
    inference_frames E (init_state a fs) = (s', r) ->
    In paths (readers_started (st_trace s')) ->
    zip paths (reader E paths) !! idx = Some (path, img) ->
    engine_fails E a img = true ->
    ∃ line, In line (printed (st_trace s')) ∧ names_frame line idx path = true.

(** The options are the same when a pipeline ends as when it started. *)
Definition options_read_only (E : env) (a : args) (fs : gmap string node) : Prop :=
  (∀ s' r, inference_frames E (init_state a fs) = (s', r) -> st_args s' = a) ∧
  (∀ s' r, inference_stream E (init_state a fs) = Some (s', r) -> st_args s' = a).

(** A failure of the merge command shows in what the run returns or prints:
    the run with a failing merge can be told from the run with a passing
    one. *)
Definition remux_failure_surfaced (E : env) (a : args) (fs : gmap string node) : Prop :=
  let failed := inference_frames (with_merge_status E 1) (init_state a fs) in
  let passed := inference_frames (with_merge_status E 0) (init_state a fs) in
  merge_cmds (st_trace failed.1) ≠ [] ->
  failed.2 ≠ passed.2 ∨ printed (st_trace failed.1) ≠ printed (st_trace passed.1).

(** ** Notions of the further properties *)

(** The options once [main] has normalised the input path and the name of
    the model (lines 250 and 253). *)
Definition normalised (a : args) : args :=
  let a1 := set_input (Py.rstrip "\" (Py.rstrip "/" (input a))) a in
  set_model_name (Py.split_head ".pth" (model_name a1)) a1.

(** One of the two places [main] looks for the weights of a model holds a
    file (lines 268-270). *)
Definition has_weights (fs : gmap string node) (name : string) : bool :=
  bool_decide (fs !! Py.join "experiments/pretrained_models" (name +:+ ".pth") = Some File)
  || bool_decide (fs !! Py.join "realesrgan/weights" (name +:+ ".pth") = Some File).

Definition set_args (s : state) (a : args) : state :=
  mkState a (st_fs s) (st_pipe s) (st_trace s).

(** A computation that only reads: the disk, the pipe and the trace are as
    before. *)
Definition reads_only (s s' : state) : Prop :=
  st_fs s' = st_fs s ∧ st_pipe s' = st_pipe s ∧ st_trace s' = st_trace s.

Definition same_disk (s s' : state) : Prop := st_fs s' = st_fs s.

(** The pipes a run closes: [true] for the decoder, [false] for the
    encoder. *)
Definition event_close (e : event) : option bool :=
  match e with
  | DecoderClose => Some true
  | EncoderClose => Some false
  | _ => None
  end.

Definition closes (t : list event) : list bool := omap event_close t.

(** The progress bar of the frame-file pipeline: the indices its description
    was set to, and its updates. *)
Definition event_description (e : event) : option nat :=
  match e with PbarDescription i => Some i | _ => None end.

Definition event_update (e : event) : option unit :=
  match e with PbarUpdate => Some tt | _ => None end.

Definition event_barrier (e : event) : option unit :=
  match e with CudaSynchronize => Some tt | _ => None end.

Definition pbar_descriptions (t : list event) : list nat := omap event_description t.
Definition pbar_updates (t : list event) : list unit := omap event_update t.
Definition barriers (t : list event) : list unit := omap event_barrier t.

(** The disk once the frames of the video have been extracted (lines 25-28):
    the frame folder with the ones above it, and a file per frame. *)
Definition extracted_fs (E : env) (a : args) (fs : gmap string node) : gmap string node :=
  foldr (fun q m => <[q := File]> m) (makedirs_fs (frame_folder_of a) fs)
        (extracted_names (frame_folder_of a) (video_frames E (input a))).

(** The entries of a folder that [glob] lists. *)
Definition listing (d : string) (fs : gmap string node) : list string :=
  List.filter (is_child d) (map fst (map_to_list fs)).

(** Where the encoder of a streaming run writes, and whether it copies the
    audio of the input. *)
Definition event_encoder_target (e : event) : option (string * bool) :=
  match e with EncoderStart _ _ _ p with_audio => Some (p, with_audio) | _ => None end.

Definition encoder_targets (t : list event) : list (string * bool) :=
  omap event_encoder_target t.

(** *** Further concrete runs *)

Module Scene.

(** A disk with the weights of the default model, and of a model of one's
    own. *)
Definition weights : gmap string node :=
  {[ "realesrgan/weights/realesr-animevideov3.pth" := File;
     "experiments/pretrained_models/mymodel.pth" := File ]}.

(** A one-pixel video of two frames. *)
Definition clip : env := Demo.world 1 1 2 [] 0.

Definition defaults : args := Demo.options "clip.mp4" Demo.scale_2 None.

(** The same video when the decoder stops one byte into its second frame. *)
Definition truncated : env :=
  mkEnv (guess_type clip) (ffmpeg_probe clip) (video_frames clip)
        (fun _ => [x01; x00; x00; x02])
        (image_size clip) (imread clip) (reader clip) (upsampler_enhance clip)
        (face_enhancer_enhance clip) (ffmpeg_merge clip).

(** A file with the name of a video and no video stream. *)
Definition audio_only : env :=
  mkEnv (guess_type clip) (fun _ => Ok [mkStream "audio" 0 0 (0, 0)]) (video_frames clip)
        (decoder_stdout clip) (image_size clip) (imread clip) (reader clip)
        (upsampler_enhance clip) (face_enhancer_enhance clip) (ffmpeg_merge clip).

(** The options with [--stream]. *)
Definition streaming : args :=
  mkArgs "clip.mp4" "realesr-animevideov3" "results" Demo.scale_2 "out" 0 10 0
         false false None 4 true "ffmpeg" "realesrgan" "auto".

(** The options with [--ext png]. *)
Definition png_options : args :=
  mkArgs "frames.txt" "realesr-animevideov3" "results" Demo.scale_2 "out" 0 10 0
         false false None 4 false "ffmpeg" "realesrgan" "png".

(** A frame folder in which an earlier run left a file. *)
Definition stale : gmap string node :=
  {[ "tmp_frames" := Dir; "tmp_frames/clip" := Dir; "tmp_frames/clip/old.png" := File ]}.

End Scene.

(** * Properties *)

(** ** The string and number operations on concrete inputs *)

Example basename_ex : Py.basename "tmp_frames/clip/frame00000001.png" = "frame00000001.png".
Proof. reflexivity. Qed.

Example splitext_ex : Py.splitext "frame00000001.png" = ("frame00000001", ".png").
Proof. reflexivity. Qed.

Example splitext_hidden : Py.splitext ".bashrc" = (".bashrc", "").
Proof. reflexivity. Qed.

Example splitext_dir : Py.splitext "a.b/c" = ("a.b/c", "").
Proof. reflexivity. Qed.

Example join_ex : Py.join "tmp_frames" "clip" = "tmp_frames/clip".
Proof. reflexivity. Qed.

Example rstrip_ex : Py.rstrip "/" "inputs//" = "inputs".
Proof. reflexivity. Qed.

Example split_head_ex : Py.split_head ".pth" "RealESRGAN_x4plus.pth" = "RealESRGAN_x4plus".
Proof. reflexivity. Qed.

Example float_7_4 : Float.dyadic 7 (-2) = S754_finite false 7881299347898368 (-52).
Proof. reflexivity. Qed.

Example mul_641_175 :
  py_mul_int 641 (PFloat (Float.dyadic 7 (-2))) ≫= py_int = Ok 1121.
Proof. vm_compute. reflexivity. Qed.


(** ** Reasoning about computations *)

Lemma bind_run {A B : Type} (m : M A) (k : A -> M B) (s : state) :
  (m ≫= k) s = match m s with
               | (s1, Ok a) => k a s1
               | (s1, Err e) => (s1, Err e)
               end.
Proof. reflexivity. Qed.

Lemma bind_inv {A B : Type} (m : M A) (k : A -> M B) (s s' : state) (r : result B) :
  (m ≫= k) s = (s', r) ->
  (∃ s1 a, m s = (s1, Ok a) ∧ k a s1 = (s', r)) ∨
  (∃ e, m s = (s', Err e) ∧ r = Err e).
Proof.
  rewrite bind_run. destruct (m s) as [s1 [a|e]]; intros H.
  - left. eauto.
  - right. inversion H; subst. eauto.
Qed.

Lemma bind_ok_inv {A B : Type} (m : M A) (k : A -> M B) (s s' : state) (b : B) :
  (m ≫= k) s = (s', Ok b) ->
  ∃ s1 a, m s = (s1, Ok a) ∧ k a s1 = (s', Ok b).
Proof.
  intros H. apply bind_inv in H as [H | (e & _ & H)]; [exact H | discriminate].
Qed.

Lemma ret_run {A : Type} (a : A) (s : state) : (mret a : M A) s = (s, Ok a).
Proof. reflexivity. Qed.

Lemma lift_run {A : Type} (r : result A) (s : state) : lift r s = (s, r).
Proof. reflexivity. Qed.

Lemma emit_run (e : event) (s : state) :
  emit e s = (mkState (st_args s) (st_fs s) (st_pipe s) (st_trace s ++ [e]), Ok tt).
Proof. reflexivity. Qed.

Lemma result_bind_ok {A B : Type} (r : result A) (k : A -> result B) (b : B) :
  r ≫= k = Ok b -> ∃ a, r = Ok a ∧ k a = Ok b.
Proof. destruct r as [a|e]; [eauto | discriminate]. Qed.

(** Decompose a hypothesis on the run of a sequence of computations. *)
Tactic Notation "run_inv" hyp(H) "as" ident(s1) ident(x) ident(Hx) :=
  apply bind_ok_inv in H as (s1 & x & Hx & H).

Ltac run_prim H :=
  first [ unfold get_args in H | unfold get_fs in H | unfold get_pipe in H
        | unfold get_trace in H | rewrite emit_run in H | rewrite ret_run in H
        | rewrite lift_run in H ];
  inversion H; subst; clear H.

(** ** Numbers *)

Lemma cond_Zopp_mul (s : bool) (a b : Z) : cond_Zopp s (a * b) = cond_Zopp s a * b.
Proof. destruct s; simpl; lia. Qed.

Lemma trunc_inject (z : Z) : trunc (inject_Z z) = z.
Proof. unfold trunc. simpl. apply Z.quot_1_r. Qed.

Lemma to_int_trunc (f : spec_float) (z : Z) :
  Float.to_int f = Ok z -> z = trunc (Float.to_Q f).
Proof.
  destruct f as [s|s| |s m e]; simpl; intros H; try discriminate.
  - inversion H. reflexivity.
  - inversion H as [Hz]. clear H Hz. destruct e as [|p|p].
    + rewrite trunc_inject. simpl. rewrite Z.mul_1_r. reflexivity.
    + rewrite trunc_inject. rewrite Z.shiftl_mul_pow2 by lia.
      apply cond_Zopp_mul.
    + unfold trunc. simpl Qnum. simpl Qden.
      change (Z.shiftl (Z.pos m) (Z.neg p)) with (Z.shiftr (Z.pos m) (Z.pos p)).
      rewrite Z.shiftr_div_pow2 by lia.
      rewrite Pos2Z.inj_pow.
      assert (0 < 2 ^ Z.pos p) by (apply Z.pow_pos_nonneg; lia).
      destruct s; simpl.
      * change (Z.neg m) with (- Z.pos m). rewrite Z.quot_opp_l by lia.
        rewrite Z.quot_div_nonneg by lia. reflexivity.
      * rewrite Z.quot_div_nonneg by lia. reflexivity.
Qed.

Lemma py_int_trunc (x : pynum) (z : Z) : py_int x = Ok z -> z = trunc (num_to_Q x).
Proof.
  destruct x as [n|f]; simpl.
  - intros H. inversion H. symmetry. apply trunc_inject.
  - apply to_int_trunc.
Qed.

Lemma out_size_trunc (w : Z) (scale : pynum) (z : Z) :
  out_size w scale = Ok z ->
  ∃ p, py_mul_int w scale = Ok p ∧ z = trunc (num_to_Q p).
Proof.
  unfold out_size. intros H. apply result_bind_ok in H as (p & Hp & Hz).
  exists p. split; [exact Hp | apply py_int_trunc, Hz].
Qed.

(** ** What a computation leaves unchanged *)

Section Preserves.

Variable R : state -> state -> Prop.
Hypothesis R_refl : ∀ s, R s s.
Hypothesis R_trans : ∀ s1 s2 s3, R s1 s2 -> R s2 s3 -> R s1 s3.

Lemma preserves_ret {A : Type} (a : A) : preserves R (mret a : M A).
Proof. intros s s' r H. inversion H. apply R_refl. Qed.

Lemma preserves_raise {A : Type} (e : exn) : preserves R (raise e : M A).
Proof. intros s s' r H. inversion H. apply R_refl. Qed.

Lemma preserves_lift {A : Type} (x : result A) : preserves R (lift x).
Proof. intros s s' r H. inversion H. apply R_refl. Qed.

Lemma preserves_get_args : preserves R get_args.
Proof. intros s s' r H. inversion H. apply R_refl. Qed.

Lemma preserves_get_fs : preserves R get_fs.
Proof. intros s s' r H. inversion H. apply R_refl. Qed.

Lemma preserves_get_pipe : preserves R get_pipe.
Proof. intros s s' r H. inversion H. apply R_refl. Qed.

Lemma preserves_get_trace : preserves R get_trace.
Proof. intros s s' r H. inversion H. apply R_refl. Qed.

Lemma preserves_bind {A B : Type} (m : M A) (k : A -> M B) :
  preserves R m -> (∀ a, preserves R (k a)) -> preserves R (m ≫= k).
Proof.
  intros Hm Hk s s' r H. apply bind_inv in H as [(s1 & a & H1 & H2) | (e & H1 & _)].
  - eapply R_trans; [eapply Hm, H1 | eapply Hk, H2].
  - eapply Hm, H1.
Qed.

End Preserves.

Lemma preserves_apply {A : Type} (R : state -> state -> Prop) (m : M A)
    (s s' : state) (r : result A) :
  preserves R m -> m s = (s', r) -> R s s'.
Proof. intros H. apply H. Qed.

Section Frame.

Variable Q : args -> args -> Prop.
Variable P : event -> Prop.
Hypothesis Q_refl : ∀ a, Q a a.
Hypothesis Q_trans : ∀ a b c, Q a b -> Q b c -> Q a c.

Lemma frame_refl (s : state) : frame_rel Q P s s.
Proof. split; [apply Q_refl | exists []; rewrite app_nil_r; auto]. Qed.

Lemma frame_trans (s1 s2 s3 : state) :
  frame_rel Q P s1 s2 -> frame_rel Q P s2 s3 -> frame_rel Q P s1 s3.
Proof.
  intros [Ha (t & Ht & HP)] [Ha' (t' & Ht' & HP')]. split.
  - eapply Q_trans; eassumption.
  - exists (t ++ t'). split.
    + rewrite Ht', Ht, app_assoc. reflexivity.
    + apply Forall_app; auto.
Qed.

Lemma frame_emit (e : event) : P e -> preserves (frame_rel Q P) (emit e).
Proof.
  intros He s s' r H. inversion H; subst; clear H. split; [apply Q_refl |].
  exists [e]. simpl. auto.
Qed.

Lemma frame_put_fs (fs : gmap string node) : preserves (frame_rel Q P) (put_fs fs).
Proof.
  intros s s' r H. inversion H; subst; clear H. split; [apply Q_refl |].
  exists []. simpl. rewrite app_nil_r. auto.
Qed.

Lemma frame_put_pipe (p : list byte) : preserves (frame_rel Q P) (put_pipe p).
Proof.
  intros s s' r H. inversion H; subst; clear H. split; [apply Q_refl |].
  exists []. simpl. rewrite app_nil_r. auto.
Qed.

Lemma frame_modify_args (f : args -> args) :
  (∀ a, Q a (f a)) -> preserves (frame_rel Q P) (modify_args f).
Proof.
  intros Hf s s' r H. inversion H; subst; clear H. split; [apply Hf |].
  exists []. simpl. rewrite app_nil_r. auto.
Qed.

End Frame.

Create HintDb frame.

#[local] Hint Resolve frame_put_fs frame_put_pipe : frame.
#[local] Hint Resolve eq_trans : frame.
#[local] Hint Extern 1 (silent _ _) => reflexivity : frame.

(** Break a goal [preserves (frame_rel Q P) m] along the structure of [m].
    What is left: that [P] holds of the events [m] emits, and that [Q] allows
    its assignments to the options. *)
Ltac frame_side := solve [ eauto with frame ].

Ltac frame_step :=
  first
    [ apply preserves_ret; apply frame_refl; frame_side
    | apply preserves_raise; apply frame_refl; frame_side
    | apply preserves_lift; apply frame_refl; frame_side
    | apply preserves_get_args; apply frame_refl; frame_side
    | apply preserves_get_fs; apply frame_refl; frame_side
    | apply preserves_get_pipe; apply frame_refl; frame_side
    | apply preserves_get_trace; apply frame_refl; frame_side
    | apply preserves_bind;
        [ apply frame_trans; frame_side | | intros ? ]
    | apply frame_emit; frame_side
    | apply frame_modify_args; frame_side
    | frame_side
    | match goal with
      | |- preserves _ (if ?b then _ else _) => destruct b
      | |- preserves _ (match ?x with _ => _ end) => destruct x
      end ].

Ltac frame_tac := repeat first [ progress unfold print | frame_step ].

Section FrameOps.

Variable Q : args -> args -> Prop.
Variable P : event -> Prop.
Hypothesis Q_refl : ∀ a, Q a a.
Hypothesis Q_trans : ∀ a b c, Q a b -> Q b c -> Q a c.
Variable E : env.

(** The assignments and the events that [P] and [Q] may have to allow. *)
Hypothesis Q_fps : ∀ a v, Q a (set_fps v a).
Hypothesis P_print : ∀ l, P (Print l).
Hypothesis P_extract : ∀ x y, P (SystemExtract x y).
Hypothesis P_decoder_start : ∀ x, P (DecoderStart x).
Hypothesis P_encoder_start : ∀ w h f p v, P (EncoderStart w h f p v).
Hypothesis P_read : ∀ b, P (DecodeRead b).
Hypothesis P_imread : ∀ p, P (ImRead p).
Hypothesis P_write : ∀ b, P (EncodeWrite b).
Hypothesis P_sync : P CudaSynchronize.
Hypothesis P_close : P DecoderClose ∧ P EncoderClose.
Hypothesis P_reader : ∀ l, P (ReaderStart l).
Hypothesis P_consumers : ∀ k, P (ConsumersStart k).
Hypothesis P_put : ∀ m, P (QuePut m).
Hypothesis P_pbar : P PbarUpdate ∧ ∀ i, P (PbarDescription i).
Hypothesis P_join : P ConsumersJoin.
Hypothesis P_merge : ∀ c, P (SystemMerge c).

Lemma frame_makedirs (p : string) : preserves (frame_rel Q P) (makedirs p).
Proof. unfold makedirs. frame_tac. Qed.

Lemma frame_rmtree (p : string) : preserves (frame_rel Q P) (rmtree p).
Proof. unfold rmtree. frame_tac. Qed.

Lemma frame_isdir (p : string) : preserves (frame_rel Q P) (isdir p).
Proof. unfold isdir. frame_tac. Qed.

Lemma frame_isfile (p : string) : preserves (frame_rel Q P) (isfile p).
Proof. unfold isfile. frame_tac. Qed.

Lemma frame_glob_star (p : string) : preserves (frame_rel Q P) (glob_star p).
Proof. unfold glob_star. frame_tac. Qed.

Lemma frame_video_streams_of (p : string) :
  preserves (frame_rel Q P) (video_streams_of E p).
Proof. unfold video_streams_of. frame_tac. Qed.

Lemma frame_first_stream (l : list probe_stream) :
  preserves (frame_rel Q P) (first_stream l).
Proof. unfold first_stream. frame_tac. Qed.

Lemma frame_mime (p q : string) :
  preserves (frame_rel Q P) (mime_startswith E p q).
Proof. unfold mime_startswith. frame_tac. Qed.

#[local] Hint Resolve frame_makedirs frame_rmtree frame_isdir frame_isfile
  frame_glob_star frame_video_streams_of frame_first_stream frame_mime : frame.

Lemma frame_cleanup (d v : string) : preserves (frame_rel Q P) (cleanup d v).
Proof. unfold cleanup. frame_tac. Qed.

Lemma frame_system_extract (v f : string) :
  preserves (frame_rel Q P) (system_extract E v f).
Proof. unfold system_extract. frame_tac. Qed.

#[local] Hint Resolve frame_cleanup frame_system_extract : frame.

Lemma frame_get_frames (x : bool) : preserves (frame_rel Q P) (get_frames E x).
Proof. unfold get_frames. frame_tac. Qed.

Lemma frame_stream_frame (img : image) : preserves (frame_rel Q P) (stream_frame E img).
Proof. unfold stream_frame. frame_tac. Qed.

#[local] Hint Resolve frame_get_frames frame_stream_frame : frame.

Lemma frame_image_loop (paths : list string) :
  preserves (frame_rel Q P) (image_loop E paths).
Proof. induction paths as [|p rest IH]; simpl; frame_tac. Qed.

Lemma frame_pipe_read (n : Z) : preserves (frame_rel Q P) (pipe_read n).
Proof. unfold pipe_read. frame_tac. Qed.

Lemma frame_stream_setup : preserves (frame_rel Q P) (stream_setup E).
Proof. unfold stream_setup. frame_tac. Qed.

Lemma frame_stream_close (v : bool) : preserves (frame_rel Q P) (stream_close v).
Proof. destruct P_close. unfold stream_close. frame_tac. Qed.

Lemma frame_frame_step (folder : string) (idx : nat) (path : string) (img : image) :
  preserves (frame_rel Q P) (frame_step E folder idx path img).
Proof. destruct P_pbar. unfold frame_step. frame_tac. Qed.

#[local] Hint Resolve frame_frame_step : frame.

Lemma frame_frames_loop (folder : string) (frames : list (string * image)) :
  ∀ idx e, preserves (frame_rel Q P) (frames_loop E folder idx frames e).
Proof.
  induction frames as [|[path img] rest IH]; intros idx e; simpl; frame_tac.
Qed.

Lemma frame_put_quits (n : nat) : preserves (frame_rel Q P) (put_quits n).
Proof. induction n as [|n IH]; simpl; frame_tac. Qed.

#[local] Hint Resolve frame_frames_loop frame_put_quits : frame.

Lemma frame_shutdown_consumers (k : Z) :
  preserves (frame_rel Q P) (shutdown_consumers k).
Proof. unfold shutdown_consumers. frame_tac. Qed.

Lemma frame_system_merge (c : merge_cmd) :
  preserves (frame_rel Q P) (system_merge E c).
Proof. unfold system_merge. frame_tac. Qed.

#[local] Hint Resolve frame_shutdown_consumers frame_system_merge : frame.

Lemma frame_enhance_phase : preserves (frame_rel Q P) (enhance_phase E).
Proof. unfold enhance_phase. frame_tac. Qed.

Lemma frame_merge_and_cleanup (d v : string) (e : option string) :
  preserves (frame_rel Q P) (merge_and_cleanup E d v e).
Proof. unfold merge_and_cleanup. frame_tac. Qed.

#[local] Hint Resolve frame_enhance_phase frame_merge_and_cleanup : frame.

Lemma frame_inference_frames : preserves (frame_rel Q P) (inference_frames E).
Proof. unfold inference_frames. frame_tac. Qed.

End FrameOps.

#[local] Hint Resolve frame_makedirs frame_rmtree frame_isdir frame_isfile
  frame_glob_star frame_video_streams_of frame_first_stream frame_mime
  frame_cleanup frame_system_extract frame_get_frames frame_stream_frame
  frame_image_loop frame_pipe_read frame_stream_setup frame_stream_close
  frame_frame_step frame_frames_loop frame_put_quits frame_shutdown_consumers
  frame_system_merge frame_enhance_phase frame_merge_and_cleanup
  frame_inference_frames : frame.

Lemma omap_silent {B : Type} (f : event -> option B) (t : list event) :
  Forall (silent f) t -> omap f t = [].
Proof.
  induction 1 as [|e t He _ IH]; [reflexivity |].
  simpl. unfold silent in He. rewrite He. exact IH.
Qed.

Lemma frame_omap {B : Type} (f : event -> option B) (Q : args -> args -> Prop)
    (s s' : state) :
  frame_rel Q (silent f) s s' -> omap f (st_trace s') = omap f (st_trace s).
Proof.
  intros [_ (t & Ht & HP)]. rewrite Ht, omap_app, (omap_silent f t HP).
  apply app_nil_r.
Qed.

Lemma frame_args (Q : args -> args -> Prop) (P : event -> Prop) (s s' : state) :
  frame_rel Q P s s' -> Q (st_args s) (st_args s').
Proof. intros [H _]. exact H. Qed.

Lemma same_but_fps_refl (a : args) : same_but_fps a a.
Proof. reflexivity. Qed.

Lemma same_but_fps_trans (a b c : args) :
  same_but_fps a b -> same_but_fps b c -> same_but_fps a c.
Proof. unfold same_but_fps. congruence. Qed.

Lemma same_but_fps_set (a : args) (v : option pynum) : same_but_fps a (set_fps v a).
Proof. reflexivity. Qed.

Lemma same_but_fps_outscale (a b : args) : same_but_fps a b -> outscale a = outscale b.
Proof. intros H. apply (f_equal outscale) in H. exact H. Qed.

#[local] Hint Resolve same_but_fps_refl same_but_fps_trans same_but_fps_set : frame.

(** Use a frame condition on a hypothesis [H : m s = (s', r)]. *)
Tactic Notation "frame_in" hyp(H) "with" constr(Q) constr(f) :=
  apply (preserves_apply (frame_rel Q (silent f))) in H; [ | frame_tac ].

Lemma stream_setup_sizes (E : env) (s s' : state) (v : bool)
    (paths : list string) (w h : Z) :
  stream_setup E s = (s', Ok (v, paths, w, h)) ->
  ∃ ow oh,
    out_size w (outscale (st_args s)) = Ok ow ∧
    out_size h (outscale (st_args s)) = Ok oh ∧
    encoder_sizes (st_trace s') = encoder_sizes (st_trace s) ++ [(ow, oh)].
Proof.
  unfold stream_setup. intros H.
  run_inv H as s1 vp Hgf. destruct vp as [is_video ps].
  run_inv H as s2 a Ha. run_prim Ha.
  run_inv H as s3 wh Hwh. destruct wh as [w0 h0].
  run_inv H as s4 ow How. run_prim How.
  run_inv H as s5 oh Hoh. run_prim Hoh.
  run_inv H as s6 u Hwarn.
  run_inv H as s7 u' Hemit. run_prim Hemit. run_prim H.
  frame_in Hgf with same_but_fps event_encoder_size.
  frame_in Hwh with (@eq args) event_encoder_size.
  frame_in Hwarn with (@eq args) event_encoder_size.
  exists ow, oh.
  rewrite (same_but_fps_outscale _ _ (frame_args _ _ _ _ Hgf)).
  split; [assumption | split; [assumption |]].
  unfold encoder_sizes. simpl. rewrite omap_app. simpl.
  f_equal. rewrite (frame_omap _ _ _ _ Hwarn), (frame_omap _ _ _ _ Hwh).
  apply (frame_omap _ _ _ _ Hgf).
Qed.

(** C4, as stated, fails: a 641 x 361 video scaled by 1.75 is encoded at
    1121 x 631, and 1121 is not 1121.75 rounded. *)
Lemma output_size_not_rounded :
  ¬ output_size_rounded (Demo.world 641 361 0 [] 0)
      (Demo.options "clip.mp4" Demo.scale_1_75 None) ∅.
Proof.
  intros H.
  destruct (H _ _ _ _ _ 1121 631 eq_refl) as [Hw _].
  - vm_compute. left. reflexivity.
  - revert Hw. vm_compute. intros Hw. apply Hw. reflexivity.
Qed.

(** C4, amended: in stream mode the encoder is started with the products of
    the frame dimensions and the scale as Python computes them, cut to their
    integer parts (towards zero), not rounded. *)
Theorem output_size_truncated (E : env) (a : args) (fs : gmap string node)
    (s' : state) (v : bool) (paths : list string) (w h : Z) :
  stream_setup E (init_state a fs) = (s', Ok (v, paths, w, h)) ->
  ∃ pw ph,
    py_mul_int w (outscale a) = Ok pw ∧
    py_mul_int h (outscale a) = Ok ph ∧
    encoder_sizes (st_trace s') = [(trunc (num_to_Q pw), trunc (num_to_Q ph))].
Proof.
  intros H. apply stream_setup_sizes in H as (ow & oh & Hw & Hh & Ht).
  simpl in Hw, Hh, Ht.
  apply out_size_trunc in Hw as (pw & Hpw & ->).
  apply out_size_trunc in Hh as (ph & Hph & ->).
  exists pw, ph. auto.
Qed.

Lemma output_size_truncated_witness :
  ∃ pw ph,
    py_mul_int 641 Demo.scale_1_75 = Ok pw ∧
    py_mul_int 361 Demo.scale_1_75 = Ok ph ∧
    encoder_sizes (st_trace (stream_setup (Demo.world 641 361 0 [] 0)
      (init_state (Demo.options "clip.mp4" Demo.scale_1_75 None) ∅)).1)
    = [(trunc (num_to_Q pw), trunc (num_to_Q ph))].
Proof.
  apply (output_size_truncated (Demo.world 641 361 0 [] 0)
           (Demo.options "clip.mp4" Demo.scale_1_75 None) ∅ _ true [] 641 361).
  vm_compute. reflexivity.
Defined.

(** ** Frame discovery *)

Lemma modify_args_run (f : args -> args) (s : state) :
  modify_args f s = (mkState (f (st_args s)) (st_fs s) (st_pipe s) (st_trace s), Ok tt).
Proof. reflexivity. Qed.

Lemma get_frames_fps (E : env) (x : bool) (s s' : state) (v : bool)
    (paths : list string) :
  get_frames E x s = (s', Ok (v, paths)) ->
  fps (st_args s') =
    resolved_fps (fps (st_args s)) v (probed_fps E (input (st_args s))).
Proof.
  unfold get_frames. intros H.
  run_inv H as s1 a Ha. run_prim Ha.
  run_inv H as s2 isv Hmime. frame_in Hmime with (@eq args) event_print.
  apply frame_args in Hmime.
  run_inv H as s3 vp Hbody. destruct vp as [is_video ps].
  run_inv H as s4 a' Ha'. run_prim Ha'.
  run_inv H as s5 u Hfin. run_prim H.
  destruct isv.
  - (* a video *)
    run_inv Hbody as s6 ps' Hpaths.
    run_inv Hbody as s7 u' Hprobe. run_prim Hbody.
    assert (Hs6 : st_args s6 = st_args s1).
    { destruct x.
      - frame_in Hpaths with (@eq args) event_print.
        apply frame_args in Hpaths. congruence.
      - run_prim Hpaths. congruence. }
    destruct (fps (st_args s1)) as [f|] eqn:Hf.
    + run_prim Hprobe. rewrite Hs6, Hf in Hfin. run_prim Hfin.
      simpl. congruence.
    + run_inv Hprobe as s8 streams Hstreams.
      run_inv Hprobe as s9 st Hfirst.
      run_inv Hprobe as s10 r Hdiv. run_prim Hdiv.
      rewrite modify_args_run in Hprobe. inversion Hprobe; subst; clear Hprobe.
      simpl in Hfin. run_prim Hfin. simpl.
      unfold video_streams_of in Hstreams.
      run_inv Hstreams as s11 probe Hp. run_prim Hp. run_prim Hstreams.
      unfold probed_fps.
      match goal with Hp : ffmpeg_probe _ _ = _ |- _ => rewrite Hp end. simpl.
      destruct (List.filter _ probe) as [|st' rest]; simpl in Hfirst.
      * inversion Hfirst.
      * run_prim Hfirst.
        match goal with Hd : py_truediv _ _ = _ |- _ => rewrite Hd end.
        reflexivity.
  - (* an image or a folder *)
    assert (Hs3 : st_args s4 = st_args s1 ∧ v = false).
    { run_inv Hbody as s6 isi Himg. frame_in Himg with (@eq args) event_print.
      apply frame_args in Himg. destruct isi.
      - run_prim Hbody. split; congruence.
      - run_inv Hbody as s7 l Hglob. frame_in Hglob with (@eq args) event_print.
        apply frame_args in Hglob.
        destruct (0 <? Z.of_nat (length (sorted l))); inversion Hbody; subst.
        split; congruence. }
    destruct Hs3 as [Hs3 ->]. rewrite Hs3 in Hfin.
    destruct (fps (st_args s1)) as [f|] eqn:Hf.
    + run_prim Hfin. simpl. congruence.
    + rewrite modify_args_run in Hfin. inversion Hfin; subst. reflexivity.
Qed.

(** ** The setup of the streaming pipeline *)

Lemma video_streams_of_inv (E : env) (p : string) (s s' : state) (l : list probe_stream) :
  video_streams_of E p s = (s', Ok l) ->
  s' = s ∧ ∃ probe, ffmpeg_probe E p = Ok probe ∧
    l = List.filter (fun st => String.eqb (codec_type st) "video") probe.
Proof.
  unfold video_streams_of. intros H.
  run_inv H as s1 probe Hp. run_prim Hp. run_prim H. eauto.
Qed.

Lemma first_stream_inv (l : list probe_stream) (s s' : state) (st : probe_stream) :
  first_stream l s = (s', Ok st) -> s' = s ∧ ∃ rest, l = st :: rest.
Proof.
  destruct l as [|st' rest]; simpl; intros H; inversion H; subst. eauto.
Qed.

Lemma stream_setup_inv (E : env) (s s' : state) (v : bool)
    (paths : list string) (w h : Z) :
  stream_setup E s = (s', Ok (v, paths, w, h)) ->
  ∃ s1 ow oh,
    get_frames E false s = (s1, Ok (v, paths)) ∧
    out_size w (outscale (st_args s1)) = Ok ow ∧
    out_size h (outscale (st_args s1)) = Ok oh ∧
    st_args s' = st_args s1 ∧
    st_fs s' = st_fs s1 ∧
    st_pipe s' = (if v then decoder_stdout E (input (st_args s1)) else st_pipe s1) ∧
    st_trace s' = st_trace s1 ++ setup_events v (input (st_args s1)) oh
                  ++ [EncoderStart ow oh (fps (st_args s1))
                        (Py.join (output (st_args s1))
                           ((Py.splitext (Py.basename (input (st_args s1)))).1
                            +:+ "_" +:+ suffix (st_args s1) +:+ ".mp4")) v].
Proof.
  unfold stream_setup. intros H.
  run_inv H as s1 vp Hgf. destruct vp as [is_video ps].
  run_inv H as s2 a Ha. run_prim Ha.
  run_inv H as s3 wh Hwh. destruct wh as [w0 h0].
  run_inv H as s4 ow How. run_prim How.
  run_inv H as s5 oh Hoh. run_prim Hoh.
  run_inv H as s6 u Hwarn.
  run_inv H as s7 u' Hemit. run_prim Hemit. run_prim H.
  eexists _, ow, oh. split; [exact Hgf |].
  split; [assumption | split; [assumption |]].
  unfold setup_events.
  assert (Hs6 : st_args s6 = st_args s5 ∧ st_fs s6 = st_fs s5 ∧ st_pipe s6 = st_pipe s5 ∧
                st_trace s6 = st_trace s5 ++
                  (if 2160 <? oh then [Print large_output_warning] else [])).
  { destruct (2160 <? oh); inversion Hwarn; subst; simpl;
      rewrite ?app_nil_r; auto. }
  destruct Hs6 as (Ha6 & Hf6 & Hp6 & Ht6). simpl.
  rewrite Ha6, Hf6, Hp6, Ht6. clear Hwarn Ha6 Hf6 Hp6 Ht6.
  destruct v.
  - run_inv Hwh as s8 streams Hst. apply video_streams_of_inv in Hst as [-> _].
    run_inv Hwh as s9 st Hfs. apply first_stream_inv in Hfs as [-> _].
    run_inv Hwh as s10 u1 He. run_prim He.
    run_inv Hwh as s11 u2 Hpp. inversion Hpp; subst; clear Hpp.
    run_prim Hwh. simpl. rewrite <- !app_assoc. auto.
  - assert (s5 = s2) as ->.
    { destruct paths; inversion Hwh; reflexivity. }
    simpl. rewrite <- !app_assoc. auto.
Qed.

(** ** The enhancement loop of the frame-file pipeline *)

Lemma add_events_nil (s : state) : add_events s [] = s.
Proof. destruct s. unfold add_events. simpl. rewrite app_nil_r. reflexivity. Qed.

Lemma add_events_app (s : state) (t1 t2 : list event) :
  add_events (add_events s t1) t2 = add_events s (t1 ++ t2).
Proof. unfold add_events. simpl. rewrite app_assoc. reflexivity. Qed.

Lemma frame_step_run (E : env) (folder : string) (idx : nat) (path : string)
    (img : image) (s : state) :
  frame_step E folder idx path img s =
    (add_events s (frame_events E (st_args s) folder idx (path, img)),
     Ok (extension_after E (st_args s) (path, img))).
Proof.
  unfold frame_step, frame_events, frame_prints, frame_save_path, extension_after,
    failure_lines, add_events.
  simpl. destruct (Py.splitext (Py.basename path)) as [imgname extension].
  cbv beta iota delta [mbind M_bind mret M_ret get_args].
  destruct (run_engine E (st_args s) img) as [out|m];
    cbv beta iota delta [mbind M_bind mret M_ret emit print];
    simpl; rewrite <- ?app_assoc; reflexivity.
Qed.

Lemma frames_loop_run (E : env) (folder : string) (frames : list (string * image)) :
  ∀ idx e s,
    frames_loop E folder idx frames e s =
      (add_events s (loop_events E (st_args s) folder idx frames),
       Ok (loop_extension E (st_args s) frames e)).
Proof.
  induction frames as [|[path img] rest IH]; intros idx e s.
  - simpl. rewrite add_events_nil. reflexivity.
  - simpl. rewrite bind_run, frame_step_run, IH. simpl.
    rewrite add_events_app. f_equal. f_equal.
    unfold loop_extension. destruct rest as [|g rest']; [reflexivity |].
    rewrite last_cons_cons. destruct (last (g :: rest')) eqn:Hl; [reflexivity |].
    apply last_None in Hl. discriminate.
Qed.

Lemma que_puts_frame_events (E : env) (a : args) (folder : string) (idx : nat)
    (f : string * image) :
  que_puts (frame_events E a folder idx f) =
    match frame_save_path E a folder f with Some m => [m] | None => [] end.
Proof.
  unfold frame_events, frame_prints, frame_save_path, que_puts, failure_lines.
  destruct (run_engine E a f.2); simpl;
    [ destruct (Py.splitext (Py.basename f.1)) | ]; reflexivity.
Qed.

Lemma que_puts_loop_events (E : env) (a : args) (folder : string)
    (frames : list (string * image)) :
  ∀ idx, que_puts (loop_events E a folder idx frames) =
         omap (frame_save_path E a folder) frames.
Proof.
  induction frames as [|f rest IH]; intros idx; [reflexivity |].
  simpl. unfold que_puts in *. rewrite omap_app.
  change (omap event_put (frame_events E a folder idx f))
    with (que_puts (frame_events E a folder idx f)).
  rewrite que_puts_frame_events, IH.
  destruct (frame_save_path E a folder f); reflexivity.
Qed.

Lemma printed_frame_events (E : env) (a : args) (folder : string) (idx : nat)
    (f : string * image) :
  printed (frame_events E a folder idx f) = frame_prints E a f.
Proof.
  unfold frame_events, frame_prints, frame_save_path, printed, failure_lines.
  destruct (run_engine E a f.2); simpl;
    [ destruct (Py.splitext (Py.basename f.1)) | ]; reflexivity.
Qed.

Lemma printed_loop_events (E : env) (a : args) (folder : string)
    (frames : list (string * image)) :
  ∀ idx, printed (loop_events E a folder idx frames) =
         flat_map (frame_prints E a) frames.
Proof.
  induction frames as [|f rest IH]; intros idx; [reflexivity |].
  simpl. unfold printed in *. rewrite omap_app.
  change (omap event_print (frame_events E a folder idx f))
    with (printed (frame_events E a folder idx f)).
  rewrite printed_frame_events, IH. reflexivity.
Qed.

(** ** The phases of the frame-file pipeline *)

Lemma makedirs_inv (p : string) (s s' : state) (u : unit) :
  makedirs p s = (s', Ok u) -> s' = set_fs s (makedirs_fs p (st_fs s)).
Proof.
  unfold makedirs. rewrite bind_run. simpl.
  destruct (existsb _ _); intros H; inversion H. reflexivity.
Qed.

Lemma put_quits_run (n : nat) (s : state) :
  put_quits n s = (add_events s (replicate n (QuePut Quit)), Ok tt).
Proof.
  revert s. induction n as [|n IH]; intros s; simpl.
  - rewrite add_events_nil. reflexivity.
  - rewrite bind_run, emit_run, IH. unfold add_events. simpl.
    rewrite <- app_assoc. reflexivity.
Qed.

Lemma shutdown_consumers_run (k : Z) (s : state) :
  shutdown_consumers k s =
    (let t := st_trace s ++ replicate (Z.to_nat k) (QuePut Quit) ++ [ConsumersJoin] in
     mkState (st_args s) (pool_writes (Z.to_nat k) (que_puts t) (st_fs s))
             (st_pipe s) t,
     Ok tt).
Proof.
  unfold shutdown_consumers. rewrite bind_run, put_quits_run.
  cbv beta iota delta [mbind M_bind mret M_ret emit get_trace get_fs put_fs add_events].
  simpl. rewrite <- !app_assoc. reflexivity.
Qed.

Lemma enhance_phase_inv (E : env) (s s' : state) (sff vn : string) (le : option string) :
  enhance_phase E s = (s', Ok (sff, vn, le)) ->
  ∃ s1 v paths,
    get_frames E true s = (s1, Ok (v, paths)) ∧
    vn = video_name_of (st_args s1) ∧
    sff = save_frame_folder_of (st_args s1) ∧
    le = loop_extension E (st_args s1) (zip paths (reader E paths)) None ∧
    st_args s' = st_args s1 ∧
    st_trace s' = st_trace s1 ++ phase_events E (st_args s1) paths ∧
    st_fs s' = pool_writes (Z.to_nat (consumer (st_args s1)))
                 (que_puts (st_trace s'))
                 (makedirs_fs sff (st_fs s1)).
Proof.
  unfold enhance_phase. intros H.
  run_inv H as s1 vp Hgf. destruct vp as [v paths].
  run_inv H as s2 a Ha. run_prim Ha.
  run_inv H as s3 u1 Hmk. apply makedirs_inv in Hmk. subst s3.
  run_inv H as s4 u2 He1. run_prim He1.
  run_inv H as s5 u3 He2. run_prim He2.
  run_inv H as s6 le' Hloop. rewrite frames_loop_run in Hloop.
  inversion Hloop; subst; clear Hloop.
  run_inv H as s7 u4 Hsd. rewrite shutdown_consumers_run in Hsd.
  inversion Hsd; subst; clear Hsd.
  run_prim H.
  exists s2, v, paths. simpl.
  unfold phase_events, save_frame_folder_of, video_name_of.
  rewrite <- !app_assoc. simpl. auto 10.
Qed.

(** ** Paths *)

Lemma append_cons (a : ascii) (s t : string) : String a s +:+ t = String a (s +:+ t).
Proof. reflexivity. Qed.

Lemma append_nil_l (t : string) : "" +:+ t = t.
Proof. reflexivity. Qed.

(** Compute with [+:+] on the constructors of its first argument. *)
Ltac ssimpl := repeat (progress (rewrite ?append_cons, ?append_nil_l; simpl)).

Lemma append_nil_r (s : string) : s +:+ "" = s.
Proof. induction s as [|a s IH]; ssimpl; [reflexivity | rewrite IH; reflexivity]. Qed.

Lemma append_assoc (s t u : string) : (s +:+ t) +:+ u = s +:+ (t +:+ u).
Proof. induction s as [|a s IH]; ssimpl; [reflexivity | rewrite IH; reflexivity]. Qed.

Lemma length_append (s t : string) :
  String.length (s +:+ t) = (String.length s + String.length t)%nat.
Proof. induction s as [|a s IH]; ssimpl; [reflexivity | rewrite IH; reflexivity]. Qed.

Lemma substring_all (s : string) : substring 0 (String.length s) s = s.
Proof. induction s as [|a s IH]; ssimpl; [reflexivity | rewrite IH; reflexivity]. Qed.

Lemma substring_skip (pre t : string) (n : nat) :
  substring (String.length pre) n (pre +:+ t) = substring 0 n t.
Proof. induction pre as [|a pre IH]; ssimpl; [reflexivity | exact IH]. Qed.

Lemma substring_take (pre t : string) :
  substring 0 (String.length pre) (pre +:+ t) = pre.
Proof.
  induction pre as [|a pre IH]; ssimpl.
  - destruct t; reflexivity.
  - rewrite IH. reflexivity.
Qed.

Lemma has_char_append (c : ascii) (s t : string) :
  has_char c (s +:+ t) = has_char c s || has_char c t.
Proof.
  induction s as [|a s IH]; ssimpl; [reflexivity |].
  rewrite IH. apply orb_assoc.
Qed.

(** [rfind] gives the place of the last occurrence. *)
Lemma rfind_from_spec (c : ascii) (s : string) :
  ∀ i, 0 <= i ->
    (Py.rfind_from c i s = -1 ∧ has_char c s = false) ∨
    (∃ pre post, s = pre +:+ String c post ∧ has_char c post = false ∧
                 Py.rfind_from c i s = i + Z.of_nat (String.length pre)).
Proof.
  induction s as [|a r IH]; intros i Hi; ssimpl.
  - left. auto.
  - destruct (IH (i + 1) ltac:(lia)) as [[Hk Hno] | (pre & post & Hr & Hno & Hk)].
    + rewrite Hk. ssimpl. destruct (Ascii.eqb_spec a c) as [-> | Hne].
      * right. exists "", r. ssimpl. split; [reflexivity |].
        split; [exact Hno | lia].
      * left. rewrite Hno. auto.
    + right. exists (String a pre), post. subst r. ssimpl.
      split; [reflexivity |]. split; [exact Hno |].
      rewrite Hk. destruct (0 <=? i + 1 + Z.of_nat (String.length pre)) eqn:Hle; lia.
Qed.

Lemma rfind_spec (c : ascii) (s : string) :
  (Py.rfind c s = -1 ∧ has_char c s = false) ∨
  (∃ pre post, s = pre +:+ String c post ∧ has_char c post = false ∧
               Py.rfind c s = Z.of_nat (String.length pre)).
Proof. apply (rfind_from_spec c s 0). lia. Qed.

Lemma slice_from_append (pre t : string) :
  Py.slice_from (Z.of_nat (String.length pre)) (pre +:+ t) = t.
Proof.
  unfold Py.slice_from. rewrite Nat2Z.id, length_append, substring_skip.
  replace (String.length pre + String.length t - String.length pre)%nat
    with (String.length t) by lia.
  apply substring_all.
Qed.

Lemma slice_to_append (pre t : string) :
  Py.slice_to (Z.of_nat (String.length pre)) (pre +:+ t) = pre.
Proof. unfold Py.slice_to. rewrite Nat2Z.id. apply substring_take. Qed.

(** The base name of a path is what follows its last separator. *)
Lemma basename_spec (p : string) :
  (has_char "/" p = false ∧ Py.basename p = p) ∨
  (∃ pre post, p = pre +:+ String "/" post ∧ has_char "/" post = false ∧
               Py.basename p = post).
Proof.
  unfold Py.basename.
  destruct (rfind_spec "/" p) as [[Hk Hno] | (pre & post & Hp & Hno & Hk)].
  - left. split; [exact Hno |]. rewrite Hk.
    apply (slice_from_append "" p).
  - right. exists pre, post. split; [exact Hp |]. split; [exact Hno |].
    rewrite Hk, Hp.
    replace (Z.of_nat (String.length pre) + 1)
      with (Z.of_nat (String.length (pre +:+ "/"))).
    + replace (pre +:+ String "/" post) with ((pre +:+ "/") +:+ post).
      * apply slice_from_append.
      * rewrite append_assoc. reflexivity.
    + rewrite length_append. ssimpl. lia.
Qed.

Lemma basename_no_sep (p : string) : has_char "/" (Py.basename p) = false.
Proof.
  destruct (basename_spec p) as [[Hno ->] | (pre & post & _ & Hno & ->)]; exact Hno.
Qed.

(** [splitext] cuts a name at its last dot, or not at all. *)
Lemma splitext_spec (q : string) :
  Py.splitext q = (q, "") ∨
  (∃ pre post, q = pre +:+ String "." post ∧ has_char "." post = false ∧
               Py.splitext q = (pre, String "." post)).
Proof.
  unfold Py.splitext.
  destruct (Py.rfind "/" q <? Py.rfind "." q) eqn:Hlt; [| left; reflexivity].
  destruct (Py.all_dots _); [left; reflexivity |].
  destruct (rfind_spec "." q) as [[Hk Hno] | (pre & post & Hq & Hno & Hk)].
  - exfalso. rewrite Hk in Hlt. apply Z.ltb_lt in Hlt.
    destruct (rfind_spec "/" q) as [[Hs _] | (pre & post & _ & _ & Hs)]; lia.
  - right. exists pre, post. split; [exact Hq |]. split; [exact Hno |].
    rewrite Hk. rewrite Hq at 1 2.
    rewrite slice_to_append, slice_from_append. reflexivity.
Qed.

Lemma splitext_append (q : string) : (Py.splitext q).1 +:+ (Py.splitext q).2 = q.
Proof.
  destruct (splitext_spec q) as [-> | (pre & post & Hq & _ & ->)]; ssimpl.
  - apply append_nil_r.
  - symmetry. exact Hq.
Qed.

(** The extension is empty, or a dot and a text without dots. *)
Lemma splitext_extension (q : string) :
  (Py.splitext q).2 = "" ∨
  ∃ x, (Py.splitext q).2 = String "." x ∧ has_char "." x = false.
Proof.
  destruct (splitext_spec q) as [-> | (pre & post & _ & Hno & ->)]; ssimpl; eauto.
Qed.

Lemma file_extension_no_dot (p : string) : has_char "." (file_extension p) = false.
Proof.
  unfold file_extension.
  destruct (splitext_extension (Py.basename p)) as [-> | (x & -> & Hx)];
    [reflexivity | exact Hx].
Qed.

Lemma imgname_no_sep (p : string) :
  has_char "/" (Py.splitext (Py.basename p)).1 = false.
Proof.
  pose proof (basename_no_sep p) as H.
  rewrite <- (splitext_append (Py.basename p)), has_char_append in H.
  apply orb_false_elim in H as [H _]. exact H.
Qed.

(** [join] puts the second path at the end. *)
Lemma join_suffix (a b : string) : ∃ x, Py.join a b = x +:+ b.
Proof.
  unfold Py.join. destruct (String.prefix "/" b).
  - exists "". reflexivity.
  - destruct (_ || _).
    + exists a. reflexivity.
    + exists (a +:+ "/"). rewrite append_assoc. reflexivity.
Qed.

(** Below its first path when the second is relative. *)
Lemma join_relative (a b : string) :
  String.prefix "/" b = false ->
  Py.join a b = a +:+ b ∨ Py.join a b = a +:+ "/" +:+ b.
Proof.
  intros H. unfold Py.join. rewrite H. destruct (_ || _); auto.
Qed.

Lemma last_char_append (s t : string) :
  t ≠ "" -> last_char (s +:+ t) = last_char t.
Proof.
  intros Ht. induction s as [|a s IH]; ssimpl; [reflexivity |].
  rewrite <- IH. destruct (s +:+ t) eqn:Hst; [| reflexivity].
  destruct s; rewrite ?append_nil_l, ?append_cons in Hst; [congruence | discriminate].
Qed.

Lemma append_neq_self (a b : string) : b ≠ "" -> a +:+ b ≠ a.
Proof.
  intros Hb Heq. apply (f_equal String.length) in Heq.
  rewrite length_append in Heq. destruct b; [congruence | simpl in Heq; lia].
Qed.

Lemma last_occurrence_unique (c : ascii) (x y e f : string) :
  x +:+ String c e = y +:+ String c f ->
  has_char c e = false -> has_char c f = false ->
  x = y ∧ e = f.
Proof.
  revert y. induction x as [|a x IH]; intros y H He Hf.
  - destruct y as [|b y]; rewrite ?append_nil_l, ?append_cons in H.
    + inversion H. auto.
    + inversion H; subst. rewrite has_char_append in He.
      cbn [has_char] in He. rewrite Ascii.eqb_refl, orb_true_r in He. discriminate.
  - destruct y as [|b y]; rewrite ?append_nil_l, ?append_cons in H.
    + inversion H; subst. rewrite has_char_append in Hf.
      cbn [has_char] in Hf. rewrite Ascii.eqb_refl, orb_true_r in Hf. discriminate.
    + inversion H; subst. destruct (IH y H2 He Hf) as [-> ->]. auto.
Qed.

(** ** Scratch folders *)

Lemma makedirs_fs_lookup (p : string) (fs : gmap string node) :
  makedirs_fs p fs !! p = Some Dir.
Proof.
  unfold makedirs_fs, makedirs_chain.
  induction (dir_prefixes_from "" p) as [|q l IH]; simpl.
  - apply lookup_insert_eq.
  - destruct (decide (q = p)) as [-> | Hne].
    + apply lookup_insert_eq.
    + rewrite lookup_insert_ne by exact Hne. exact IH.
Qed.

Lemma pool_writes_lookup (k : nat) (q : list msg) (fs : gmap string node) (d : string) :
  d ∉ omap item_path q -> pool_writes k q fs !! d = fs !! d.
Proof.
  unfold pool_writes. destruct k as [|k]; [reflexivity |].
  revert fs. induction q as [|m q IH]; intros fs Hd; [reflexivity |].
  simpl. destruct m as [out p|]; simpl in Hd.
  - rewrite IH by (intros H; apply Hd; right; exact H).
    apply lookup_insert_ne. intros ->. apply Hd. left.
  - apply IH, Hd.
Qed.

Lemma rmtree_run (d : string) (s : state) :
  st_fs s !! d = Some Dir ->
  rmtree d s =
    (set_fs s (filter (fun kv => kv.1 ≠ d ∧ is_under d kv.1 = false) (st_fs s)), Ok tt).
Proof.
  intros H. unfold rmtree. rewrite bind_run. simpl. rewrite H. reflexivity.
Qed.

Lemma rmtree_gone (d : string) (fs : gmap string node) :
  tree_gone d (filter (fun kv => kv.1 ≠ d ∧ is_under d kv.1 = false) fs).
Proof.
  split.
  - apply map_lookup_filter_None. right. intros x _ [H _]. apply H. reflexivity.
  - intros k Hk. apply map_lookup_filter_None. right. intros x _ [_ H].
    simpl in H. congruence.
Qed.

Lemma tree_gone_filter (d : string) (P : string * node -> Prop)
    `{!∀ x, Decision (P x)} (fs : gmap string node) :
  tree_gone d fs -> tree_gone d (filter P fs).
Proof.
  intros [H1 H2]. split.
  - apply map_lookup_filter_None. left. exact H1.
  - intros k Hk. apply map_lookup_filter_None. left. apply H2, Hk.
Qed.

Lemma isdir_run (d : string) (s : state) :
  isdir d s = (s, Ok (bool_decide (st_fs s !! d = Some Dir))).
Proof. reflexivity. Qed.

Lemma prefix_append_trans (a b c k : string) :
  String.prefix a b = true -> String.prefix (b +:+ c) k = true ->
  String.prefix a k = true.
Proof.
  revert b k. induction a as [|x a IH]; intros b k Hab Hbk.
  - destruct k; reflexivity.
  - destruct b as [|y b]; [discriminate |].
    destruct k as [|z k]; [discriminate |].
    rewrite append_cons in Hbk. simpl in Hab, Hbk |- *.
    destruct (ascii_dec x y) as [-> | _]; [| discriminate].
    destruct (ascii_dec y z) as [-> | _]; [| discriminate].
    eapply IH; eassumption.
Qed.

Lemma is_under_trans (d e k : string) :
  e = d ∨ is_under d e = true -> is_under e k = true -> is_under d k = true.
Proof.
  unfold is_under. intros [-> | Hde] Hek; [exact Hek |].
  eapply prefix_append_trans; eassumption.
Qed.

(** What [cleanup] does when the folder of the saved frames is there: it
    returns, and both scratch folders are gone. *)
Lemma cleanup_run (sff vn : string) (s : state) :
  st_fs s !! sff = Some Dir ->
  ∃ fs',
    cleanup sff vn s = (set_fs s fs', Ok tt) ∧
    tree_gone sff fs' ∧
    fs' !! Py.join "tmp_frames" vn ≠ Some Dir ∧
    (st_fs s !! Py.join "tmp_frames" vn = Some Dir ->
     tree_gone (Py.join "tmp_frames" vn) fs').
Proof.
  intros Hd. unfold cleanup. rewrite bind_run, (rmtree_run _ _ Hd).
  set (fs1 := filter _ (st_fs s)).
  pose proof (rmtree_gone sff (st_fs s)) as Hgone. fold fs1 in Hgone.
  rewrite bind_run, isdir_run.
  change (st_fs (set_fs s fs1)) with fs1.
  destruct (bool_decide (fs1 !! Py.join "tmp_frames" vn = Some Dir)) eqn:Hb.
  - apply bool_decide_eq_true in Hb.
    rewrite (rmtree_run _ (set_fs s fs1) Hb). simpl.
    eexists. split; [reflexivity |].
    split; [apply tree_gone_filter, Hgone |].
    pose proof (rmtree_gone (Py.join "tmp_frames" vn) fs1) as [Hg1 Hg2].
    split; [rewrite Hg1; discriminate |].
    intros _. split; assumption.
  - apply bool_decide_eq_false in Hb. rewrite ret_run.
    exists fs1. split; [reflexivity |]. split; [exact Hgone |].
    split; [exact Hb |].
    intros Hdir.
    assert (Hrem : Py.join "tmp_frames" vn = sff ∨
                   is_under sff (Py.join "tmp_frames" vn) = true).
    { destruct (decide (Py.join "tmp_frames" vn = sff)) as [? | Hne]; [left; assumption |].
      destruct (is_under sff (Py.join "tmp_frames" vn)) eqn:Hu; [right; reflexivity |].
      exfalso. apply Hb. unfold fs1.
      apply map_lookup_filter_Some. split; [exact Hdir |]. simpl. auto. }
    destruct Hgone as [Hg1 Hg2]. split.
    + destruct Hrem as [-> | Hu]; [exact Hg1 | apply Hg2, Hu].
    + intros k Hk. apply Hg2. eapply is_under_trans; eassumption.
Qed.

(** ** The merge step *)

Lemma merge_and_cleanup_none (E : env) (sff vn : string) (s : state) :
  merge_and_cleanup E sff vn None s =
    (s, Err (NameError "local variable 'extension' referenced before assignment")).
Proof. reflexivity. Qed.

Lemma merge_and_cleanup_some (E : env) (e : string) (s : state) :
  merge_and_cleanup E (save_frame_folder_of (st_args s)) (video_name_of (st_args s))
                    (Some e) s =
    cleanup (save_frame_folder_of (st_args s)) (video_name_of (st_args s))
            (after_merge E e s).
Proof.
  unfold merge_and_cleanup, system_merge, after_merge, merge_cmd_of.
  cbv beta iota delta [mbind M_bind mret M_ret get_args get_fs put_fs emit].
  simpl.
  destruct (ffmpeg_merge E _ (st_fs s) =? 0); reflexivity.
Qed.

Lemma inference_frames_inv (E : env) (s s' : state) (r : result unit) :
  inference_frames E s = (s', r) ->
  (∃ e, enhance_phase E s = (s', Err e) ∧ r = Err e) ∨
  (∃ s1 sff vn le,
     enhance_phase E s = (s1, Ok (sff, vn, le)) ∧
     merge_and_cleanup E sff vn le s1 = (s', r)).
Proof.
  unfold inference_frames. intros H.
  apply bind_inv in H as [(s1 & [[sff vn] le] & H1 & H2) | (e & H1 & ->)].
  - right. eauto 10.
  - left. eauto.
Qed.

(** The names of a run do not depend on the frame rate. *)
Lemma same_but_fps_names (a b : args) :
  same_but_fps a b ->
  video_name_of a = video_name_of b ∧
  save_frame_folder_of a = save_frame_folder_of b ∧
  frame_folder_of a = frame_folder_of b ∧
  video_save_path_of a = video_save_path_of b.
Proof.
  intros H. unfold save_frame_folder_of, frame_folder_of, video_save_path_of, video_name_of.
  pose proof (f_equal input H) as Hi. pose proof (f_equal output H) as Ho.
  pose proof (f_equal suffix H) as Hs. simpl in Hi, Ho, Hs.
  rewrite Hi, Ho, Hs. auto.
Qed.

Lemma same_but_fps_engine (E : env) (a b : args) (img : image) :
  same_but_fps a b -> run_engine E a img = run_engine E b img.
Proof.
  intros H. unfold run_engine.
  pose proof (f_equal face_enhance H) as Hf. pose proof (f_equal outscale H) as Ho.
  simpl in Hf, Ho. rewrite Hf, Ho. reflexivity.
Qed.

(** ** The paths of a run are apart *)

Lemma prefix_cons (c a : ascii) (s t : string) :
  String.prefix (String c s) (String a t) =
    if ascii_dec c a then String.prefix s t else false.
Proof. reflexivity. Qed.

Lemma save_name_relative (x e : string) :
  has_char "/" x = false -> String.prefix "/" (x +:+ "_out." +:+ e) = false.
Proof.
  destruct x as [|a x]; [reflexivity |].
  rewrite append_cons, prefix_cons. cbn [has_char].
  destruct (Ascii.eqb_spec a "/") as [-> | Hne]; [discriminate |].
  intros _. destruct (ascii_dec "/" a) as [<- | _]; [congruence | reflexivity].
Qed.

Lemma save_path_not_folder (E : env) (a : args) (folder : string)
    (f : string * image) (out : image) (p : string) :
  frame_save_path E a folder f = Some (Item out p) -> p ≠ folder.
Proof.
  unfold frame_save_path. destruct (run_engine E a f.2) as [o|]; [| discriminate].
  pose proof (imgname_no_sep f.1) as Hno.
  destruct (Py.splitext (Py.basename f.1)) as [imgname ext0]. simpl in Hno.
  intros H. inversion H; subst; clear H.
  destruct (join_relative folder (imgname +:+ "_out." +:+
              save_extension a (img_mode f.2) ext0)
              (save_name_relative _ _ Hno)) as [-> | ->].
  - apply append_neq_self. destruct imgname; discriminate.
  - apply append_neq_self. discriminate.
Qed.

Lemma save_paths_not_folder (E : env) (a : args) (folder : string)
    (frames : list (string * image)) :
  folder ∉ omap item_path (omap (frame_save_path E a folder) frames).
Proof.
  induction frames as [|f rest IH]; simpl; [apply not_elem_of_nil |].
  destruct (frame_save_path E a folder f) as [m|] eqn:Hm; [| exact IH].
  destruct m as [out p|]; simpl; [| exact IH].
  apply not_elem_of_cons. split; [| exact IH].
  intros ->. eapply save_path_not_folder; [exact Hm | reflexivity].
Qed.

Lemma last_char_folder (a : args) : last_char (save_frame_folder_of a) = Some "t"%char.
Proof.
  unfold save_frame_folder_of.
  destruct (join_suffix (Py.join (output a) (video_name_of a)) "frames_tmpout") as [x ->].
  rewrite last_char_append by discriminate. reflexivity.
Qed.

Lemma last_char_video (a : args) : last_char (video_save_path_of a) = Some "4"%char.
Proof.
  unfold video_save_path_of.
  destruct (join_suffix (output a) (video_name_of a +:+ "_" +:+ suffix a +:+ ".mp4"))
    as [x ->].
  rewrite <- !append_assoc. rewrite last_char_append by discriminate. reflexivity.
Qed.

Lemma video_not_folder (a : args) : video_save_path_of a ≠ save_frame_folder_of a.
Proof.
  intros H. apply (f_equal last_char) in H.
  rewrite last_char_folder, last_char_video in H. discriminate.
Qed.

(** ** Runs of the frame-file pipeline from its start *)

Lemma same_but_fps_save_path (E : env) (a b : args) (folder : string)
    (f : string * image) :
  same_but_fps a b -> frame_save_path E a folder f = frame_save_path E b folder f.
Proof.
  intros H. unfold frame_save_path, save_extension.
  rewrite (same_but_fps_engine E a b _ H).
  pose proof (f_equal ext H) as He. simpl in He. rewrite He. reflexivity.
Qed.

Lemma same_but_fps_prints (E : env) (a b : args) (f : string * image) :
  same_but_fps a b -> frame_prints E a f = frame_prints E b f.
Proof.
  intros H. unfold frame_prints. rewrite (same_but_fps_engine E a b _ H). reflexivity.
Qed.

Lemma same_but_fps_extension (E : env) (a b : args) (f : string * image) :
  same_but_fps a b -> extension_after E a f = extension_after E b f.
Proof.
  intros H. unfold extension_after, save_extension.
  rewrite (same_but_fps_engine E a b _ H).
  pose proof (f_equal ext H) as He. simpl in He. rewrite He. reflexivity.
Qed.

Lemma same_but_fps_loop_extension (E : env) (a b : args)
    (frames : list (string * image)) (e : option string) :
  same_but_fps a b -> loop_extension E a frames e = loop_extension E b frames e.
Proof.
  intros H. unfold loop_extension. destruct (last frames); [| reflexivity].
  rewrite (same_but_fps_extension E a b _ H). reflexivity.
Qed.

Lemma loop_events_silent {B : Type} (f : event -> option B) (E : env) (a : args)
    (folder : string) (frames : list (string * image)) :
  (∀ l, f (Print l) = None) -> (∀ m, f (QuePut m) = None) ->
  f PbarUpdate = None -> f CudaSynchronize = None ->
  (∀ i, f (PbarDescription i) = None) ->
  ∀ idx, omap f (loop_events E a folder idx frames) = [].
Proof.
  intros H1 H2 H3 H4 H5.
  induction frames as [|g rest IH]; intros idx; [reflexivity |].
  simpl. rewrite omap_app, IH, app_nil_r.
  unfold frame_events. rewrite !omap_app. simpl. rewrite H3, H4, H5.
  destruct (frame_save_path E a folder g); simpl; rewrite ?H2, app_nil_r;
    induction (frame_prints E a g) as [|l ls IHl]; simpl; rewrite ?H1; auto.
Qed.

Lemma omap_replicate_None {A B : Type} (f : A -> option B) (x : A) (n : nat) :
  f x = None -> omap f (replicate n x) = [].
Proof.
  intros H. induction n as [|n IH]; [reflexivity |].
  change (replicate (S n) x) with (x :: replicate n x). simpl. rewrite H. exact IH.
Qed.

Lemma omap_replicate_Some {A B : Type} (f : A -> option B) (x : A) (y : B) (n : nat) :
  f x = Some y -> omap f (replicate n x) = replicate n y.
Proof.
  intros H. induction n as [|n IH]; [reflexivity |].
  change (replicate (S n) x) with (x :: replicate n x). simpl. rewrite H.
  f_equal. exact IH.
Qed.

(** The projections of the trace of the enhancement phase. *)
Lemma que_puts_phase (E : env) (a : args) (paths : list string) :
  que_puts (phase_events E a paths) =
    omap (frame_save_path E a (save_frame_folder_of a)) (zip paths (reader E paths))
    ++ replicate (Z.to_nat (consumer a)) Quit.
Proof.
  unfold phase_events, que_puts. rewrite !omap_app. simpl.
  change (omap event_put (loop_events E a (save_frame_folder_of a) 0
            (zip paths (reader E paths))))
    with (que_puts (loop_events E a (save_frame_folder_of a) 0
            (zip paths (reader E paths)))).
  rewrite que_puts_loop_events, app_nil_r.
  rewrite (omap_replicate_Some event_put (QuePut Quit) Quit) by reflexivity.
  reflexivity.
Qed.

Lemma printed_phase (E : env) (a : args) (paths : list string) :
  printed (phase_events E a paths) =
    flat_map (frame_prints E a) (zip paths (reader E paths)).
Proof.
  unfold phase_events, printed. rewrite !omap_app. simpl.
  change (omap event_print (loop_events E a (save_frame_folder_of a) 0
            (zip paths (reader E paths))))
    with (printed (loop_events E a (save_frame_folder_of a) 0
            (zip paths (reader E paths)))).
  rewrite printed_loop_events.
  rewrite (omap_replicate_None event_print (QuePut Quit)) by reflexivity.
  rewrite app_nil_r. reflexivity.
Qed.

Lemma consumers_phase (E : env) (a : args) (paths : list string) :
  consumers_started (phase_events E a paths) = [Z.to_nat (consumer a)].
Proof.
  unfold phase_events, consumers_started. rewrite !omap_app. simpl.
  rewrite loop_events_silent by reflexivity.
  rewrite (omap_replicate_None event_consumers (QuePut Quit)) by reflexivity.
  reflexivity.
Qed.

Lemma merge_cmds_phase (E : env) (a : args) (paths : list string) :
  merge_cmds (phase_events E a paths) = [].
Proof.
  unfold phase_events, merge_cmds. rewrite !omap_app. simpl.
  rewrite loop_events_silent by reflexivity.
  rewrite (omap_replicate_None event_merge (QuePut Quit)) by reflexivity.
  reflexivity.
Qed.

(** Frame discovery from the start of a run: the trace has at most the
    extraction command. *)
Lemma get_frames_init (E : env) (x : bool) (a : args) (fs : gmap string node)
    (s1 : state) (r : result (bool * list string)) :
  get_frames E x (init_state a fs) = (s1, r) ->
  same_but_fps a (st_args s1) ∧
  que_puts (st_trace s1) = [] ∧ printed (st_trace s1) = [] ∧
  consumers_started (st_trace s1) = [] ∧ merge_cmds (st_trace s1) = [] ∧
  encode_writes (st_trace s1) = [] ∧ encoder_sizes (st_trace s1) = [] ∧
  framerates (st_trace s1) = [] ∧ pipe_frames (st_trace s1) = [] ∧
  ∀ h w, frames_read E h w (st_trace s1) = [].
Proof.
  intros H.
  pose proof H as H1. frame_in H1 with same_but_fps event_put.
  pose proof H as H2. frame_in H2 with same_but_fps event_print.
  pose proof H as H3. frame_in H3 with same_but_fps event_consumers.
  pose proof H as H4. frame_in H4 with same_but_fps event_merge.
  pose proof H as H5. frame_in H5 with same_but_fps event_write.
  pose proof H as H6. frame_in H6 with same_but_fps event_encoder_size.
  pose proof H as H7. frame_in H7 with same_but_fps event_framerate.
  pose proof H as H8. frame_in H8 with same_but_fps event_pipe_frame.
  split; [exact (frame_args _ _ _ _ H1) |].
  unfold que_puts, printed, consumers_started, merge_cmds, encode_writes,
    encoder_sizes, framerates, pipe_frames.
  do 8 (split; [erewrite frame_omap by eassumption; reflexivity |]).
  intros h w. pose proof H as H9. frame_in H9 with same_but_fps (event_frame E h w).
  unfold frames_read. erewrite frame_omap by eassumption. reflexivity.
Qed.

Lemma omap_ext_all {A B : Type} (f g : A -> option B) (l : list A) :
  (∀ x, f x = g x) -> omap f l = omap g l.
Proof.
  intros H. induction l as [|x l IH]; [reflexivity |].
  simpl. rewrite H. destruct (g x); [f_equal |]; exact IH.
Qed.

Lemma enhance_phase_init (E : env) (a : args) (fs : gmap string node) (s' : state)
    (sff vn : string) (le : option string) :
  enhance_phase E (init_state a fs) = (s', Ok (sff, vn, le)) ->
  ∃ s1 v paths,
    get_frames E true (init_state a fs) = (s1, Ok (v, paths)) ∧
    same_but_fps a (st_args s') ∧
    st_args s' = st_args s1 ∧
    vn = video_name_of a ∧
    sff = save_frame_folder_of a ∧
    le = loop_extension E a (zip paths (reader E paths)) None ∧
    que_puts (st_trace s') =
      omap (frame_save_path E a sff) (zip paths (reader E paths))
      ++ replicate (Z.to_nat (consumer a)) Quit ∧
    printed (st_trace s') = flat_map (frame_prints E a) (zip paths (reader E paths)) ∧
    consumers_started (st_trace s') = [Z.to_nat (consumer a)] ∧
    merge_cmds (st_trace s') = [] ∧
    st_fs s' !! sff = Some Dir ∧
    st_fs s' = pool_writes (Z.to_nat (consumer a)) (que_puts (st_trace s'))
                 (makedirs_fs sff (st_fs s1)).
Proof.
  intros H.
  apply enhance_phase_inv in H
    as (s1 & v & paths & Hgf & -> & -> & -> & Hargs & Htrace & Hfs).
  pose proof (get_frames_init _ _ _ _ _ _ Hgf)
    as (Hsame & Hq & Hp & Hc & Hm & _).
  destruct (same_but_fps_names _ _ Hsame) as (Hvn & Hsff & _ & _).
  pose proof (f_equal consumer Hsame) as Hk. simpl in Hk.
  assert (Hputs : que_puts (st_trace s') =
    omap (frame_save_path E a (save_frame_folder_of a)) (zip paths (reader E paths))
    ++ replicate (Z.to_nat (consumer a)) Quit).
  { rewrite Htrace. unfold que_puts. rewrite omap_app.
    fold (que_puts (st_trace s1)). fold (que_puts (phase_events E (st_args s1) paths)).
    rewrite Hq, que_puts_phase, <- Hsff, <- Hk. simpl. f_equal.
    apply omap_ext_all. intros f.
    symmetry. apply same_but_fps_save_path, Hsame. }
  exists s1, v, paths. rewrite <- Hvn, <- Hsff.
  split; [exact Hgf |]. split; [rewrite Hargs; exact Hsame |].
  split; [exact Hargs |]. split; [reflexivity |]. split; [reflexivity |].
  split; [symmetry; apply same_but_fps_loop_extension, Hsame |].
  split; [exact Hputs |].
  split.
  { rewrite Htrace. unfold printed. rewrite omap_app.
    fold (printed (st_trace s1)). fold (printed (phase_events E (st_args s1) paths)).
    rewrite Hp, printed_phase. simpl.
    apply flat_map_ext. intros f. symmetry. apply same_but_fps_prints, Hsame. }
  split.
  { rewrite Htrace. unfold consumers_started. rewrite omap_app.
    fold (consumers_started (st_trace s1)).
    fold (consumers_started (phase_events E (st_args s1) paths)).
    rewrite Hc, consumers_phase, Hk. reflexivity. }
  split.
  { rewrite Htrace. unfold merge_cmds. rewrite omap_app.
    fold (merge_cmds (st_trace s1)).
    fold (merge_cmds (phase_events E (st_args s1) paths)).
    rewrite Hm, merge_cmds_phase. reflexivity. }
  rewrite <- Hsff, <- Hk in Hfs. split; [| exact Hfs].
  rewrite Hfs, pool_writes_lookup; [apply makedirs_fs_lookup |].
  rewrite Hputs, omap_app.
  rewrite (omap_replicate_None item_path Quit) by reflexivity.
  rewrite app_nil_r. apply save_paths_not_folder.
Qed.

(** ** C9: the cleanup and the merge command *)

Lemma enhance_phase_no_merge (E : env) (a : args) (fs : gmap string node)
    (s' : state) (r : result (string * string * option string)) :
  enhance_phase E (init_state a fs) = (s', r) -> merge_cmds (st_trace s') = [].
Proof.
  intros H. frame_in H with same_but_fps event_merge.
  unfold merge_cmds. rewrite (frame_omap _ _ _ _ H). reflexivity.
Qed.

Lemma after_merge_folder (E : env) (e : string) (s : state) :
  st_fs s !! save_frame_folder_of (st_args s) = Some Dir ->
  st_fs (after_merge E e s) !! save_frame_folder_of (st_args s) = Some Dir.
Proof.
  intros H. unfold after_merge. simpl.
  destruct (ffmpeg_merge E _ (st_fs s) =? 0); [| exact H].
  rewrite lookup_insert_ne; [exact H |]. apply video_not_folder.
Qed.

(** C9, as stated, fails: a run whose merge command fails returns and prints
    what the run whose merge command passes returns and prints. *)
Lemma remux_failure_not_surfaced :
  ¬ remux_failure_surfaced (Demo.world 1 1 2 [] 0)
      (Demo.options "clip.mp4" Demo.scale_2 None) ∅.
Proof.
  unfold remux_failure_surfaced. intros H.
  destruct H as [H | H].
  - vm_compute. discriminate.
  - apply H. vm_compute. reflexivity.
  - apply H. vm_compute. reflexivity.
Qed.

(** C9, amended: in file mode, once the merge command has been run, the
    folder of the saved frames is removed with all it holds and no directory
    is left at the folder of the extracted frames, whatever the exit status
    of the merge command; that status is not looked at: the run returns
    normally and does nothing after the merge command but the cleanup. *)
Theorem scratch_removed_whatever_merge (E : env) (a : args) (fs : gmap string node)
    (s' : state) (r : result unit) :
  inference_frames E (init_state a fs) = (s', r) ->
  merge_cmds (st_trace s') ≠ [] ->
  r = Ok tt ∧
  tree_gone (save_frame_folder_of a) (st_fs s') ∧
  st_fs s' !! frame_folder_of a ≠ Some Dir ∧
  ∃ t c, st_trace s' = t ++ [SystemMerge c] ∧ merge_cmds t = [].
Proof.
  intros H Hm.
  apply inference_frames_inv in H
    as [(e & H & ->) | (s1 & sff & vn & le & H1 & H2)].
  - exfalso. apply Hm. eapply enhance_phase_no_merge, H.
  - pose proof (enhance_phase_no_merge _ _ _ _ _ H1) as Hnone.
    apply enhance_phase_init in H1
      as (s0 & v & paths & _ & Hsame & _ & -> & -> & _ & _ & _ & _ & _ & Hdir & _).
    destruct le as [e|].
    + destruct (same_but_fps_names _ _ Hsame) as (Hvn & Hsff & Hff & _).
      rewrite Hvn, Hsff in H2. rewrite merge_and_cleanup_some in H2.
      rewrite Hsff in Hdir.
      destruct (cleanup_run _ (video_name_of (st_args s1)) _
                  (after_merge_folder E e s1 Hdir))
        as (fs' & Hc & Hgone & Hff' & _).
      rewrite Hc in H2. inversion H2; subst; clear H2.
      rewrite Hsff, Hff. simpl.
      split; [reflexivity |]. split; [exact Hgone |]. split; [exact Hff' |].
      eauto.
    + rewrite merge_and_cleanup_none in H2. inversion H2; subst.
      exfalso. apply Hm, Hnone.
Qed.

Lemma scratch_removed_whatever_merge_witness :
  let run := inference_frames (Demo.world 1 1 2 [] 1)
               (init_state (Demo.options "clip.mp4" Demo.scale_2 None) ∅) in
  run.2 = Ok tt ∧
  tree_gone "results/clip/frames_tmpout" (st_fs run.1) ∧
  st_fs run.1 !! "tmp_frames/clip" ≠ Some Dir ∧
  ∃ t c, st_trace run.1 = t ++ [SystemMerge c] ∧ merge_cmds t = [].
Proof.
  apply (scratch_removed_whatever_merge (Demo.world 1 1 2 [] 1)
           (Demo.options "clip.mp4" Demo.scale_2 None) ∅).
  - vm_compute. reflexivity.
  - vm_compute. discriminate.
Defined.

(** ** C10: the extension of the merge pattern *)

Lemma out_split (y f : string) :
  y +:+ "_out." +:+ f = (y +:+ "_out") +:+ String "." f.
Proof. rewrite append_assoc. reflexivity. Qed.

Lemma save_extension_no_dot (a : args) (mode : option string) (q : string) :
  has_char "." (ext a) = false ->
  has_char "." (save_extension a mode (Py.splitext q).2) = false.
Proof.
  intros Ha. unfold save_extension.
  assert (Hbase : has_char "."
            (if (ext a =? "auto")%string then Py.tail (Py.splitext q).2 else ext a) = false).
  { destruct (ext a =? "auto")%string; [| exact Ha].
    destruct (splitext_extension q) as [-> | (x & -> & Hx)]; [reflexivity | exact Hx]. }
  destruct (mode_is mode "RGBA"); [reflexivity | exact Hbase].
Qed.

Lemma inference_frames_merge (E : env) (a : args) (fs : gmap string node)
    (s' : state) (r : result unit) (c : merge_cmd) :
  inference_frames E (init_state a fs) = (s', r) ->
  In c (merge_cmds (st_trace s')) ->
  ∃ s1 v paths f,
    get_frames E true (init_state a fs) = (s1, Ok (v, paths)) ∧
    same_but_fps a (st_args s1) ∧
    last (zip paths (reader E paths)) = Some f ∧
    c = merge_cmd_of (st_args s1) (extension_after E a f) ∧
    merge_cmds (st_trace s') = [c].
Proof.
  intros H Hc.
  apply inference_frames_inv in H
    as [(e & H & ->) | (s1 & sff & vn & le & H1 & H2)].
  - rewrite (enhance_phase_no_merge _ _ _ _ _ H) in Hc. destruct Hc.
  - pose proof (enhance_phase_no_merge _ _ _ _ _ H1) as Hnone.
    apply enhance_phase_init in H1
      as (s0 & v & paths & Hgf & Hsame & Hargs & -> & -> & -> & _ & _ & _ & _ & Hdir & _).
    unfold loop_extension in H2.
    destruct (last (zip paths (reader E paths))) as [f|] eqn:Hlast.
    + destruct (same_but_fps_names _ _ Hsame) as (Hvn & Hsff & Hff & _).
      rewrite Hvn, Hsff in H2. rewrite merge_and_cleanup_some in H2.
      rewrite Hsff in Hdir.
      destruct (cleanup_run _ (video_name_of (st_args s1)) _
                  (after_merge_folder E (extension_after E a f) s1 Hdir))
        as (fs' & Hcl & _).
      rewrite Hcl in H2. inversion H2; subst; clear H2.
      simpl in Hc. unfold merge_cmds in Hc, Hnone |- *. simpl in *.
      rewrite omap_app in Hc |- *. rewrite Hnone in Hc |- *. simpl in Hc |- *.
      destruct Hc as [<- | []].
      exists s0, v, paths, f. rewrite <- Hargs. auto 10.
    + rewrite merge_and_cleanup_none in H2. inversion H2; subst.
      rewrite Hnone in Hc. destruct Hc.
Qed.

(** C10: in file mode the pattern of the merge command has the extension the
    last iteration of the loop left: the one the last frame was saved with,
    or, when the engine failed on the last frame, what [splitext] gave for
    its path, dot included. A saved frame the pattern stands for has that
    extension (for an [--ext] without a dot, as [auto], [jpg] and [png]
    are). *)
Theorem merge_pattern_extension (E : env) (a : args) (fs : gmap string node)
    (s' : state) (r : result unit) (c : merge_cmd) :
  inference_frames E (init_state a fs) = (s', r) ->
  In c (merge_cmds (st_trace s')) ->
  ∃ s1 v paths path img,
    get_frames E true (init_state a fs) = (s1, Ok (v, paths)) ∧
    last (zip paths (reader E paths)) = Some (path, img) ∧
    let raw := (Py.splitext (Py.basename path)).2 in
    let final := if engine_fails E a img then raw
                 else save_extension a (img_mode img) raw in
    merge_frames c = save_frame_folder_of a +:+ "/frame%08d_out." +:+ final ∧
    (raw = "" ∨ ∃ x, raw = String "." x) ∧
    (has_char "." (ext a) = false ->
     ∀ f out p,
       In f (zip paths (reader E paths)) ->
       frame_save_path E a (save_frame_folder_of a) f = Some (Item out p) ->
       picked_up (save_frame_folder_of a) final p ->
       save_extension a (img_mode f.2) (Py.splitext (Py.basename f.1)).2 = final).
Proof.
  intros H Hc.
  destruct (inference_frames_merge _ _ _ _ _ _ H Hc)
    as (s1 & v & paths & [path img] & Hgf & Hsame & Hlast & -> & _).
  exists s1, v, paths, path, img.
  split; [exact Hgf |]. split; [exact Hlast |].
  destruct (same_but_fps_names _ _ Hsame) as (_ & Hsff & _).
  assert (Hfinal : extension_after E a (path, img) =
            if engine_fails E a img then (Py.splitext (Py.basename path)).2
            else save_extension a (img_mode img) (Py.splitext (Py.basename path)).2).
  { unfold extension_after, engine_fails. simpl.
    destruct (run_engine E a img); reflexivity. }
  simpl. rewrite Hfinal, <- Hsff.
  split; [reflexivity |].
  split.
  { destruct (splitext_extension (Py.basename path)) as [-> | (x & -> & _)]; eauto. }
  intros Hext f out p _ Hsave [n Hn].
  unfold frame_save_path in Hsave.
  destruct (run_engine E a f.2) as [o|]; [| discriminate].
  destruct (Py.splitext (Py.basename f.1)) as [imgname raw_f] eqn:Hsp.
  revert Hn. inversion Hsave as [[Ho Hp]]. clear Hsave Ho Hp. intros Hn.
  change raw_f with (imgname, raw_f).2 in Hn |- *. rewrite <- Hsp in Hn |- *.
  pose proof (save_extension_no_dot a (img_mode f.2) (Py.basename f.1) Hext) as Hei.
  set (ei := save_extension a (img_mode f.2) (Py.splitext (Py.basename f.1)).2) in *.
  fold ei in Hn.
  destruct (join_suffix (save_frame_folder_of a) (imgname +:+ "_out." +:+ ei))
    as [x Hx].
  rewrite Hx in Hn.
  rewrite out_split, <- append_assoc in Hn.
  replace (save_frame_folder_of a +:+ "/frame" +:+ pad8 n +:+ "_out." +:+
           (if engine_fails E a img then (Py.splitext (Py.basename path)).2
            else save_extension a (img_mode img) (Py.splitext (Py.basename path)).2))
    with ((save_frame_folder_of a +:+ "/frame" +:+ pad8 n +:+ "_out") +:+
          String "."
           (if engine_fails E a img then (Py.splitext (Py.basename path)).2
            else save_extension a (img_mode img) (Py.splitext (Py.basename path)).2))
    in Hn by (rewrite !append_assoc; reflexivity).
  destruct (engine_fails E a img).
  - destruct (splitext_extension (Py.basename path)) as [Hraw | (y & Hraw & Hy)];
      rewrite Hraw in Hn |- *.
    + apply last_occurrence_unique in Hn as [_ Hn]; [exact Hn | exact Hei | reflexivity].
    + exfalso.
      replace ((save_frame_folder_of a +:+ "/frame" +:+ pad8 n +:+ "_out") +:+
               String "." (String "." y))
        with ((save_frame_folder_of a +:+ "/frame" +:+ pad8 n +:+ "_out.") +:+
              String "." y) in Hn by (rewrite !append_assoc; reflexivity).
      apply last_occurrence_unique in Hn as [Hn _]; [| exact Hei | exact Hy].
      apply (f_equal last_char) in Hn.
      rewrite <- !append_assoc in Hn.
      rewrite !last_char_append in Hn by discriminate. discriminate.
  - apply last_occurrence_unique in Hn as [_ Hn]; [exact Hn | exact Hei |].
    apply save_extension_no_dot, Hext.
Qed.

(** ** C5: the extension of a saved frame *)

Lemma has_char_middle (c : ascii) (x e : string) : has_char c (x +:+ String c e) = true.
Proof.
  rewrite has_char_append. cbn [has_char]. rewrite Ascii.eqb_refl.
  apply orb_true_r.
Qed.

(** The base name of a path that ends with a name without separator. *)
Lemma basename_append (y w : string) :
  has_char "/" w = false -> Py.basename (y +:+ w) = Py.basename y +:+ w.
Proof.
  intros Hw.
  destruct (basename_spec y) as [[Hy ->] | (pre & post & -> & Hpost & ->)].
  - destruct (basename_spec (y +:+ w)) as [[_ ->] | (pre & post & H & _ & _)];
      [reflexivity |].
    exfalso. apply (f_equal (has_char "/")) in H.
    rewrite has_char_middle, has_char_append, Hy, Hw in H. discriminate.
  - destruct (basename_spec ((pre +:+ String "/" post) +:+ w))
      as [[H _] | (pre' & post' & H & Hpost' & ->)].
    + exfalso. rewrite append_assoc, append_cons, has_char_middle in H. discriminate.
    + rewrite append_assoc, append_cons in H.
      apply last_occurrence_unique in H as [_ ->]; [reflexivity | | exact Hpost'].
      rewrite has_char_append, Hpost, Hw. reflexivity.
Qed.

Lemma all_dots_append (x y : string) :
  Py.all_dots (x +:+ y) = Py.all_dots x && Py.all_dots y.
Proof.
  induction x as [|a x IH]; [reflexivity |].
  rewrite append_cons. cbn [Py.all_dots]. rewrite IH. apply andb_assoc.
Qed.

(** [splitext] on a name without separator that has a last dot after
    something else than dots. *)
Lemma splitext_cut (pre post : string) :
  has_char "/" (pre +:+ String "." post) = false ->
  has_char "." post = false ->
  Py.all_dots pre = false ->
  Py.splitext (pre +:+ String "." post) = (pre, String "." post).
Proof.
  intros Hsep Hpost Hdots. unfold Py.splitext.
  destruct (rfind_spec "/" (pre +:+ String "." post))
    as [[Hs _] | (p1 & p2 & H & _ & _)].
  2:{ exfalso. rewrite H, has_char_middle in Hsep. discriminate. }
  destruct (rfind_spec "." (pre +:+ String "." post))
    as [[_ Hd] | (p1 & p2 & H & Hp2 & Hd)].
  { exfalso. rewrite has_char_middle in Hd. discriminate. }
  apply last_occurrence_unique in H as [<- <-]; [| exact Hpost | exact Hp2].
  rewrite Hs, Hd.
  replace (-1 <? Z.of_nat (String.length pre)) with true by (symmetry; apply Z.ltb_lt; lia).
  replace (Z.to_nat (-1 + 1)) with 0%nat by reflexivity.
  replace (Z.to_nat (Z.of_nat (String.length pre) - (-1 + 1))) with (String.length pre) by lia.
  rewrite substring_take, Hdots, slice_to_append, slice_from_append. reflexivity.
Qed.

(** The extension of the file a frame is saved to is the extension it was
    saved with. *)
Lemma saved_file_extension (folder name x : string) :
  has_char "/" name = false -> has_char "/" x = false -> has_char "." x = false ->
  file_extension (Py.join folder (name +:+ "_out." +:+ x)) = x.
Proof.
  intros Hname Hx Hdot. unfold file_extension.
  destruct (join_suffix folder (name +:+ "_out." +:+ x)) as [y ->].
  assert (Hw : has_char "/" (name +:+ "_out." +:+ x) = false).
  { rewrite !has_char_append, Hname, Hx. reflexivity. }
  rewrite (basename_append _ _ Hw), <- append_assoc, out_split.
  rewrite splitext_cut; [reflexivity | | exact Hdot |].
  - rewrite <- out_split, append_assoc, has_char_append, Hw, basename_no_sep.
    reflexivity.
  - rewrite !all_dots_append. cbn. rewrite !andb_false_r. reflexivity.
Qed.

Lemma file_extension_no_sep (p : string) : has_char "/" (file_extension p) = false.
Proof.
  unfold file_extension. pose proof (basename_no_sep p) as H.
  rewrite <- (splitext_append (Py.basename p)), has_char_append in H.
  apply orb_false_elim in H as [_ H].
  destruct ((Py.splitext (Py.basename p)).2) as [|c s]; [reflexivity |].
  cbn [has_char] in H. apply orb_false_elim in H as [_ H]. exact H.
Qed.

Lemma img_mode_alpha (img : image) :
  mode_is (img_mode img) "RGBA" = has_alpha img.
Proof.
  unfold img_mode, has_alpha.
  destruct (shape img) as [|h [|w [|c [|? ?]]]]; try reflexivity.
  destruct (Nat.eqb c 4); reflexivity.
Qed.

(** C5: in file mode a frame the engine enhanced is saved to a file whose
    extension is [png] when its pixel buffer has four channels, whatever
    [--ext] is, and else, under [--ext auto], the extension of its source
    file. *)
Theorem saved_extension_policy (E : env) (folder : string) (idx : nat)
    (path : string) (img out : image) (s : state) :
  run_engine E (st_args s) img = Enhanced out ->
  ∃ p,
    que_puts (st_trace (frame_step E folder idx path img s).1) =
      que_puts (st_trace s) ++ [Item out p] ∧
    (has_alpha img = true -> file_extension p = "png") ∧
    (has_alpha img = false -> ext (st_args s) = "auto" ->
     file_extension p = file_extension path).
Proof.
  intros Hrun. rewrite frame_step_run. simpl.
  unfold que_puts. rewrite omap_app.
  fold (que_puts (frame_events E (st_args s) folder idx (path, img))).
  rewrite que_puts_frame_events. unfold frame_save_path. simpl. rewrite Hrun.
  pose proof (imgname_no_sep path) as Hname.
  unfold file_extension at 2.
  destruct (Py.splitext (Py.basename path)) as [imgname raw] eqn:Hsp.
  simpl in Hname. eexists. split; [reflexivity |].
  unfold save_extension. rewrite img_mode_alpha. split.
  - intros ->. apply saved_file_extension; [exact Hname | reflexivity | reflexivity].
  - intros -> ->. simpl.
    change raw with (imgname, raw).2. rewrite <- Hsp.
    apply saved_file_extension; [exact Hname | |].
    + apply file_extension_no_sep.
    + apply file_extension_no_dot.
Qed.

Lemma saved_extension_policy_witness :
  ∃ p,
    que_puts (st_trace (frame_step (Demo.world 1 1 1 [] 0) "results/x/frames_tmpout" 0
                 "x.jpg" (Demo.pixel x01)
                 (init_state (Demo.options "x.jpg" Demo.scale_2 None) ∅)).1) =
      [] ++ [Item (mkImage [2%nat; 2%nat; 3%nat] (List.repeat x01 12)) p] ∧
    (has_alpha (Demo.pixel x01) = true -> file_extension p = "png") ∧
    (has_alpha (Demo.pixel x01) = false -> "auto" = "auto" ->
     file_extension p = "jpg").
Proof.
  apply (saved_extension_policy (Demo.world 1 1 1 [] 0) "results/x/frames_tmpout" 0
           "x.jpg" (Demo.pixel x01) _
           (init_state (Demo.options "x.jpg" Demo.scale_2 None) ∅)).
  reflexivity.
Defined.

(** ** C8: the frame rate of a run *)

Lemma get_frames_fps_some (E : env) (x : bool) (s s' : state) (v : bool)
    (paths : list string) :
  get_frames E x s = (s', Ok (v, paths)) -> fps (st_args s') ≠ None.
Proof.
  unfold get_frames. intros H.
  run_inv H as s1 a Ha. run_inv H as s2 isv Hmime.
  run_inv H as s3 vp Hbody. destruct vp as [is_video ps].
  run_inv H as s4 a' Ha'. run_prim Ha'.
  run_inv H as s5 u Hfin. run_prim H.
  destruct (fps (st_args s4)) as [f|] eqn:Hf.
  - run_prim Hfin. congruence.
  - rewrite modify_args_run in Hfin. inversion Hfin; subst. discriminate.
Qed.

Lemma setup_events_framerates (v : bool) (inp : string) (oh : Z) :
  framerates (setup_events v inp oh) = [].
Proof. unfold setup_events. destruct v, (2160 <? oh); reflexivity. Qed.

(** C8: the frame rate of the output (the rate the encoder is started with
    in stream mode, the rate of the merge command in file mode) is the
    override when there is one, else the rate probed from the video stream
    of a video input, else 24. *)
Theorem frame_rate_resolution (E : env) (a : args) (fs : gmap string node) :
  let rate v := resolved_fps (fps a) v (probed_fps E (input a)) in
  (∀ x s1 v paths,
     get_frames E x (init_state a fs) = (s1, Ok (v, paths)) ->
     fps (st_args s1) = rate v ∧ rate v ≠ None) ∧
  (∀ s' v paths w h,
     stream_setup E (init_state a fs) = (s', Ok (v, paths, w, h)) ->
     framerates (st_trace s') = [rate v]) ∧
  (∀ s' r c,
     inference_frames E (init_state a fs) = (s', r) ->
     In c (merge_cmds (st_trace s')) ->
     ∃ s1 v paths,
       get_frames E true (init_state a fs) = (s1, Ok (v, paths)) ∧
       merge_fps c = rate v).
Proof.
  intros rate. split; [| split].
  - intros x s1 v paths H.
    pose proof (get_frames_fps _ _ _ _ _ _ H) as Hr. simpl in Hr.
    split; [exact Hr |]. fold (rate v) in Hr. rewrite <- Hr.
    eapply get_frames_fps_some, H.
  - intros s' v paths w h H.
    apply stream_setup_inv in H
      as (s1 & ow & oh & Hgf & _ & _ & _ & _ & _ & Ht).
    pose proof (get_frames_fps _ _ _ _ _ _ Hgf) as Hr. simpl in Hr.
    pose proof (get_frames_init _ _ _ _ _ _ Hgf) as (_ & _ & _ & _ & _ & _ & _ & Hfr & _).
    rewrite Ht. unfold framerates in *. rewrite !omap_app, Hfr.
    fold (framerates (setup_events v (input (st_args s1)) oh)).
    rewrite setup_events_framerates. simpl. rewrite Hr. reflexivity.
  - intros s' r c H Hc.
    destruct (inference_frames_merge _ _ _ _ _ _ H Hc)
      as (s1 & v & paths & f & Hgf & _ & _ & -> & _).
    exists s1, v, paths. split; [exact Hgf |].
    simpl. pose proof (get_frames_fps _ _ _ _ _ _ Hgf) as Hr. exact Hr.
Qed.

Lemma frame_rate_resolution_witness :
  fps (st_args (get_frames (Demo.world 1 1 2 [] 0) true
                  (init_state (Demo.options "clip.mp4" Demo.scale_2 None) ∅)).1)
  = Some (PFloat (Float.dyadic 30 0)) ∧
  fps (st_args (get_frames (Demo.world 1 1 2 [] 0) true
                  (init_state (Demo.options "x.jpg" Demo.scale_2 None) ∅)).1)
  = Some (PInt 24) ∧
  fps (st_args (get_frames (Demo.world 1 1 2 [] 0) true
                  (init_state (Demo.options "clip.mp4" Demo.scale_2 (Some Demo.rate_12)) ∅)).1)
  = Some Demo.rate_12.
Proof.
  split; [| split].
  - destruct (frame_rate_resolution (Demo.world 1 1 2 [] 0)
                (Demo.options "clip.mp4" Demo.scale_2 None) ∅) as [H _].
    destruct (H true _ true _ ltac:(vm_compute; reflexivity)) as [Hr _].
    exact Hr.
  - destruct (frame_rate_resolution (Demo.world 1 1 2 [] 0)
                (Demo.options "x.jpg" Demo.scale_2 None) ∅) as [H _].
    destruct (H true _ false _ ltac:(vm_compute; reflexivity)) as [Hr _].
    exact Hr.
  - destruct (frame_rate_resolution (Demo.world 1 1 2 [] 0)
                (Demo.options "clip.mp4" Demo.scale_2 (Some Demo.rate_12)) ∅) as [H _].
    destruct (H true _ true _ ltac:(vm_compute; reflexivity)) as [Hr _].
    exact Hr.
Defined.

(** ** C7: a folder as input *)

Lemma get_frames_no_type (E : env) (x : bool) (s : state) :
  guess_type E (input (st_args s)) = None ->
  get_frames E x s =
    (s, Err (AttributeError "'NoneType' object has no attribute 'startswith'")).
Proof.
  intros H. unfold get_frames, mime_startswith.
  rewrite bind_run. simpl. rewrite bind_run, H. reflexivity.
Qed.

#[local] Instance str_le_total : Total str_le.
Proof. intros a b. apply String.leb_total. Qed.

Lemma sorted_Sorted (l : list string) : Sorted str_le (sorted l).
Proof. apply Sorted_merge_sort. exact str_le_total. Qed.

Lemma sorted_Permutation (l : list string) : sorted l ≡ₚ l.
Proof. apply merge_sort_Permutation. Qed.

(** The branch of [get_frames] for a folder, which the code reaches when the
    name of the folder has a type that is neither a video nor an image: the
    entries in order, or the assertion error of an empty folder, before any
    frame is processed. *)
Lemma get_frames_folder (E : env) (x : bool) (s s' : state) (t : string)
    (r : result (bool * list string)) :
  guess_type E (input (st_args s)) = Some t ->
  Py.startswith "video" t = false ->
  Py.startswith "image" t = false ->
  get_frames E x s = (s', r) ->
  (∃ paths, r = Ok (false, paths) ∧ paths ≠ [] ∧ Sorted str_le paths ∧
            paths ≡ₚ List.filter (is_child (input (st_args s)))
                       (map fst (map_to_list (st_fs s)))) ∨
  (r = Err (AssertionError "the input folder is empty") ∧ s' = s ∧
   List.filter (is_child (input (st_args s))) (map fst (map_to_list (st_fs s))) = []).
Proof.
  intros Ht Hv Hi. unfold get_frames, mime_startswith, glob_star.
  cbv beta iota delta [mbind M_bind mret M_ret get_args get_fs].
  rewrite Ht. cbv beta iota. rewrite Hv. cbv beta iota. rewrite Hi. cbv beta iota.
  set (l := List.filter _ _).
  destruct (0 <? Z.of_nat (length (sorted l))) eqn:Hlen.
  - cbv beta iota.
    assert (Hne : sorted l ≠ []).
    { intros Hnil. rewrite Hnil in Hlen. discriminate. }
    destruct (fps (st_args s)); simpl; intros H; inversion H; subst;
      left; exists (sorted l); auto using sorted_Sorted, sorted_Permutation.
  - intros H. inversion H; subst. right. split; [reflexivity |].
    split; [reflexivity |].
    apply Z.ltb_ge in Hlen.
    assert (Hnil : sorted l = []) by (destruct (sorted l); [reflexivity | simpl in Hlen; lia]).
    pose proof (sorted_Permutation l) as Hp. rewrite Hnil in Hp.
    symmetry in Hp. apply Permutation_nil_r in Hp. exact Hp.
Qed.

(** C7, where the code fails: the folder [inputs], the default of
    [--input], has no type, and frame discovery raises an attribute error
    where the folder has two frames to list. *)
Theorem folder_input_raises :
  get_frames (Demo.world 1 1 0 [] 0) true
    (init_state (Demo.options "inputs" (PInt 4) None) Demo.folders) =
  (init_state (Demo.options "inputs" (PInt 4) None) Demo.folders,
   Err (AttributeError "'NoneType' object has no attribute 'startswith'")).
Proof. apply get_frames_no_type. reflexivity. Qed.

(** The same folder under a name with the type of a text file is listed in
    order, and an empty one is refused. *)
Example folder_typed_listed :
  (get_frames (Demo.world 1 1 0 [] 0) true
     (init_state (Demo.options "frames.txt" (PInt 4) None) Demo.folders)).2 =
  Ok (false, ["frames.txt/a.jpg"; "frames.txt/b.png"]).
Proof. vm_compute. reflexivity. Qed.

Example folder_typed_empty :
  (get_frames (Demo.world 1 1 0 [] 0) true
     (init_state (Demo.options "empty.txt" (PInt 4) None) Demo.folders)).2 =
  Err (AssertionError "the input folder is empty").
Proof. vm_compute. reflexivity. Qed.

(** ** The loop of the streaming pipeline *)

Lemma stream_frame_run (E : env) (img : image) (s : state) :
  stream_frame E img s =
    (add_events s (stream_frame_events E (st_args s) img), Ok tt).
Proof.
  unfold stream_frame, stream_frame_events, failure_lines, add_events.
  cbv beta iota delta [mbind M_bind mret M_ret get_args].
  destruct (run_engine E (st_args s) img) as [out|m];
    cbv beta iota delta [mbind M_bind mret M_ret emit print];
    simpl; rewrite <- ?app_assoc; reflexivity.
Qed.

Lemma stream_frame_events_writes (E : env) (a : args) (img : image) :
  encode_writes (stream_frame_events E a img) = option_list (written_for E a img).
Proof.
  unfold stream_frame_events, written_for, failure_lines.
  destruct (run_engine E a img); reflexivity.
Qed.

Lemma stream_frame_events_silent {B : Type} (f : event -> option B) (E : env)
    (a : args) (img : image) :
  (∀ l, f (Print l) = None) -> (∀ b, f (EncodeWrite b) = None) ->
  f CudaSynchronize = None ->
  omap f (stream_frame_events E a img) = [].
Proof.
  intros H1 H2 H3. unfold stream_frame_events, failure_lines.
  destruct (run_engine E a img); simpl; rewrite ?H1, ?H2, ?H3; reflexivity.
Qed.

Lemma pipe_read_run (n : Z) (s : state) :
  pipe_read n s =
    (let k := if n <? 0 then length (st_pipe s) else Z.to_nat n in
     (mkState (st_args s) (st_fs s) (drop k (st_pipe s))
              (st_trace s ++ [DecodeRead (take k (st_pipe s))]),
      Ok (take k (st_pipe s)))).
Proof. reflexivity. Qed.

Lemma stream_frame_events_frames (E : env) (a : args) (img : image) (h w : Z) :
  frames_read E h w (stream_frame_events E a img) = [].
Proof. apply stream_frame_events_silent; reflexivity. Qed.

Lemma frombuffer_reshape_inv (b : list byte) (h w : Z) (img : image) :
  frombuffer_reshape b h w = Ok img ->
  img = mkImage [Z.to_nat h; Z.to_nat w; 3%nat] b.
Proof.
  unfold frombuffer_reshape. destruct (_ && _); intros H; inversion H. reflexivity.
Qed.

Lemma video_loop_S (E : env) (w h : Z) (k : nat) (s : state) :
  video_loop E (S k) w h s =
    match pipe_read (w * h * 3) s with
    | (s1, Ok []) => Some (s1, Ok tt)
    | (s1, Ok img_bytes) =>
        match (img ← lift (frombuffer_reshape img_bytes h w); stream_frame E img) s1 with
        | (s2, Ok _) => video_loop E k w h s2
        | (s2, Err e) => Some (s2, Err e)
        end
    | (s1, Err e) => Some (s1, Err e)
    end.
Proof. reflexivity. Qed.

Lemma video_loop_result (E : env) (w h : Z) (fuel : nat) :
  ∀ s s', video_loop E fuel w h s = Some (s', Ok tt) -> loop_result E true h w s s'.
Proof.
  induction fuel as [|fuel IH]; intros s s' H; [discriminate |].
  rewrite video_loop_S, pipe_read_run in H. cbv zeta in H.
  set (k := if w * h * 3 <? 0 then length (st_pipe s) else Z.to_nat (w * h * 3)) in H.
  destruct (take k (st_pipe s)) as [|b bs] eqn:Htake.
  - inversion H; subst; clear H. split; [reflexivity |]. split; [reflexivity |].
    exists [DecodeRead []]. simpl. auto.
  - rewrite bind_run, lift_run in H.
    destruct (frombuffer_reshape (b :: bs) h w) as [img|e] eqn:Hre; [| discriminate].
    apply frombuffer_reshape_inv in Hre. subst img.
    rewrite stream_frame_run in H. simpl in H.
    apply IH in H as (Ha & Hf & t & Ht & Hw & He & Hp).
    simpl in Ha, Hf, Ht, Hw.
    split; [exact Ha |]. split; [exact Hf |].
    set (img := mkImage [Z.to_nat h; Z.to_nat w; 3%nat] (b :: bs)) in *.
    exists ([DecodeRead (b :: bs)] ++ stream_frame_events E (st_args s) img ++ t).
    split; [rewrite Ht, <- !app_assoc; reflexivity |].
    unfold encode_writes, frames_read, encoder_sizes, pipe_frames in *.
    rewrite !omap_app.
    fold (encode_writes (stream_frame_events E (st_args s) img)).
    fold (frames_read E h w (stream_frame_events E (st_args s) img)).
    rewrite stream_frame_events_writes, stream_frame_events_frames.
    rewrite !(stream_frame_events_silent _ E) by reflexivity.
    simpl. fold img. rewrite Hw, He.
    split; [destruct (written_for E (st_args s) img); reflexivity |].
    split; [reflexivity |]. simpl. rewrite Hp. reflexivity.
Qed.

Lemma image_loop_result (E : env) (h w : Z) (paths : list string) :
  ∀ s s', image_loop E paths s = (s', Ok tt) -> loop_result E false h w s s'.
Proof.
  induction paths as [|p rest IH]; intros s s' H.
  - inversion H; subst. split; [reflexivity |]. split; [reflexivity |].
    exists []. rewrite app_nil_r. simpl. auto.
  - simpl in H. rewrite bind_run, emit_run in H.
    destruct (imread E p) as [img|] eqn:Him.
    + rewrite bind_run, stream_frame_run in H. simpl in H.
      apply IH in H as (Ha & Hf & t & Ht & Hw & He & Hp).
      simpl in Ha, Hf, Ht, Hw.
      split; [exact Ha |]. split; [exact Hf |].
      exists ([ImRead p] ++ stream_frame_events E (st_args s) img ++ t).
      split; [rewrite Ht, <- !app_assoc; reflexivity |].
      unfold encode_writes, frames_read, encoder_sizes, pipe_frames in *.
      rewrite !omap_app.
      fold (encode_writes (stream_frame_events E (st_args s) img)).
      fold (frames_read E h w (stream_frame_events E (st_args s) img)).
      rewrite stream_frame_events_writes, stream_frame_events_frames.
      rewrite !(stream_frame_events_silent _ E) by reflexivity.
      simpl. rewrite Him, Hw, He, Hp.
      split; [simpl; destruct (written_for E (st_args s) img); reflexivity |]. auto.
    + rewrite bind_run in H. discriminate.
Qed.

(** The loop on a video comes to an end: a unit of fuel per byte left in the
    pipe, and one more, is enough. *)
Lemma video_loop_total (E : env) (w h : Z) (fuel : nat) :
  ∀ s, (length (st_pipe s) < fuel)%nat -> is_Some (video_loop E fuel w h s).
Proof.
  induction fuel as [|fuel IH]; intros s Hlen; [lia |].
  rewrite video_loop_S, pipe_read_run. cbv zeta.
  set (k := if w * h * 3 <? 0 then length (st_pipe s) else Z.to_nat (w * h * 3)).
  destruct (take k (st_pipe s)) as [|b bs] eqn:Htake; [eauto |].
  rewrite bind_run, lift_run.
  destruct (frombuffer_reshape (b :: bs) h w) as [img|e]; [| eauto].
  rewrite stream_frame_run. apply IH. simpl.
  rewrite length_drop.
  assert (k ≠ 0)%nat by (intros ->; discriminate).
  assert (st_pipe s ≠ []) by (intros Hnil; rewrite Hnil in Htake; destruct k; discriminate).
  destruct (st_pipe s); [congruence | simpl in *; lia].
Qed.

(** ** C1: the writes of the streaming pipeline *)

Lemma stream_setup_init (E : env) (a : args) (fs : gmap string node) (s1 : state)
    (v : bool) (paths : list string) (w h : Z) :
  stream_setup E (init_state a fs) = (s1, Ok (v, paths, w, h)) ->
  same_but_fps a (st_args s1) ∧
  (v = true -> st_pipe s1 = decoder_stdout E (input a)) ∧
  encode_writes (st_trace s1) = [] ∧
  pipe_frames (st_trace s1) = [] ∧
  (∀ h' w', frames_read E h' w' (st_trace s1) = []) ∧
  ∃ ow oh,
    out_size w (outscale a) = Ok ow ∧ out_size h (outscale a) = Ok oh ∧
    encoder_sizes (st_trace s1) = [(ow, oh)].
Proof.
  intros H.
  pose proof (stream_setup_sizes _ _ _ _ _ _ _ H) as (ow & oh & Hw & Hh & Hs).
  apply stream_setup_inv in H
    as (s0 & ow' & oh' & Hgf & _ & _ & Ha & _ & Hp & Ht).
  pose proof (get_frames_init _ _ _ _ _ _ Hgf)
    as (Hsame & _ & _ & _ & _ & Hwr & _ & _ & Hpf & Hfr).
  rewrite Ha. split; [exact Hsame |].
  split.
  { intros ->. rewrite Hp. f_equal. symmetry. exact (f_equal input Hsame). }
  assert (Hsil : ∀ {B : Type} (f : event -> option B),
            (∀ x, f (DecoderStart x) = None) -> (∀ l, f (Print l) = None) ->
            (∀ x y z p q, f (EncoderStart x y z p q) = None) ->
            omap f (st_trace s1) = omap f (st_trace s0)).
  { intros B f H1 H2 H3. rewrite Ht, !omap_app. simpl. rewrite H3.
    unfold setup_events. rewrite omap_app.
    destruct v, (2160 <? oh'); simpl; rewrite ?H1, ?H2, ?app_nil_r; reflexivity. }
  unfold encode_writes, pipe_frames, frames_read in *.
  split; [rewrite Hsil by reflexivity; exact Hwr |].
  split; [rewrite Hsil by reflexivity; exact Hpf |].
  split; [intros h' w'; rewrite Hsil by reflexivity; apply Hfr |].
  exists ow, oh. simpl in Hw, Hh, Hs. auto.
Qed.

Lemma written_for_same (E : env) (a b : args) (img : image) :
  same_but_fps a b -> written_for E a img = written_for E b img.
Proof. intros H. unfold written_for. rewrite (same_but_fps_engine E a b _ H). reflexivity. Qed.

Lemma stream_close_run (v : bool) (s : state) :
  stream_close v s =
    (add_events s ((if v then [DecoderClose] else []) ++ [EncoderClose]), Ok tt).
Proof.
  unfold stream_close, add_events. destruct v;
    cbv beta iota delta [mbind M_bind mret M_ret emit]; simpl;
    rewrite <- ?app_assoc; reflexivity.
Qed.

Lemma inference_stream_inv (E : env) (a : args) (fs : gmap string node) (s' : state) :
  inference_stream E (init_state a fs) = Some (s', Ok tt) ->
  ∃ s1 s2 v paths w h,
    stream_setup E (init_state a fs) = (s1, Ok (v, paths, w, h)) ∧
    loop_result E v h w s1 s2 ∧
    s' = add_events s2 ((if v then [DecoderClose] else []) ++ [EncoderClose]).
Proof.
  unfold inference_stream, inference_stream_with. intros H.
  destruct (stream_setup E (init_state a fs)) as [s1 [[[[v paths] w] h]|e]] eqn:Hs;
    [| discriminate].
  exists s1.
  destruct v.
  - destruct (video_loop E _ w h s1) as [[s2 [[]|e]]|] eqn:Hl; try discriminate.
    rewrite stream_close_run in H. inversion H; subst; clear H.
    exists s2, true, paths, w, h. split; [reflexivity |].
    split; [eapply video_loop_result, Hl | reflexivity].
  - destruct (image_loop E paths s1) as [s2 [[]|e]] eqn:Hl; try discriminate.
    rewrite stream_close_run in H. inversion H; subst; clear H.
    exists s2, false, paths, w, h. split; [reflexivity |].
    split; [eapply image_loop_result, Hl | reflexivity].
Qed.

Lemma inference_stream_total (E : env) (a : args) (fs : gmap string node) :
  is_Some (inference_stream E (init_state a fs)).
Proof.
  unfold inference_stream, inference_stream_with.
  destruct (stream_setup E (init_state a fs)) as [s1 [[[[v paths] w] h]|e]] eqn:Hs;
    [| eauto].
  destruct v.
  - destruct (stream_setup_init _ _ _ _ _ _ _ _ Hs) as (_ & Hp & _).
    destruct (video_loop_total E w h
                (S (length (decoder_stdout E (input (st_args (init_state a fs)))))) s1)
      as [[s2 [u|e]] Hl].
    + rewrite (Hp eq_refl). simpl. lia.
    + rewrite Hl. eauto.
    + rewrite Hl. eauto.
  - destruct (image_loop E paths s1) as [s2 [u|e]]; eauto.
Qed.


Lemma written_or_failed (E : env) (a : args) (frames : list image) :
  (length (omap (written_for E a) frames)
   + length (List.filter (engine_fails E a) frames) = length frames)%nat.
Proof.
  induction frames as [|img rest IH]; [reflexivity |].
  cbn [omap list_omap List.filter length].
  unfold written_for at 1, engine_fails at 1.
  destruct (run_engine E a img); cbn [length]; lia.
Qed.

Lemma written_sizes (E : env) (a : args) (n : Z) (frames : list image) :
  (∀ img out, run_engine E a img = Enhanced out -> Z.of_nat (length (data out)) = n) ->
  Forall (fun b => Z.of_nat (length b) = n) (omap (written_for E a) frames).
Proof.
  intros Hsize. induction frames as [|img rest IH]; [constructor |].
  simpl. unfold written_for at 1.
  destruct (run_engine E a img) as [out|m] eqn:Hrun; [| exact IH].
  constructor; [eapply Hsize, Hrun | exact IH].
Qed.



(** ** C6: the options during a run *)

Lemma video_loop_args (E : env) (w h : Z) (fuel : nat) :
  ∀ s s' r, video_loop E fuel w h s = Some (s', r) -> st_args s' = st_args s.
Proof.
  induction fuel as [|fuel IH]; intros s s' r H; [discriminate |].
  rewrite video_loop_S, pipe_read_run in H. cbv zeta in H.
  destruct (take _ (st_pipe s)) as [|b bs].
  - inversion H; subst. reflexivity.
  - rewrite bind_run, lift_run in H.
    destruct (frombuffer_reshape (b :: bs) h w) as [img|e].
    + rewrite stream_frame_run in H. apply IH in H. exact H.
    + inversion H; subst. reflexivity.
Qed.

(** With an override of the frame rate, frame discovery assigns nothing. *)
Lemma get_frames_override (E : env) (x : bool) (s s' : state) (f : pynum)
    (r : result (bool * list string)) :
  fps (st_args s) = Some f ->
  get_frames E x s = (s', r) -> st_args s' = st_args s.
Proof.
  intros Hf H. unfold get_frames in H.
  apply bind_inv in H as [(s1 & a & Ha & H) | (e & Ha & _)]; run_prim Ha.
  rewrite Hf in H.
  apply bind_inv in H as [(s2 & v & Hmime & H) | (e & Hmime & _)];
    frame_in Hmime with (@eq args) event_print; apply frame_args in Hmime;
    [| congruence].
  apply bind_inv in H as [(s3 & vp & Hbody & H) | (e & Hbody & _)];
    frame_in Hbody with (@eq args) event_print; apply frame_args in Hbody;
    [| congruence].
  destruct vp as [is_video paths].
  apply bind_inv in H as [(s4 & a' & Ha' & H) | (e & Ha' & _)]; run_prim Ha'.
  assert (Hf4 : fps (st_args s4) = Some f) by congruence.
  rewrite Hf4 in H.
  apply bind_inv in H as [(s5 & u & Hu & H) | (e & Hu & _)]; run_prim Hu.
  run_prim H. congruence.
Qed.

Lemma setup_keeps_refl (a : args) : setup_keeps a a.
Proof. split; auto. Qed.

Lemma setup_keeps_trans (a b c : args) :
  setup_keeps a b -> setup_keeps b c -> setup_keeps a c.
Proof. intros [H1 H2] [H3 H4]. split; [congruence | auto]. Qed.

Lemma setup_keeps_input (f : args -> string) (a : args) :
  setup_keeps a (set_input (f a) a).
Proof. split; auto. Qed.

Lemma setup_keeps_model (f : args -> string) (a : args) :
  setup_keeps a (set_model_name (f a) a).
Proof. split; auto. Qed.

Lemma setup_keeps_face (a : args) : setup_keeps a (set_face_enhance false a).
Proof. split; [reflexivity | discriminate]. Qed.

Lemma main_setup_keeps (s s' : state) (r : result unit) :
  main_setup s = (s', r) -> setup_keeps (st_args s) (st_args s').
Proof.
  intros H.
  apply (preserves_apply (frame_rel setup_keeps (fun _ => True))) in H.
  - exact (frame_args _ _ _ _ H).
  - pose proof setup_keeps_refl. pose proof setup_keeps_trans.
    pose proof setup_keeps_face.
    pose proof (setup_keeps_input (fun a => Py.rstrip "\" (Py.rstrip "/" (input a)))).
    pose proof (setup_keeps_model (fun a => Py.split_head ".pth" (model_name a))).
    unfold main_setup. frame_tac.
Qed.

Lemma rest_of_stream_args (E : env) (v : bool) (paths : list string) (w h : Z)
    (fuel : nat) (s s' : state) (r : result unit) :
  match (if v then video_loop E fuel w h s else Some (image_loop E paths s)) with
  | None => None
  | Some (s2, Err e) => Some (s2, Err e)
  | Some (s2, Ok _) => Some (stream_close v s2)
  end = Some (s', r) ->
  st_args s' = st_args s.
Proof.
  intros H.
  assert (Hloop : ∀ s2 r2,
            (if v then video_loop E fuel w h s else Some (image_loop E paths s))
            = Some (s2, r2) -> st_args s2 = st_args s).
  { intros s2 r2 Hl. destruct v.
    - eapply video_loop_args, Hl.
    - inversion Hl as [Hi]. frame_in Hi with (@eq args) event_merge.
      symmetry. exact (frame_args _ _ _ _ Hi). }
  destruct (if v then video_loop E fuel w h s else Some (image_loop E paths s))
    as [[s2 [u|e]]|]; [| | discriminate].
  - rewrite stream_close_run in H. inversion H; subst. simpl. eapply Hloop. reflexivity.
  - inversion H; subst. eapply Hloop. reflexivity.
Qed.

Lemma stream_setup_args (E : env) (s s' : state)
    (r : result (bool * list string * Z * Z)) :
  stream_setup E s = (s', r) ->
  same_but_fps (st_args s) (st_args s') ∧
  (fps (st_args s) ≠ None -> st_args s' = st_args s).
Proof.
  intros H. split.
  - frame_in H with same_but_fps event_put. exact (frame_args _ _ _ _ H).
  - intros Hf. destruct (fps (st_args s)) as [f|] eqn:Hfps; [| congruence].
    unfold stream_setup in H.
    apply bind_inv in H as [(s1 & vp & Hgf & H) | (e & Hgf & _)];
      apply (get_frames_override _ _ _ _ _ _ Hfps) in Hgf; [| exact Hgf].
    destruct vp as [v paths].
    frame_in H with (@eq args) event_put. apply frame_args in H. congruence.
Qed.

Lemma enhance_phase_args (E : env) (s s' : state) (f : pynum)
    (r : result (string * string * option string)) :
  fps (st_args s) = Some f ->
  enhance_phase E s = (s', r) -> st_args s' = st_args s.
Proof.
  intros Hfps H. unfold enhance_phase in H.
  apply bind_inv in H as [(s1 & vp & Hgf & H) | (e & Hgf & _)];
    apply (get_frames_override _ _ _ _ _ _ Hfps) in Hgf; [| exact Hgf].
  destruct vp as [v paths].
  frame_in H with (@eq args) event_encoder_size. apply frame_args in H. congruence.
Qed.

Lemma inference_frames_args (E : env) (s s' : state) (r : result unit) :
  inference_frames E s = (s', r) ->
  same_but_fps (st_args s) (st_args s') ∧
  (fps (st_args s) ≠ None -> st_args s' = st_args s).
Proof.
  intros H. split.
  - frame_in H with same_but_fps event_encoder_size. exact (frame_args _ _ _ _ H).
  - intros Hf. destruct (fps (st_args s)) as [f|] eqn:Hfps; [| congruence].
    unfold inference_frames in H.
    apply bind_inv in H as [(s1 & x & Hph & H) | (e & Hph & _)];
      apply (enhance_phase_args _ _ _ _ _ Hfps) in Hph; [| exact Hph].
    destruct x as [[sff vn] le].
    frame_in H with (@eq args) event_encoder_size. apply frame_args in H. congruence.
Qed.

Lemma inference_stream_args (E : env) (s s' : state) (r : result unit) :
  inference_stream E s = Some (s', r) ->
  same_but_fps (st_args s) (st_args s') ∧
  (fps (st_args s) ≠ None -> st_args s' = st_args s).
Proof.
  unfold inference_stream, inference_stream_with. intros H.
  destruct (stream_setup E s) as [s1 [[[[v paths] w] h]|e]] eqn:Hs.
  - apply stream_setup_args in Hs as [H1 H2].
    apply rest_of_stream_args in H. rewrite H. auto.
  - inversion H; subst. eapply stream_setup_args, Hs.
Qed.

(** C6, as stated, fails: a run on an image without [--fps] ends with the
    frame rate 24 among its options. *)
Lemma options_not_read_only :
  ¬ options_read_only (Demo.world 1 1 1 [] 0)
      (Demo.options "x.jpg" Demo.scale_2 None) ∅.
Proof.
  intros [H _].
  specialize (H _ _ ltac:(vm_compute; reflexivity)).
  apply (f_equal fps) in H. vm_compute in H. discriminate.
Qed.

(** C6, amended: the pipelines leave every option but the frame rate as it
    is, whatever their outcome; the frame rate is assigned by frame
    discovery when there is no override, and left as it is when there is
    one. Before it starts a pipeline, [main] changes nothing in the options
    of the pipeline but the face enhancement, which it may switch off. *)
Theorem options_fixed_but_fps (E : env) (a : args) (fs : gmap string node) :
  (∀ s' r, inference_frames E (init_state a fs) = (s', r) ->
           same_but_fps a (st_args s') ∧ (fps a ≠ None -> st_args s' = a)) ∧
  (∀ s' r, inference_stream E (init_state a fs) = Some (s', r) ->
           same_but_fps a (st_args s') ∧ (fps a ≠ None -> st_args s' = a)) ∧
  (∀ s' r, main_setup (init_state a fs) = (s', r) -> setup_keeps a (st_args s')).
Proof.
  split; [| split].
  - intros s' r H. exact (inference_frames_args _ _ _ _ H).
  - intros s' r H. exact (inference_stream_args _ _ _ _ H).
  - intros s' r H. exact (main_setup_keeps _ _ _ H).
Qed.

Lemma options_fixed_but_fps_witness :
  same_but_fps (Demo.options "x.jpg" Demo.scale_2 None)
    (st_args (inference_frames (Demo.world 1 1 1 [] 0)
                (init_state (Demo.options "x.jpg" Demo.scale_2 None) ∅)).1) ∧
  st_args (inference_frames (Demo.world 1 1 1 [] 0)
             (init_state (Demo.options "x.jpg" Demo.scale_2 (Some Demo.rate_12)) ∅)).1
  = Demo.options "x.jpg" Demo.scale_2 (Some Demo.rate_12).
Proof.
  split.
  - destruct (options_fixed_but_fps (Demo.world 1 1 1 [] 0)
                (Demo.options "x.jpg" Demo.scale_2 None) ∅) as [H _].
    destruct (H _ _ ltac:(vm_compute; reflexivity)) as [Hs _]. exact Hs.
  - destruct (options_fixed_but_fps (Demo.world 1 1 1 [] 0)
                (Demo.options "x.jpg" Demo.scale_2 (Some Demo.rate_12)) ∅) as [H _].
    destruct (H _ _ ltac:(vm_compute; reflexivity)) as [_ Hs].
    apply Hs. discriminate.
Defined.

(** ** C2: the frames on which the engine fails *)

Lemma pool_writes_written (k : nat) (q : list msg) (fs : gmap string node)
    (out : image) (p : string) :
  (0 < k)%nat -> In (Item out p) q -> pool_writes k q fs !! p = Some File.
Proof.
  intros Hk. unfold pool_writes. destruct k as [|k]; [lia |]. clear Hk.
  assert (Hkeep : ∀ (l : list msg) (m : gmap string node), m !! p = Some File ->
            foldl (fun (m : gmap string node) x => match x with
                              | Item _ save_path => <[save_path := File]> m
                              | Quit => m
                              end) m l !! p = Some File).
  { induction l as [|x l IH]; intros m Hm; [exact Hm |].
    simpl. apply IH. destruct x as [o p'|]; [| exact Hm].
    destruct (decide (p' = p)) as [-> | Hne];
      [apply lookup_insert_eq | rewrite lookup_insert_ne by exact Hne; exact Hm]. }
  revert fs. induction q as [|x q IH]; intros fs Hin; [destruct Hin |].
  simpl. destruct Hin as [-> | Hin].
  - apply Hkeep, lookup_insert_eq.
  - apply IH, Hin.
Qed.

Lemma readers_phase (E : env) (a : args) (paths : list string) :
  readers_started (phase_events E a paths) = [paths].
Proof.
  unfold phase_events, readers_started. rewrite !omap_app. simpl.
  rewrite loop_events_silent by reflexivity.
  rewrite (omap_replicate_None event_reader (QuePut Quit)) by reflexivity.
  reflexivity.
Qed.

(** A run that starts the reader gets through its enhancement phase. *)
Lemma reader_started_inv (E : env) (a : args) (fs : gmap string node) (s' : state)
    (r : result unit) (paths : list string) :
  inference_frames E (init_state a fs) = (s', r) ->
  In paths (readers_started (st_trace s')) ->
  ∃ s1 x s0 v,
    enhance_phase E (init_state a fs) = (s1, Ok x) ∧
    merge_and_cleanup E x.1.1 x.1.2 x.2 s1 = (s', r) ∧
    get_frames E true (init_state a fs) = (s0, Ok (v, paths)).
Proof.
  intros H Hin.
  apply inference_frames_inv in H
    as [(e & H & ->) | (s1 & sff & vn & le & H1 & H2)].
  - exfalso. unfold enhance_phase in H.
    apply bind_inv in H as [(s0 & [v ps] & Hgf & H) | (e' & Hgf & _)].
    + apply bind_inv in H as [(s2 & a' & Ha & H) | (e' & Ha & He)]; [| run_prim Ha].
      run_prim Ha.
      apply bind_inv in H as [(s3 & u & Hmk & H) | (e' & Hmk & _)].
      * apply makedirs_inv in Hmk. subst s3.
        repeat (rewrite bind_run in H;
                first [ rewrite emit_run in H | rewrite frames_loop_run in H
                      | rewrite shutdown_consumers_run in H ];
                cbv beta iota zeta in H).
        rewrite ret_run in H. discriminate.
      * frame_in Hgf with same_but_fps event_reader.
        frame_in Hmk with (@eq args) event_reader.
        unfold readers_started in Hin.
        rewrite (frame_omap _ _ _ _ Hmk), (frame_omap _ _ _ _ Hgf) in Hin.
        destruct Hin.
    + frame_in Hgf with same_but_fps event_reader.
      unfold readers_started in Hin. rewrite (frame_omap _ _ _ _ Hgf) in Hin.
      destruct Hin.
  - pose proof H1 as Hph.
    apply enhance_phase_inv in H1 as (s0 & v & ps & Hgf & _ & _ & _ & _ & Ht & _).
    assert (Hrd : readers_started (st_trace s') = [ps]).
    { assert (Hm : readers_started (st_trace s') = readers_started (st_trace s1)).
      { frame_in H2 with (@eq args) event_reader.
        apply (frame_omap _ _ _ _ H2). }
      rewrite Hm, Ht. unfold readers_started. rewrite omap_app.
      fold (readers_started (phase_events E (st_args s0) ps)).
      rewrite readers_phase.
      pose proof Hgf as Hgf'. frame_in Hgf' with same_but_fps event_reader.
      rewrite (frame_omap _ _ _ _ Hgf'). reflexivity. }
    rewrite Hrd in Hin. destruct Hin as [<- | []].
    exists s1, (sff, vn, le), s0, v. auto.
Qed.

Lemma saved_or_failed (E : env) (a : args) (folder : string)
    (frames : list (string * image)) :
  (length (omap (frame_save_path E a folder) frames)
   + length (List.filter (fun f => engine_fails E a f.2) frames) = length frames)%nat.
Proof.
  induction frames as [|f rest IH]; [reflexivity |].
  cbn [omap list_omap List.filter length].
  unfold frame_save_path at 1, engine_fails at 1.
  destruct (run_engine E a f.2); [destruct (Py.splitext _) |]; cbn [length]; lia.
Qed.

Lemma failed_frame_effects (E : env) (a : args) (folder : string) (f : string * image) :
  engine_fails E a f.2 = true ->
  frame_save_path E a folder f = None ∧ ∃ m, frame_prints E a f = failure_lines m.
Proof.
  unfold engine_fails, frame_save_path, frame_prints.
  destruct (run_engine E a f.2) as [out|m]; [discriminate |]. eauto.
Qed.

(** C2, as stated, fails: of ten frames the fifth fails, and none of the
    lines printed has its name or its position. *)
Lemma failure_log_without_frame :
  ¬ failures_name_their_frame (Demo.world 1 1 10 [5%nat] 0)
      (Demo.options "clip.mp4" Demo.scale_2 None) ∅.
Proof.
  intros H.
  destruct (H (inference_frames (Demo.world 1 1 10 [5%nat] 0)
                 (init_state (Demo.options "clip.mp4" Demo.scale_2 None) ∅)).1
              (inference_frames (Demo.world 1 1 10 [5%nat] 0)
                 (init_state (Demo.options "clip.mp4" Demo.scale_2 None) ∅)).2
              (extracted_names "tmp_frames/clip" 10)
              4%nat "tmp_frames/clip/frame00000005.png" (Demo.pixel x05))
    as (line & Hin & Hname).
  - vm_compute. reflexivity.
  - vm_compute. left. reflexivity.
  - vm_compute. reflexivity.
  - vm_compute. reflexivity.
  - vm_compute in Hin. destruct Hin as [<- | [<- | []]]; vm_compute in Hname; discriminate.
Qed.

(** C2, amended: in file mode, for a frame on which the engine raises
    [RuntimeError], two lines are printed, the message of the error and a
    hint on the tile size, neither of which names the frame; no result is
    put on the queue for it; and the loop goes on: every other frame gets its
    result, so that the results and the failed frames add up to the frames.
    With at least one frame the run then returns normally, and with at least
    one consumer every result is on disk when the merge command is run. *)
Theorem failed_frames_skipped (E : env) (a : args) (fs : gmap string node)
    (s' : state) (r : result unit) (paths : list string) :
  inference_frames E (init_state a fs) = (s', r) ->
  In paths (readers_started (st_trace s')) ->
  let frames := zip paths (reader E paths) in
  let folder := save_frame_folder_of a in
  printed (st_trace s') = flat_map (frame_prints E a) frames ∧
  que_puts (st_trace s') =
    omap (frame_save_path E a folder) frames
    ++ replicate (Z.to_nat (consumer a)) Quit ∧
  (length (omap (frame_save_path E a folder) frames)
   + length (List.filter (fun f => engine_fails E a f.2) frames)
   = length frames)%nat ∧
  (∀ f, In f frames -> engine_fails E a f.2 = true ->
        frame_save_path E a folder f = None ∧
        ∃ m, frame_prints E a f = failure_lines m) ∧
  (frames ≠ [] -> r = Ok tt) ∧
  ∃ s1 x,
    enhance_phase E (init_state a fs) = (s1, Ok x) ∧
    (0 < consumer a ->
     ∀ out p, In (Item out p) (que_puts (st_trace s')) -> st_fs s1 !! p = Some File).
Proof.
  intros H Hin frames folder.
  destruct (reader_started_inv _ _ _ _ _ _ H Hin)
    as (s1 & [[sff vn] le] & s0 & v & Hph & Hmc & Hgf).
  simpl in Hmc.
  destruct (enhance_phase_init _ _ _ _ _ _ _ Hph)
    as (s0' & v' & paths' & Hgf' & Hsame & _ & -> & -> & -> & Hq & Hp & _ & Hnm & Hdir & Hfs).
  rewrite Hgf in Hgf'. inversion Hgf'; subst s0' v' paths'. clear Hgf'.
  fold frames in Hq, Hp, Hmc. fold folder in Hq, Hdir, Hfs, Hmc.
  assert (Hsil : printed (st_trace s') = printed (st_trace s1) ∧
                 que_puts (st_trace s') = que_puts (st_trace s1)).
  { pose proof Hmc as H1. frame_in H1 with (@eq args) event_print.
    pose proof Hmc as H2. frame_in H2 with (@eq args) event_put.
    split; [apply (frame_omap _ _ _ _ H1) | apply (frame_omap _ _ _ _ H2)]. }
  destruct Hsil as [Hsp Hsq]. rewrite Hsp, Hsq.
  split; [exact Hp |]. split; [exact Hq |].
  split; [apply saved_or_failed |].
  split; [intros f _; apply failed_frame_effects |].
  split.
  - intros Hne.
    unfold loop_extension in Hmc.
    destruct (last frames) as [f|] eqn:Hlast;
      [| apply last_None in Hlast; contradiction].
    destruct (same_but_fps_names _ _ Hsame) as (Hvn & Hsff & _).
    unfold folder in Hmc. rewrite Hvn, Hsff, merge_and_cleanup_some in Hmc.
    unfold folder in Hdir. rewrite Hsff in Hdir.
    destruct (cleanup_run _ (video_name_of (st_args s1)) _
                (after_merge_folder E (extension_after E a f) s1 Hdir))
      as (fs' & Hcl & _).
    rewrite Hcl in Hmc. inversion Hmc; subst. reflexivity.
  - exists s1, (folder, video_name_of a, loop_extension E a frames None).
    split; [exact Hph |].
    intros Hk out p Hitem. rewrite Hfs.
    eapply pool_writes_written; [lia | exact Hitem].
Qed.

(** ** C3: the consumer pool *)

Module PoolFacts.
Import Pool PoolInv.

Lemma count_app {A : Type} (f : A -> bool) (l1 l2 : list A) :
  count f (l1 ++ l2) = (count f l1 + count f l2)%nat.
Proof. unfold count. rewrite List.filter_app, length_app. reflexivity. Qed.

Lemma count_cons {A : Type} (f : A -> bool) (x : A) (l : list A) :
  count f (x :: l) = ((if f x then 1 else 0) + count f l)%nat.
Proof. unfold count. simpl. destruct (f x); reflexivity. Qed.

Lemma count_insert {A : Type} (f : A -> bool) (ws : list A) (i : nat) (w w' : A) :
  ws !! i = Some w ->
  (count f (<[i := w']> ws) + (if f w then 1 else 0)
   = count f ws + (if f w' then 1 else 0))%nat.
Proof.
  revert i. induction ws as [|y ws IH]; intros i Hi; [discriminate |].
  destruct i as [|i]; simpl in Hi.
  - inversion Hi; subst. simpl. rewrite !count_cons. lia.
  - simpl. rewrite !count_cons. specialize (IH i Hi). lia.
Qed.

(** Every step uses up some of what is left to do. *)
Lemma step_measure (σ σ' : pool) : step σ σ' -> (measure σ' < measure σ)%nat.
Proof.
  intros H. destruct H as [m sc q ws d | i out p sc q ws d Hi | i sc q ws d Hi
                          | i out p sc q ws d Hi]; unfold measure; simpl.
  - rewrite length_app. simpl. lia.
  - pose proof (count_insert is_holding ws i Waiting (Holding out p) Hi) as Hc.
    simpl in Hc. lia.
  - pose proof (count_insert is_holding ws i Waiting Done Hi) as Hc.
    simpl in Hc. lia.
  - pose proof (count_insert is_holding ws i (Holding out p) Waiting Hi) as Hc.
    simpl in Hc. lia.
Qed.

Lemma steps_measure (n : nat) (σ σ' : pool) :
  steps n σ σ' -> (n + measure σ' <= measure σ)%nat.
Proof.
  induction 1 as [σ | n σ1 σ2 σ3 Hs _ IH]; [lia |].
  apply step_measure in Hs. lia.
Qed.

Lemma step_balanced (σ σ' : pool) : step σ σ' -> balanced σ -> balanced σ'.
Proof.
  intros H. destruct H as [m sc q ws d | i out p sc q ws d Hi | i sc q ws d Hi
                          | i out p sc q ws d Hi]; unfold balanced; simpl.
  - rewrite <- app_assoc. simpl. auto.
  - pose proof (count_insert alive ws i Waiting (Holding out p) Hi) as Hc.
    simpl in Hc. rewrite count_cons. cbn [is_quit]. lia.
  - pose proof (count_insert alive ws i Waiting Done Hi) as Hc.
    simpl in Hc. rewrite count_cons. cbn [is_quit]. lia.
  - pose proof (count_insert alive ws i (Holding out p) Waiting Hi) as Hc.
    simpl in Hc. lia.
Qed.

Lemma steps_balanced (n : nat) (σ σ' : pool) :
  steps n σ σ' -> balanced σ -> balanced σ'.
Proof.
  induction 1 as [σ | n σ1 σ2 σ3 Hs _ IH]; [auto |].
  intros Hb. apply IH. eapply step_balanced; eassumption.
Qed.

Lemma count_replicate {A : Type} (f : A -> bool) (x : A) (n : nat) :
  count f (replicate n x) = if f x then n else 0%nat.
Proof.
  induction n as [|n IH]; [destruct (f x); reflexivity |].
  change (replicate (S n) x) with (x :: replicate n x).
  rewrite count_cons, IH. destruct (f x); reflexivity.
Qed.

Lemma init_balanced (k : nat) (sc : list msg) (d : gmap string node) :
  count is_quit sc = k -> balanced (init k sc d).
Proof.
  intros H. unfold balanced, init. simpl. rewrite H, count_replicate. reflexivity.
Qed.

Lemma count_zero_Forall {A : Type} (f : A -> bool) (l : list A) :
  count f l = 0%nat -> Forall (fun x => f x = false) l.
Proof.
  induction l as [|x l IH]; [constructor |].
  rewrite count_cons. destruct (f x) eqn:Hx; [discriminate |].
  intros H. constructor; [exact Hx | apply IH, H].
Qed.

Lemma count_pos_exists {A : Type} (f : A -> bool) (l : list A) :
  (0 < count f l)%nat -> ∃ i x, l !! i = Some x ∧ f x = true.
Proof.
  induction l as [|x l IH]; [unfold count; simpl; lia |].
  rewrite count_cons. destruct (f x) eqn:Hx.
  - intros _. exists 0%nat, x. auto.
  - intros H. destruct (IH H) as (i & y & Hi & Hy). exists (S i), y. auto.
Qed.

(** No deadlock: a balanced pool that cannot step has been joined. *)
Lemma stuck_joined (σ : pool) : balanced σ -> stuck σ -> joined σ.
Proof.
  destruct σ as [sc q ws d]. unfold balanced, stuck, joined. simpl.
  intros Hb Hstuck.
  destruct sc as [|m sc].
  2:{ exfalso. eapply Hstuck. apply step_put. }
  split; [reflexivity |]. rewrite app_nil_r in Hb.
  destruct (count alive ws) as [|n] eqn:Hlive.
  - apply count_zero_Forall in Hlive.
    eapply Forall_impl; [exact Hlive |].
    intros w Hw. destruct w; simpl in Hw; try discriminate. reflexivity.
  - exfalso.
    destruct (count_pos_exists alive ws ltac:(lia)) as (i & w & Hi & Hw).
    destruct w as [|out p|]; [| | discriminate].
    + destruct q as [|m q]; [unfold count in Hb; simpl in Hb; lia |].
      destruct m as [out p|].
      * eapply Hstuck. apply step_take_item, Hi.
      * eapply Hstuck. apply step_take_quit, Hi.
    + eapply Hstuck. eapply step_write, Hi.
Qed.

End PoolFacts.

Module PoolDisk.
Import Pool PoolInv PoolFacts.

Lemma held_insert (ws : list worker) (i : nat) (w w' : worker) (p : string) :
  ws !! i = Some w ->
  (p ∈ omap held_path (<[i := w']> ws) ∨ held_path w = Some p) ↔
  (p ∈ omap held_path ws ∨ held_path w' = Some p).
Proof.
  revert i. induction ws as [|y ws IH]; intros i Hi; [discriminate |].
  destruct i as [|i]; simpl in Hi.
  - inversion Hi; subst. simpl.
    destruct (held_path w) as [pw|] eqn:Hw, (held_path w') as [pw'|] eqn:Hw';
      rewrite ?elem_of_cons; split; intros H; destruct_or?; simplify_eq; auto.
  - simpl. specialize (IH i Hi).
    destruct (held_path y) as [py|]; rewrite ?elem_of_cons; [| exact IH].
    split; intros H; destruct_or?; simplify_eq; auto;
      [ destruct (proj1 IH (or_introl H)); auto
      | destruct (proj1 IH (or_intror H)); auto
      | destruct (proj2 IH (or_introl H)); auto
      | destruct (proj2 IH (or_intror H)); auto ].
Qed.

Lemma exists_done_insert (ws : list worker) (i : nat) (w' : worker) :
  w' ≠ Done ->
  Exists (fun w => w = Done) (<[i := w']> ws) -> Exists (fun w => w = Done) ws.
Proof.
  intros Hw. revert i. induction ws as [|y ws IH]; intros i H; [exact H |].
  destruct i as [|i]; simpl in H.
  - apply Exists_cons in H as [H | H]; [congruence |]. apply Exists_cons. auto.
  - apply Exists_cons in H as [H | H]; apply Exists_cons; [auto |].
    right. eapply IH, H.
Qed.

Lemma step_covers (target : gmap string node) (σ σ' : pool) :
  step σ σ' -> covers target σ -> covers target σ'.
Proof.
  intros H Hc. destruct H as [m sc q ws d | i out p' sc q ws d Hi | i sc q ws d Hi
                             | i out p' sc q ws d Hi]; unfold covers, pending in *;
    simpl in *; intros p; specialize (Hc p).
  - rewrite <- app_assoc. exact Hc.
  - pose proof (held_insert ws i Waiting (Holding out p') p Hi) as Hh. simpl in Hh.
    rewrite elem_of_app, elem_of_cons in Hc. rewrite elem_of_app.
    destruct Hc as [Hc1 Hc2]. split.
    + intros [H | H]; apply Hc1.
      * destruct (proj1 Hh (or_introl H)) as [? | Heq]; [auto |].
        inversion Heq; subst. auto.
      * auto.
    + intros Hn. apply Hc2. intros [H | [-> | H]].
      * apply Hn. left. destruct (proj2 Hh (or_introl H)) as [? | ?]; [auto | discriminate].
      * apply Hn. left. destruct (proj2 Hh (or_intror eq_refl)) as [? | ?]; [auto | discriminate].
      * apply Hn. auto.
  - pose proof (held_insert ws i Waiting Done p Hi) as Hh. simpl in Hh.
    rewrite elem_of_app in Hc. rewrite elem_of_app.
    destruct Hc as [Hc1 Hc2]. split.
    + intros [H | H]; apply Hc1; [| auto].
      destruct (proj1 Hh (or_introl H)) as [? | ?]; [auto | discriminate].
    + intros Hn. apply Hc2. intros [H | H]; apply Hn; [| auto].
      destruct (proj2 Hh (or_introl H)) as [? | ?]; [auto | discriminate].
  - pose proof (held_insert ws i (Holding out p') Waiting p Hi) as Hh. simpl in Hh.
    rewrite elem_of_app in Hc. rewrite elem_of_app.
    destruct Hc as [Hc1 Hc2]. split.
    + intros [H | H]; apply Hc1; [| auto].
      destruct (proj1 Hh (or_introl H)) as [? | ?]; [auto | discriminate].
    + intros Hn. destruct (decide (p = p')) as [-> | Hne].
      * rewrite lookup_insert_eq. apply Hc1.
        destruct (proj1 Hh (or_intror eq_refl)) as [? | ?]; [auto | discriminate].
      * rewrite lookup_insert_ne by congruence. apply Hc2.
        intros [H | H]; apply Hn; [| auto].
        destruct (proj2 Hh (or_introl H)) as [? | Heq]; [auto |].
        inversion Heq; congruence.
Qed.

Lemma app_replicate_head_item (its : list msg) (n : nat) (out : image) (p : string)
    (rest : list msg) :
  Item out p :: rest = its ++ replicate n Quit ->
  ∃ its', its = Item out p :: its' ∧ rest = its' ++ replicate n Quit.
Proof.
  destruct its as [|m its]; simpl; intros H.
  - destruct n; discriminate.
  - inversion H; subst. eauto.
Qed.

Lemma app_replicate_head_quit (its : list msg) (n : nat) (rest : list msg) :
  Forall (fun m => is_quit m = false) its ->
  Quit :: rest = its ++ replicate n Quit ->
  its = [] ∧ ∃ n', n = S n' ∧ rest = replicate n' Quit.
Proof.
  intros Hits H. destruct its as [|m its]; simpl in H.
  - split; [reflexivity |]. destruct n as [|n']; [discriminate |].
    inversion H. eauto.
  - inversion H; subst. inversion Hits; subst. discriminate.
Qed.

Lemma step_ordered (σ σ' : pool) : step σ σ' -> ordered σ -> ordered σ'.
Proof.
  intros H (its & n & Hl & Hits & Hdone).
  destruct H as [m sc q ws d | i out p' sc q ws d Hi | i sc q ws d Hi
                | i out p' sc q ws d Hi]; unfold ordered; simpl in *.
  - exists its, n. rewrite <- app_assoc. auto.
  - apply app_replicate_head_item in Hl as (its' & -> & Hl).
    exists its', n. split; [exact Hl |].
    split; [inversion Hits; assumption |].
    intros Hex. apply exists_done_insert in Hex; [| discriminate].
    specialize (Hdone Hex). discriminate.
  - apply app_replicate_head_quit in Hl as (-> & n' & -> & Hl); [| exact Hits].
    exists [], n'. auto.
  - exists its, n. split; [exact Hl |]. split; [exact Hits |].
    intros Hex. apply Hdone. eapply exists_done_insert; [| exact Hex]. discriminate.
Qed.

Lemma step_workers_length (σ σ' : pool) :
  step σ σ' -> length (workers σ') = length (workers σ).
Proof.
  intros H. destruct H; simpl; rewrite ?length_insert; reflexivity.
Qed.

Lemma steps_invariant (k : nat) (target : gmap string node) (n : nat) (σ σ' : pool) :
  steps n σ σ' -> invariant k target σ -> invariant k target σ'.
Proof.
  induction 1 as [σ | n σ1 σ2 σ3 Hs _ IH]; [auto |].
  intros [H1 H2 H3 H4]. apply IH. split.
  - eapply step_balanced; eassumption.
  - eapply step_ordered; eassumption.
  - eapply step_covers; eassumption.
  - rewrite (step_workers_length _ _ Hs). exact H4.
Qed.

Lemma write_all_lookup (q : list msg) (fs : gmap string node) (p : string) :
  (p ∈ omap item_path q -> write_all q fs !! p = Some File) ∧
  (p ∉ omap item_path q -> write_all q fs !! p = fs !! p).
Proof.
  revert fs. induction q as [|x q IH]; intros fs.
  - split; [intros H; inversion H | reflexivity].
  - simpl. destruct x as [out p'|]; simpl; [| apply IH].
    destruct (IH (<[p' := File]> fs)) as [IH1 IH2]. split.
    + intros Hin. apply elem_of_cons in Hin as [-> | Hin]; [| apply IH1, Hin].
      destruct (decide (p' ∈ omap item_path q)) as [Hin | Hnin]; [apply IH1, Hin |].
      rewrite (IH2 Hnin). apply lookup_insert_eq.
    + intros Hn. apply not_elem_of_cons in Hn as [Hne Hn].
      rewrite (IH2 Hn). apply lookup_insert_ne. congruence.
Qed.

Lemma pool_writes_write_all (k : nat) (q : list msg) (fs : gmap string node) :
  pool_writes (S k) q fs = write_all q fs.
Proof. reflexivity. Qed.

Lemma init_invariant (k : nat) (its : list msg) (d : gmap string node) :
  Forall (fun m => is_quit m = false) its ->
  invariant k (write_all (its ++ replicate k Quit) d) (init k (its ++ replicate k Quit) d).
Proof.
  intros Hits. split.
  - apply init_balanced. rewrite count_app, count_replicate. simpl.
    assert (count is_quit its = 0%nat) as ->; [| reflexivity].
    induction Hits as [|m l Hm _ IH]; [reflexivity |].
    rewrite count_cons, Hm. exact IH.
  - exists its, k. simpl. split; [reflexivity |]. split; [exact Hits |].
    intros Hex. exfalso. apply Exists_exists in Hex as (w & Hw & ->).
    apply elem_of_replicate in Hw as [Hw _]. discriminate.
  - intros p. unfold pending, init. simpl.
    assert (Hnone : omap held_path (replicate k Waiting) = []).
    { apply omap_replicate_None. reflexivity. }
    rewrite Hnone. simpl. apply write_all_lookup.
  - simpl. apply length_replicate.
Qed.

(** The disk of a joined pool with at least one consumer: everything the
    loop has put is written, and the queue is empty. *)
Lemma joined_disk (k : nat) (target : gmap string node) (σ : pool) :
  (0 < k)%nat -> invariant k target σ -> joined σ ->
  queue σ = [] ∧ disk σ = target.
Proof.
  intros Hk [Hb (its & n & Hl & Hits & Hdone) Hc Hw] [Hsc Hall].
  destruct σ as [sc q ws d]. simpl in *. subst sc. rewrite app_nil_r in *.
  assert (Hlive : count alive ws = 0%nat).
  { clear -Hall. induction Hall as [|w l Hw _ IH]; [reflexivity |].
    rewrite count_cons, Hw. exact IH. }
  assert (Hnil : its = []).
  { apply Hdone. destruct ws as [|w ws]; [simpl in Hw; lia |].
    inversion Hall; subst. apply Exists_cons. auto. }
  subst its. simpl in Hl. unfold balanced in Hb. simpl in Hb.
  rewrite app_nil_r in Hb. rewrite Hl, count_replicate, Hlive in Hb. simpl in Hb.
  subst n. simpl in Hl. split; [exact Hl |].
  apply map_eq. intros p. symmetry. apply Hc.
  unfold pending. simpl. rewrite Hl, app_nil_r.
  assert (Hheld : omap held_path ws = []).
  { clear -Hall. induction Hall as [|w l Hw _ IH]; [reflexivity |].
    simpl. rewrite Hw. exact IH. }
  rewrite Hheld. apply not_elem_of_nil.
Qed.

(** Without a consumer nothing is taken from the queue. *)
Lemma steps_no_worker (n : nat) (σ σ' : pool) :
  steps n σ σ' -> workers σ = [] -> workers σ' = [] ∧ disk σ' = disk σ.
Proof.
  induction 1 as [σ | n σ1 σ2 σ3 Hs _ IH]; [auto |].
  intros Hw.
  assert (H2 : workers σ2 = [] ∧ disk σ2 = disk σ1).
  { destruct Hs as [m sc q ws d | i out p' sc q ws d Hi | i sc q ws d Hi
                   | i out p' sc q ws d Hi]; simpl in *; subst;
      try discriminate; auto. }
  destruct H2 as [H2 H3]. destruct (IH H2) as [H4 H5]. split; congruence.
Qed.

End PoolDisk.

Lemma save_paths_items (E : env) (a : args) (folder : string)
    (frames : list (string * image)) :
  Forall (fun m => Pool.is_quit m = false) (omap (frame_save_path E a folder) frames).
Proof.
  induction frames as [|f rest IH]; [constructor |].
  simpl. destruct (frame_save_path E a folder f) as [m|] eqn:Hm; [| exact IH].
  constructor; [| exact IH].
  unfold frame_save_path in Hm.
  destruct (run_engine E a f.2); [| discriminate].
  destruct (Py.splitext _). inversion Hm. reflexivity.
Qed.



(** ** The runs of the scenarios *)

Lemma failed_frames_skipped_witness :
  let E := Demo.world 1 1 10 [5%nat] 0 in
  let a := Demo.options "clip.mp4" Demo.scale_2 None in
  let run := inference_frames E (init_state a ∅) in
  let frames := zip (extracted_names "tmp_frames/clip" 10)
                    (reader E (extracted_names "tmp_frames/clip" 10)) in
  let folder := save_frame_folder_of a in
  printed (st_trace run.1) = flat_map (frame_prints E a) frames ∧
  que_puts (st_trace run.1) =
    omap (frame_save_path E a folder) frames
    ++ replicate (Z.to_nat (consumer a)) Quit ∧
  (length (omap (frame_save_path E a folder) frames)
   + length (List.filter (fun f => engine_fails E a f.2) frames)
   = length frames)%nat ∧
  (∀ f, In f frames -> engine_fails E a f.2 = true ->
        frame_save_path E a folder f = None ∧
        ∃ m, frame_prints E a f = failure_lines m) ∧
  (frames ≠ [] -> run.2 = Ok tt) ∧
  ∃ s1 x,
    enhance_phase E (init_state a ∅) = (s1, Ok x) ∧
    (0 < consumer a ->
     ∀ out p, In (Item out p) (que_puts (st_trace run.1)) -> st_fs s1 !! p = Some File).
Proof.
  apply (failed_frames_skipped (Demo.world 1 1 10 [5%nat] 0)
           (Demo.options "clip.mp4" Demo.scale_2 None) ∅).
  - vm_compute. reflexivity.
  - vm_compute. left. reflexivity.
Defined.

(** Ten frames of which the fifth fails: nine results and the four
    sentinels are put, the two lines of the failure are printed, the run
    returns, and before the merge command the folder of the saved frames
    holds nine files. *)
Example ten_frames_fifth_fails :
  let E := Demo.world 1 1 10 [5%nat] 0 in
  let a := Demo.options "clip.mp4" Demo.scale_2 None in
  let run := inference_frames E (init_state a ∅) in
  let phase := enhance_phase E (init_state a ∅) in
  run.2 = Ok tt ∧
  printed (st_trace run.1) = failure_lines "CUDA out of memory" ∧
  length (omap item_path (que_puts (st_trace run.1))) = 9%nat ∧
  Pool.count Pool.is_quit (que_puts (st_trace run.1)) = 4%nat ∧
  length (List.filter (is_under "results/clip/frames_tmpout")
            (map fst (map_to_list (st_fs phase.1)))) = 9%nat ∧
  List.filter (is_under "results/clip/frames_tmpout")
    (map fst (map_to_list (st_fs run.1))) = [].
Proof. vm_compute. repeat split. Qed.

Lemma merge_pattern_extension_witness :
  let E := Demo.world 1 1 3 [3%nat] 0 in
  let a := Demo.options "clip.mp4" Demo.scale_2 None in
  let run := inference_frames E (init_state a ∅) in
  ∃ s1 v paths path img,
    get_frames E true (init_state a ∅) = (s1, Ok (v, paths)) ∧
    last (zip paths (reader E paths)) = Some (path, img) ∧
    let raw := (Py.splitext (Py.basename path)).2 in
    let final := if engine_fails E a img then raw
                 else save_extension a (img_mode img) raw in
    merge_frames (merge_cmd_of (set_fps (Some (PFloat (Float.dyadic 30 0))) a) ".png")
      = save_frame_folder_of a +:+ "/frame%08d_out." +:+ final ∧
    (raw = "" ∨ ∃ x, raw = String "." x) ∧
    (has_char "." (ext a) = false ->
     ∀ f out p,
       In f (zip paths (reader E paths)) ->
       frame_save_path E a (save_frame_folder_of a) f = Some (Item out p) ->
       picked_up (save_frame_folder_of a) final p ->
       save_extension a (img_mode f.2) (Py.splitext (Py.basename f.1)).2 = final).
Proof.
  apply (merge_pattern_extension (Demo.world 1 1 3 [3%nat] 0)
           (Demo.options "clip.mp4" Demo.scale_2 None) ∅
           (inference_frames (Demo.world 1 1 3 [3%nat] 0)
              (init_state (Demo.options "clip.mp4" Demo.scale_2 None) ∅)).1
           (inference_frames (Demo.world 1 1 3 [3%nat] 0)
              (init_state (Demo.options "clip.mp4" Demo.scale_2 None) ∅)).2).
  - vm_compute. reflexivity.
  - vm_compute. left. reflexivity.
Defined.

(** The engine fails on the last of three frames: the pattern of the merge
    command ends in two dots and the extension, and stands for none of the
    two frames saved. *)
Example last_frame_fails_pattern :
  merge_cmds (st_trace (inference_frames (Demo.world 1 1 3 [3%nat] 0)
                (init_state (Demo.options "clip.mp4" Demo.scale_2 None) ∅)).1)
  = [mkMerge (Some (PFloat (Float.dyadic 30 0)))
       "results/clip/frames_tmpout/frame%08d_out..png" "clip.mp4"
       "results/clip_out.mp4"].
Proof. vm_compute. reflexivity. Qed.

(** * Further properties *)

(** ** [main]: the model and the options *)

Lemma main_setup_run (s : state) :
  main_setup s =
    let a := normalised (st_args s) in
    if negb (has_weights (st_fs s) (model_name a)) then
      (set_args s a, Err (ValueError ("Model " +:+ model_name a +:+ " does not exist.")))
    else if negb (existsb (String.eqb (model_name a)) known_models) then
      (set_args s a, Err (NameError "name 'netscale' is not defined"))
    else if Py.contains "anime" (model_name a) && face_enhance a then
      makedirs (output a)
        (add_events (set_args s (set_face_enhance false a)) [Print anime_notice])
    else makedirs (output a) (set_args s a).
Proof.
  destruct s as [a fs p t].
  unfold main_setup, normalised, has_weights, set_args, add_events.
  cbv beta iota zeta delta [mbind M_bind mret M_ret modify_args get_args isfile get_fs
                       raise print emit st_args st_fs st_pipe st_trace].
  set (a1 := set_model_name _ _).
  destruct (bool_decide _ || bool_decide _); cbn [negb]; [| reflexivity].
  destruct (existsb _ known_models); cbn [negb]; [| reflexivity].
  destruct (Py.contains "anime" (model_name a1) && face_enhance a1); reflexivity.
Qed.

Lemma makedirs_run (p : string) (s : state) :
  makedirs p s =
    if existsb (fun q => bool_decide (st_fs s !! q = Some File)) (makedirs_chain p)
    then (s, Err (ExternalError "FileExistsError"))
    else (set_fs s (makedirs_fs p (st_fs s)), Ok tt).
Proof.
  unfold makedirs, makedirs_fs, set_fs.
  cbv beta iota zeta delta [mbind M_bind get_fs raise put_fs].
  destruct (existsb _ _); reflexivity.
Qed.

(** X1: [main] looks for the weights before anything else: without them it
    raises [ValueError], and has neither created the output folder nor
    started a pipeline. *)
Theorem main_missing_weights (E : env) (s : state) :
  has_weights (st_fs s) (Py.split_head ".pth" (model_name (st_args s))) = false ->
  ∃ s',
    main E s = Some (s', Err (ValueError ("Model "
                 +:+ Py.split_head ".pth" (model_name (st_args s))
                 +:+ " does not exist."))) ∧
    st_fs s' = st_fs s ∧ st_trace s' = st_trace s.
Proof.
  intros H. change (Py.split_head _ _) with (model_name (normalised (st_args s))) in H.
  unfold main. rewrite main_setup_run. cbv zeta. rewrite H. simpl.
  eexists. split; [reflexivity |]. split; reflexivity.
Qed.

(** X2: A model that is not one of the five built-in ones cannot be used, even
    with its weights in place: [netscale] is unbound and [main] raises
    [NameError] before it creates the output folder or starts a pipeline. *)
Theorem main_unknown_model (E : env) (s : state) :
  has_weights (st_fs s) (Py.split_head ".pth" (model_name (st_args s))) = true ->
  ¬ In (Py.split_head ".pth" (model_name (st_args s))) known_models ->
  ∃ s' m,
    main E s = Some (s', Err (NameError m)) ∧
    st_fs s' = st_fs s ∧ st_trace s' = st_trace s.
Proof.
  intros Hw Hk. change (Py.split_head _ _) with (model_name (normalised (st_args s))) in Hw.
  unfold main. rewrite main_setup_run. cbv zeta. rewrite Hw.
  cbn [negb].
  destruct (existsb _ known_models) eqn:Hex.
  - exfalso. apply Hk. apply existsb_exists in Hex as (x & Hin & Hx).
    apply String.eqb_eq in Hx. simpl in Hx. rewrite Hx. exact Hin.
  - simpl. eexists _, _. split; [reflexivity |]. split; reflexivity.
Qed.

Lemma main_setup_ok (s s' : state) :
  main_setup s = (s', Ok tt) ->
  let a := normalised (st_args s) in
  let anime := Py.contains "anime" (model_name a) && face_enhance a in
  has_weights (st_fs s) (model_name a) = true ∧
  In (model_name a) known_models ∧
  st_args s' = (if anime then set_face_enhance false a else a) ∧
  st_trace s' = st_trace s ++ (if anime then [Print anime_notice] else []) ∧
  existsb (fun q => bool_decide (st_fs s !! q = Some File))
          (makedirs_chain (output a)) = false ∧
  st_fs s' = makedirs_fs (output a) (st_fs s).
Proof.
  rewrite main_setup_run. cbv zeta.
  destruct (has_weights _ _); cbn [negb]; [| discriminate].
  destruct (existsb _ known_models) eqn:Hk; cbn [negb]; [| discriminate].
  apply existsb_exists in Hk as (x & Hin & Hx). apply String.eqb_eq in Hx.
  intros H. split; [reflexivity |]. split; [rewrite Hx; exact Hin |].
  destruct (Py.contains _ _ && face_enhance _);
    rewrite makedirs_run in H; simpl in H;
    destruct (existsb _ (makedirs_chain _)); inversion H; subst; clear H;
    simpl; rewrite ?app_nil_r; auto.
Qed.

(** X3: With an anime model the face enhancer is never used: [main] switches the
    option off, says so when it was on, and the pipelines then call the
    upsampler on every frame. *)
Theorem anime_never_face_enhanced (E : env) (s s' : state) :
  main_setup s = (s', Ok tt) ->
  Py.contains "anime" (model_name (st_args s')) = true ->
  face_enhance (st_args s') = false ∧
  (∀ img, run_engine E (st_args s') img = upsampler_enhance E img (outscale (st_args s))) ∧
  printed (st_trace s') =
    printed (st_trace s) ++ (if face_enhance (st_args s) then [anime_notice] else []).
Proof.
  intros H Ha. apply main_setup_ok in H as (_ & _ & Hargs & Ht & _ & _).
  cbv zeta in Hargs, Ht.
  assert (Hm : model_name (st_args s') = model_name (normalised (st_args s))).
  { rewrite Hargs. destruct (_ && _); reflexivity. }
  rewrite Hm in Ha. rewrite Ha in Hargs, Ht. cbn [andb] in Hargs, Ht.
  change (face_enhance (normalised (st_args s))) with (face_enhance (st_args s)) in *.
  assert (Hf : face_enhance (st_args s') = false).
  { rewrite Hargs. destruct (face_enhance (st_args s)) eqn:Hfe; [reflexivity | exact Hfe]. }
  split; [exact Hf |]. split.
  - intros img. unfold run_engine. rewrite Hf. f_equal.
    rewrite Hargs. destruct (face_enhance (st_args s)); reflexivity.
  - rewrite Ht. unfold printed. rewrite omap_app.
    destruct (face_enhance (st_args s)); reflexivity.
Qed.

Lemma makedirs_fs_keeps (q : string) (fs : gmap string node) (p : string) (x : node) :
  existsb (fun k => bool_decide (fs !! k = Some File)) (makedirs_chain q) = false ->
  fs !! p = Some x -> makedirs_fs q fs !! p = Some x.
Proof.
  unfold makedirs_fs. generalize (makedirs_chain q) as l.
  induction l as [|k l IH]; intros Hex Hp; [exact Hp |].
  simpl in Hex. apply orb_false_elim in Hex as [Hk Hl].
  simpl. destruct (decide (k = p)) as [-> | Hne].
  - rewrite lookup_insert_eq. rewrite Hp in Hk.
    destruct x; [reflexivity |]. rewrite bool_decide_eq_false in Hk. congruence.
  - rewrite lookup_insert_ne by exact Hne. apply IH; assumption.
Qed.

Lemma makedirs_fs_new (q : string) (fs : gmap string node) (p : string) :
  makedirs_fs q fs !! p = Some File -> fs !! p = Some File.
Proof.
  unfold makedirs_fs. generalize (makedirs_chain q) as l.
  induction l as [|k l IH]; intros Hp; [exact Hp |].
  simpl in Hp. destruct (decide (k = p)) as [-> | Hne].
  - rewrite lookup_insert_eq in Hp. discriminate.
  - rewrite lookup_insert_ne in Hp by exact Hne. apply IH, Hp.
Qed.

(** X4: When [main] gets as far as a pipeline the output folder is there, and
    nothing that was on disk has been removed, replaced or turned into a
    file. It stops with [FileExistsError] only where a file is in the way
    of the output folder, and has then changed nothing on disk. *)
Theorem main_output_folder (s s' : state) (r : result unit) :
  main_setup s = (s', r) ->
  (r = Ok tt ->
   st_fs s' !! output (st_args s') = Some Dir ∧
   (∀ p x, st_fs s !! p = Some x -> st_fs s' !! p = Some x) ∧
   (∀ p, st_fs s' !! p = Some File -> st_fs s !! p = Some File)) ∧
  (∀ m, r = Err (ExternalError m) ->
   st_fs s' = st_fs s ∧
   ∃ q, In q (makedirs_chain (output (st_args s))) ∧ st_fs s !! q = Some File).
Proof.
  intros H. split.
  - intros ->. apply main_setup_ok in H as (_ & _ & Ha & _ & Hex & Hfs).
    cbv zeta in Ha, Hex, Hfs.
    assert (Ho : output (st_args s') = output (normalised (st_args s))).
    { rewrite Ha. destruct (_ && _); reflexivity. }
    rewrite Ho, Hfs. split; [apply makedirs_fs_lookup |]. split.
    + intros p x. apply makedirs_fs_keeps, Hex.
    + intros p. apply makedirs_fs_new.
  - intros m ->. rewrite main_setup_run in H. cbv zeta in H.
    destruct (has_weights _ _); cbn [negb] in H; [| inversion H].
    destruct (existsb _ known_models); cbn [negb] in H; [| inversion H].
    change (output (normalised (st_args s))) with (output (st_args s)) in H.
    assert (Hmk : ∀ s0, st_fs s0 = st_fs s ->
              makedirs (output (st_args s)) s0 = (s', Err (ExternalError m)) ->
              st_fs s' = st_fs s ∧
              ∃ q, In q (makedirs_chain (output (st_args s))) ∧ st_fs s !! q = Some File).
    { intros s0 H0 Hm. rewrite makedirs_run, H0 in Hm.
      destruct (existsb _ (makedirs_chain _)) eqn:Hex; inversion Hm; subst.
      split; [exact H0 |].
      apply existsb_exists in Hex as (q & Hin & Hq).
      exists q. split; [exact Hin |]. apply bool_decide_eq_true in Hq. exact Hq. }
    destruct (_ && _); eapply Hmk; try exact H; reflexivity.
Qed.

(** ** [main]: the input path and the name of the model *)

Lemma rstrip_last (c : ascii) (s : string) : last_char (Py.rstrip c s) ≠ Some c.
Proof.
  induction s as [|a r IH]; [discriminate |].
  simpl. destruct (Py.rstrip c r) as [|b r'] eqn:Hr.
  - destruct (Ascii.eqb_spec a c) as [-> | Hne]; [discriminate |].
    simpl. congruence.
  - exact IH.
Qed.

Lemma rstrip_none (c : ascii) (s : string) :
  has_char c s = false -> Py.rstrip c s = s.
Proof.
  induction s as [|a r IH]; [reflexivity |].
  cbn [has_char]. intros H. apply orb_false_elim in H as [Ha Hr].
  simpl. rewrite (IH Hr). destruct r; [rewrite Ha |]; reflexivity.
Qed.

Lemma has_char_rstrip (d c : ascii) (s : string) :
  has_char d s = false -> has_char d (Py.rstrip c s) = false.
Proof.
  induction s as [|a r IH]; [reflexivity |].
  cbn [has_char]. intros H. apply orb_false_elim in H as [Ha Hr].
  simpl. specialize (IH Hr). destruct (Py.rstrip c r) as [|b r'].
  - destruct (Ascii.eqb a c); [reflexivity |]. cbn [has_char]. rewrite Ha. reflexivity.
  - cbn [has_char] in *. rewrite Ha. exact IH.
Qed.

Lemma rstrip_append (c : ascii) (s : string) :
  last_char s ≠ Some c -> Py.rstrip c (s +:+ String c "") = s.
Proof.
  induction s as [|a r IH]; intros H.
  - simpl. rewrite Ascii.eqb_refl. reflexivity.
  - rewrite append_cons. simpl. destruct r as [|b r'].
    + rewrite append_nil_l. simpl. rewrite Ascii.eqb_refl.
      destruct (Ascii.eqb_spec a c) as [-> | _]; [contradiction | reflexivity].
    + rewrite IH by exact H. reflexivity.
Qed.

Lemma prefix_nil_r (p : string) : String.prefix p "" = true -> p = "".
Proof. destruct p; [reflexivity | discriminate]. Qed.

Lemma prefix_append_r (p x y : string) :
  String.prefix p x = true -> String.prefix p (x +:+ y) = true.
Proof.
  revert x. induction p as [|c p IH]; intros x H; [destruct (x +:+ y); reflexivity |].
  destruct x as [|a x]; [discriminate |].
  rewrite append_cons, prefix_cons in *.
  destruct (ascii_dec c a); [apply IH, H | discriminate].
Qed.

(** [split_head] gives a prefix of the text. *)
Lemma split_head_prefix (sep s : string) :
  ∃ rest, s = Py.split_head sep s +:+ rest.
Proof.
  induction s as [|a r IH]; cbn [Py.split_head].
  - exists "". destruct (String.prefix sep ""); reflexivity.
  - destruct (String.prefix sep (String a r)).
    + exists (String a r). reflexivity.
    + destruct IH as [rest IH]. exists rest. rewrite append_cons, <- IH. reflexivity.
Qed.

Lemma split_head_clean (sep s : string) :
  sep ≠ "" -> Py.contains sep (Py.split_head sep s) = false.
Proof.
  intros Hsep.
  assert (Hnil : Py.contains sep "" = false).
  { destruct sep; [contradiction | reflexivity]. }
  induction s as [|a r IH]; cbn [Py.split_head].
  - destruct (String.prefix sep ""); exact Hnil.
  - destruct (String.prefix sep (String a r)) eqn:Hp; [exact Hnil |].
    cbn [Py.contains]. rewrite IH, orb_false_r.
    destruct (String.prefix sep (String a (Py.split_head sep r))) eqn:Hq;
      [| reflexivity].
    destruct (split_head_prefix sep r) as [rest Hrest].
    apply (prefix_append_r _ _ rest) in Hq.
    rewrite append_cons, <- Hrest in Hq. congruence.
Qed.

Lemma split_head_pth (n : string) :
  has_char "." n = false -> Py.split_head ".pth" (n +:+ ".pth") = n.
Proof.
  induction n as [|a r IH]; intros H; [reflexivity |].
  cbn [has_char] in H. apply orb_false_elim in H as [Ha Hr].
  rewrite append_cons. cbn [Py.split_head]. rewrite prefix_cons.
  destruct (ascii_dec "." a) as [<- | _]; [discriminate |].
  rewrite (IH Hr). reflexivity.
Qed.

(** X5: [main] strips the input path of its trailing slashes, then of its
    trailing backslashes, and cuts the name of the model at [.pth]: the
    pipelines see an input that does not end in a backslash, nor in a slash
    when it has no backslash, and a model name without [.pth]; a built-in
    name given with the extension of its weights file is that name. *)
Theorem main_normalises_names (s s' : state) (r : result unit) :
  main_setup s = (s', r) ->
  last_char (input (st_args s')) ≠ Some "\"%char ∧
  (has_char "\" (input (st_args s)) = false ->
   last_char (input (st_args s')) ≠ Some "/"%char) ∧
  (∀ p, input (st_args s) = p +:+ "/" -> last_char p ≠ Some "/"%char ->
        has_char "\" p = false -> input (st_args s') = p) ∧
  Py.contains ".pth" (model_name (st_args s')) = false ∧
  (∀ n, model_name (st_args s) = n +:+ ".pth" -> has_char "." n = false ->
        model_name (st_args s') = n).
Proof.
  intros H.
  assert (Ha : input (st_args s') = Py.rstrip "\" (Py.rstrip "/" (input (st_args s))) ∧
               model_name (st_args s') = Py.split_head ".pth" (model_name (st_args s))).
  { rewrite main_setup_run in H. cbv zeta in H.
    destruct (negb _); [inversion H; subst; split; reflexivity |].
    destruct (negb _); [inversion H; subst; split; reflexivity |].
    destruct (_ && _); rewrite makedirs_run in H;
      destruct (existsb _ (makedirs_chain _)); inversion H; subst; split; reflexivity. }
  destruct Ha as [Hi Hm]. rewrite Hi, Hm.
  split; [apply rstrip_last |]. split; [| split; [| split]].
  - intros Hb. rewrite (rstrip_none "\") by (apply has_char_rstrip, Hb).
    apply rstrip_last.
  - intros p -> Hl Hb. rewrite rstrip_append by exact Hl.
    apply rstrip_none, Hb.
  - apply split_head_clean. discriminate.
  - intros n -> Hn. apply split_head_pth, Hn.
Qed.

(** ** What frame discovery and the streaming pipeline leave alone *)

Lemma reads_only_refl (s : state) : reads_only s s.
Proof. repeat split. Qed.

Lemma reads_only_trans (s1 s2 s3 : state) :
  reads_only s1 s2 -> reads_only s2 s3 -> reads_only s1 s3.
Proof. unfold reads_only. intros (-> & -> & ->) (-> & -> & ->). auto. Qed.

Lemma same_disk_refl (s : state) : same_disk s s.
Proof. reflexivity. Qed.

Lemma same_disk_trans (s1 s2 s3 : state) :
  same_disk s1 s2 -> same_disk s2 s3 -> same_disk s1 s3.
Proof. unfold same_disk. congruence. Qed.

Lemma modify_args_reads_only (f : args -> args) : preserves reads_only (modify_args f).
Proof. intros s s' r H. inversion H; subst. repeat split. Qed.

Lemma modify_args_same_disk (f : args -> args) : preserves same_disk (modify_args f).
Proof. intros s s' r H. inversion H; subst. reflexivity. Qed.

Lemma emit_same_disk (e : event) : preserves same_disk (emit e).
Proof. intros s s' r H. inversion H; subst. reflexivity. Qed.

Lemma put_pipe_same_disk (p : list byte) : preserves same_disk (put_pipe p).
Proof. intros s s' r H. inversion H; subst. reflexivity. Qed.

Create HintDb keep.

#[local] Hint Resolve modify_args_reads_only modify_args_same_disk emit_same_disk
  put_pipe_same_disk : keep.

(** Break a goal [preserves R m], for a reflexive and transitive [R], along
    the structure of [m]. *)
Ltac keep_step Hrefl Htrans :=
  first
    [ solve [ eauto with keep ]
    | apply preserves_ret; exact Hrefl
    | apply preserves_raise; exact Hrefl
    | apply preserves_lift; exact Hrefl
    | apply preserves_get_args; exact Hrefl
    | apply preserves_get_fs; exact Hrefl
    | apply preserves_get_pipe; exact Hrefl
    | apply preserves_get_trace; exact Hrefl
    | apply preserves_bind; [ exact Htrans | | intros ? ]
    | match goal with
      | |- preserves _ (if ?b then _ else _) => destruct b
      | |- preserves _ (match ?x with _ => _ end) => destruct x
      end ].

Ltac keep_tac Hrefl Htrans := repeat first [ progress unfold print | keep_step Hrefl Htrans ].

Lemma get_frames_no_extract (E : env) : preserves reads_only (get_frames E false).
Proof.
  unfold get_frames, mime_startswith, video_streams_of, first_stream, glob_star.
  keep_tac reads_only_refl reads_only_trans.
Qed.

(** X6: Frame discovery without extraction, as the streaming pipeline calls it,
    only reads: whatever the input and whatever the outcome, the disk and
    the trace are as before; the one thing it changes is the frame rate
    among the options. *)
Theorem get_frames_only_reads (E : env) (s s' : state) (r : result (bool * list string)) :
  get_frames E false s = (s', r) ->
  st_fs s' = st_fs s ∧ st_trace s' = st_trace s ∧ same_but_fps (st_args s) (st_args s').
Proof.
  intros H.
  pose proof (preserves_apply _ _ _ _ _ (get_frames_no_extract E) H) as (Hfs & _ & Ht).
  split; [exact Hfs |]. split; [exact Ht |].
  frame_in H with same_but_fps event_print. exact (frame_args _ _ _ _ H).
Qed.

Lemma get_frames_same_disk (E : env) : preserves same_disk (get_frames E false).
Proof.
  intros s s' r H.
  exact (proj1 (preserves_apply _ _ _ _ _ (get_frames_no_extract E) H)).
Qed.

#[local] Hint Resolve get_frames_same_disk : keep.

Lemma stream_setup_same_disk (E : env) : preserves same_disk (stream_setup E).
Proof.
  unfold stream_setup, video_streams_of, first_stream.
  keep_tac same_disk_refl same_disk_trans.
Qed.

Lemma stream_frame_same_disk (E : env) (img : image) :
  preserves same_disk (stream_frame E img).
Proof. unfold stream_frame. keep_tac same_disk_refl same_disk_trans. Qed.

#[local] Hint Resolve stream_frame_same_disk : keep.

Lemma image_loop_same_disk (E : env) (paths : list string) :
  preserves same_disk (image_loop E paths).
Proof.
  induction paths as [|p rest IH]; simpl; keep_tac same_disk_refl same_disk_trans.
Qed.

Lemma pipe_read_same_disk (n : Z) : preserves same_disk (pipe_read n).
Proof. unfold pipe_read. keep_tac same_disk_refl same_disk_trans. Qed.

Lemma video_loop_same_disk (E : env) (w h : Z) (fuel : nat) :
  ∀ s s' r, video_loop E fuel w h s = Some (s', r) -> same_disk s s'.
Proof.
  induction fuel as [|fuel IH]; intros s s' r H; [discriminate |].
  rewrite video_loop_S in H.
  destruct (pipe_read (w * h * 3) s) as [s1 [bs | e]] eqn:Hr.
  - apply (preserves_apply _ _ _ _ _ (pipe_read_same_disk _)) in Hr.
    destruct bs as [|b bs]; [inversion H; subst; exact Hr |].
    destruct ((img ← lift (frombuffer_reshape (b :: bs) h w); stream_frame E img) s1)
      as [s2 [u | e]] eqn:Hf.
    + apply (preserves_apply same_disk) in Hf;
        [| keep_tac same_disk_refl same_disk_trans].
      apply IH in H. eapply same_disk_trans; [exact Hr |].
      eapply same_disk_trans; eassumption.
    + apply (preserves_apply same_disk) in Hf;
        [| keep_tac same_disk_refl same_disk_trans].
      inversion H; subst. eapply same_disk_trans; eassumption.
  - apply (preserves_apply _ _ _ _ _ (pipe_read_same_disk _)) in Hr.
    inversion H; subst. exact Hr.
Qed.

Lemma stream_close_same_disk (v : bool) : preserves same_disk (stream_close v).
Proof. unfold stream_close. keep_tac same_disk_refl same_disk_trans. Qed.

Lemma inference_stream_same_disk (E : env) (s s' : state) (r : result unit) :
  inference_stream E s = Some (s', r) -> same_disk s s'.
Proof.
  unfold inference_stream, inference_stream_with. intros H.
  destruct (stream_setup E s) as [s1 [[[[v paths] w] h] | e]] eqn:Hs;
    apply (preserves_apply _ _ _ _ _ (stream_setup_same_disk E)) in Hs;
    [| inversion H; subst; exact Hs].
  assert (Hloop : ∀ s2 r2,
            (if v then video_loop E (S (length (decoder_stdout E (input (st_args s)))))
                         w h s1
             else Some (image_loop E paths s1)) = Some (s2, r2) -> same_disk s1 s2).
  { intros s2 r2 Hl. destruct v.
    - eapply video_loop_same_disk, Hl.
    - inversion Hl as [Hi]. eapply preserves_apply, Hi. apply image_loop_same_disk. }
  destruct (if v then _ else _) as [[s2 [u | e]] |]; [| | discriminate].
  - specialize (Hloop _ _ eq_refl). inversion H as [Hc].
    apply (preserves_apply _ _ _ _ _ (stream_close_same_disk v)) in Hc.
    unfold same_disk in *. congruence.
  - specialize (Hloop _ _ eq_refl). inversion H; subst.
    unfold same_disk in *. congruence.
Qed.

(** X7: The streaming pipeline works through pipes only: whatever the input and
    whatever the outcome, it creates no folder and no frame file, and
    removes nothing; the disk is as it found it. (The video is written by
    the encoder process.) *)
Theorem stream_leaves_disk (E : env) (s s' : state) (r : result unit) :
  inference_stream E s = Some (s', r) -> st_fs s' = st_fs s.
Proof. intros H. exact (inference_stream_same_disk E s s' r H). Qed.

(** ** The reads of the decode pipe *)

Lemma video_loop_chunks (E : env) (w h : Z) (fuel : nat) :
  ∀ s s' r,
    video_loop E fuel w h s = Some (s', r) ->
    ∃ t,
      st_trace s' = st_trace s ++ t ∧
      concat (pipe_frames t) ++ st_pipe s' = st_pipe s ∧
      closes t = [] ∧
      (r = Ok tt -> 0 < w * h * 3 ->
       st_pipe s' = [] ∧
       Forall (fun b => Z.of_nat (length b) = w * h * 3) (pipe_frames t)) ∧
      (∀ e, r = Err e -> e = ValueError "cannot reshape array").
Proof.
  induction fuel as [|fuel IH]; intros s s' r H; [discriminate |].
  rewrite video_loop_S, pipe_read_run in H. cbv zeta in H.
  set (k := if w * h * 3 <? 0 then length (st_pipe s) else Z.to_nat (w * h * 3)) in H.
  pose proof (take_drop k (st_pipe s)) as Hsplit.
  destruct (take k (st_pipe s)) as [|b bs] eqn:Htake.
  - inversion H; subst; clear H. exists [DecodeRead []]. simpl.
    split; [reflexivity |]. split; [exact Hsplit |]. split; [reflexivity |].
    split; [| discriminate].
    intros _ Hn. split; [| constructor].
    assert (Hk : (0 < k)%nat).
    { unfold k. destruct (w * h * 3 <? 0) eqn:Hneg; [apply Z.ltb_lt in Hneg |]; lia. }
    destruct (st_pipe s) as [|x p]; [apply drop_nil |].
    destruct k; [lia | discriminate].
  - rewrite bind_run, lift_run in H.
    destruct (frombuffer_reshape (b :: bs) h w) as [img|e] eqn:Hre.
    + pose proof Hre as Hlen. unfold frombuffer_reshape in Hlen.
      destruct ((0 <=? h) && (0 <=? w) && (Z.of_nat (length (b :: bs)) =? h * w * 3))
        eqn:Hc; [| discriminate].
      apply andb_prop in Hc as [_ Hc]. apply Z.eqb_eq in Hc. clear Hlen.
      rewrite stream_frame_run in H. simpl in H.
      apply IH in H as (t & Ht & Hcat & Hcl & Hok & Herr).
      simpl in Ht, Hcat.
      exists ([DecodeRead (b :: bs)] ++ stream_frame_events E (st_args s) img ++ t).
      split; [rewrite Ht, <- !app_assoc; reflexivity |].
      unfold pipe_frames, closes in *. rewrite !omap_app.
      rewrite !(stream_frame_events_silent _ E) by reflexivity.
      simpl. split; [rewrite <- app_assoc, Hcat; exact Hsplit |].
      split; [exact Hcl |]. split; [| exact Herr].
      intros Hr Hn. destruct (Hok Hr Hn) as [Hp Hall].
      split; [exact Hp |]. constructor; [| exact Hall]. lia.
    + inversion H; subst; clear H. exists [DecodeRead (b :: bs)]. simpl.
      split; [reflexivity |]. split; [rewrite app_nil_r; exact Hsplit |].
      split; [reflexivity |]. split; [discriminate |].
      intros e' He'. inversion He'; subst.
      unfold frombuffer_reshape in Hre. destruct (_ && _); congruence.
Qed.

Lemma stream_setup_closes (E : env) (a : args) (fs : gmap string node) (s1 : state)
    (r : result (bool * list string * Z * Z)) :
  stream_setup E (init_state a fs) = (s1, r) -> closes (st_trace s1) = [].
Proof.
  intros H. frame_in H with same_but_fps event_close.
  unfold closes. rewrite (frame_omap _ _ _ _ H). reflexivity.
Qed.

Lemma inference_stream_video (E : env) (a : args) (fs : gmap string node)
    (s1 s' : state) (paths : list string) (w h : Z) (r : result unit) :
  stream_setup E (init_state a fs) = (s1, Ok (true, paths, w, h)) ->
  inference_stream E (init_state a fs) = Some (s', r) ->
  ∃ s2,
    video_loop E (S (length (decoder_stdout E (input a)))) w h s1 = Some (s2, r) ∧
    st_pipe s' = st_pipe s2 ∧
    st_trace s' = st_trace s2 ++ match r with Ok _ => [DecoderClose; EncoderClose] | Err _ => [] end.
Proof.
  intros Hs H. unfold inference_stream, inference_stream_with in H.
  rewrite Hs in H. cbv beta iota in H.
  change (st_args (init_state a fs)) with a in H.
  destruct (video_loop E _ w h s1) as [[s2 [[] | e]] |]; [| | discriminate].
  - rewrite stream_close_run in H. inversion H; subst. exists s2. auto.
  - inversion H; subst. exists s'. rewrite app_nil_r. auto.
Qed.

Lemma stream_video_chunks (E : env) (a : args) (fs : gmap string node)
    (s1 s' : state) (paths : list string) (w h : Z) (r : result unit) :
  stream_setup E (init_state a fs) = (s1, Ok (true, paths, w, h)) ->
  inference_stream E (init_state a fs) = Some (s', r) ->
  concat (pipe_frames (st_trace s')) ++ st_pipe s' = decoder_stdout E (input a) ∧
  (r = Ok tt -> 0 < w * h * 3 ->
   st_pipe s' = [] ∧
   Forall (fun b => Z.of_nat (length b) = w * h * 3) (pipe_frames (st_trace s'))) ∧
  (∀ e, r = Err e -> e = ValueError "cannot reshape array").
Proof.
  intros Hs H.
  destruct (inference_stream_video _ _ _ _ _ _ _ _ _ Hs H) as (s2 & Hl & Hp & Ht).
  destruct (stream_setup_init _ _ _ _ _ _ _ _ Hs) as (_ & Hpipe & _ & Hpf & _).
  specialize (Hpipe eq_refl).
  apply video_loop_chunks in Hl as (t & Ht2 & Hcat & _ & Hok & Herr).
  assert (Hfr : pipe_frames (st_trace s') = pipe_frames t).
  { rewrite Ht, Ht2. unfold pipe_frames in *. rewrite !omap_app, Hpf.
    destruct r; simpl; rewrite app_nil_r; reflexivity. }
  rewrite Hfr, Hp. split; [rewrite Hcat; exact Hpipe |]. split; [exact Hok | exact Herr].
Qed.

(** X8: In stream mode on a video, the reads of the decode pipe take the output
    of the decoder apart without losing or repeating a byte: the frames
    read, put end to end, and what is left in the pipe, are that output.
    When the run returns, nothing is left and every frame read has
    [width * height * 3] bytes; the loop can only fail with the
    [ValueError] of a last frame that is short. *)
Theorem decoder_output_read_once (E : env) (a : args) (fs : gmap string node)
    (s1 s' : state) (paths : list string) (w h : Z) (r : result unit) :
  stream_setup E (init_state a fs) = (s1, Ok (true, paths, w, h)) ->
  inference_stream E (init_state a fs) = Some (s', r) ->
  concat (pipe_frames (st_trace s')) ++ st_pipe s' = decoder_stdout E (input a) ∧
  (r = Ok tt -> 0 < w * h * 3 ->
   concat (pipe_frames (st_trace s')) = decoder_stdout E (input a) ∧
   Forall (fun b => Z.of_nat (length b) = w * h * 3) (pipe_frames (st_trace s'))) ∧
  (∀ e, r = Err e -> e = ValueError "cannot reshape array").
Proof.
  intros Hs H.
  destruct (stream_video_chunks _ _ _ _ _ _ _ _ _ Hs H) as (Hcat & Hok & Herr).
  split; [exact Hcat |]. split; [| exact Herr].
  intros Hr Hn. destruct (Hok Hr Hn) as [Hnil Hall].
  split; [| exact Hall]. rewrite Hnil, app_nil_r in Hcat. exact Hcat.
Qed.

Lemma concat_length_uniform (n : Z) (l : list (list byte)) :
  Forall (fun b => Z.of_nat (length b) = n) l ->
  Z.of_nat (length (concat l)) = n * Z.of_nat (length l).
Proof.
  induction 1 as [|b l Hb _ IH]; simpl; [lia |].
  rewrite length_app. lia.
Qed.

(** X9: A decoder output that is not a whole number of frames makes the run
    fail with [ValueError] on the short frame. *)
Theorem short_frame_aborts_stream (E : env) (a : args) (fs : gmap string node)
    (s1 s' : state) (paths : list string) (w h : Z) (r : result unit) :
  stream_setup E (init_state a fs) = (s1, Ok (true, paths, w, h)) ->
  inference_stream E (init_state a fs) = Some (s', r) ->
  0 < w * h * 3 ->
  Z.of_nat (length (decoder_stdout E (input a))) mod (w * h * 3) ≠ 0 ->
  r = Err (ValueError "cannot reshape array").
Proof.
  intros Hs H Hn Hmod.
  destruct (stream_video_chunks _ _ _ _ _ _ _ _ _ Hs H) as (Hcat & Hok & Herr).
  destruct r as [[] | e]; [| rewrite (Herr e eq_refl); reflexivity].
  exfalso. destruct (Hok eq_refl Hn) as [Hnil Hall]. apply Hmod.
  rewrite Hnil, app_nil_r in Hcat.
  rewrite <- Hcat, (concat_length_uniform _ _ Hall).
  rewrite Z.mul_comm. apply Z_mod_mult.
Qed.

(** X10: The streaming pipeline closes its pipes only at its very end: a run that
    returns has closed the decoder, when there is one, and then the encoder,
    as its last two steps; a run that raises, at whatever point, has closed
    neither. *)
Theorem pipes_closed_on_return_only (E : env) (a : args) (fs : gmap string node)
    (s' : state) (r : result unit) :
  inference_stream E (init_state a fs) = Some (s', r) ->
  match r with
  | Ok _ =>
      ∃ s1 v paths w h t,
        stream_setup E (init_state a fs) = (s1, Ok (v, paths, w, h)) ∧
        st_trace s' = t ++ (if v then [DecoderClose] else []) ++ [EncoderClose] ∧
        closes t = []
  | Err _ => closes (st_trace s') = []
  end.
Proof.
  intros H. pose proof H as H0.
  unfold inference_stream, inference_stream_with in H.
  destruct (stream_setup E (init_state a fs)) as [s1 [[[[v paths] w] h] | e]] eqn:Hs.
  - pose proof (stream_setup_closes _ _ _ _ _ Hs) as Hc1.
    destruct v.
    + destruct (inference_stream_video _ _ _ _ _ _ _ _ _ Hs H0) as (s2 & Hl & _ & Ht).
      apply video_loop_chunks in Hl as (t & Ht2 & _ & Hcl & _).
      assert (Hc2 : closes (st_trace s2) = []).
      { rewrite Ht2. unfold closes in *. rewrite omap_app, Hc1, Hcl. reflexivity. }
      destruct r as [[] | e].
      * exists s1, true, paths, w, h, (st_trace s2). auto.
      * rewrite Ht, app_nil_r. exact Hc2.
    + cbv beta iota in H.
      destruct (image_loop E paths s1) as [s2 [[] | e]] eqn:Hl.
      * frame_in Hl with (@eq args) event_close.
        pose proof (frame_omap _ _ _ _ Hl) as Hc2. fold (closes (st_trace s2)) in Hc2.
        rewrite stream_close_run in H. inversion H; subst.
        exists s1, false, paths, w, h, (st_trace s2).
        split; [reflexivity |]. split; [reflexivity |].
        rewrite Hc2. exact Hc1.
      * frame_in Hl with (@eq args) event_close.
        pose proof (frame_omap _ _ _ _ Hl) as Hc2.
        inversion H; subst. unfold closes in *. rewrite Hc2. exact Hc1.
  - inversion H; subst. exact (stream_setup_closes _ _ _ _ _ Hs).
Qed.

(** ** The warning on the output size *)

(** X11: In stream mode the warning on outputs larger than 4K goes by the height
    of the output alone: it is printed, once and before the encoder is
    started, exactly when that height is above 2160, whatever the width;
    nothing else is printed by the setup. *)
Theorem large_output_warned_by_height (E : env) (a : args) (fs : gmap string node)
    (s' : state) (v : bool) (paths : list string) (w h : Z) :
  stream_setup E (init_state a fs) = (s', Ok (v, paths, w, h)) ->
  ∃ ow oh,
    encoder_sizes (st_trace s') = [(ow, oh)] ∧
    printed (st_trace s') = (if 2160 <? oh then [large_output_warning] else []) ∧
    ∃ t fr p, st_trace s' = t ++ [EncoderStart ow oh fr p v] ∧ encoder_sizes t = [].
Proof.
  intros H. pose proof H as H0.
  apply stream_setup_inv in H
    as (s1 & ow & oh & Hgf & _ & _ & _ & _ & _ & Ht).
  pose proof (get_frames_init _ _ _ _ _ _ Hgf) as (_ & _ & Hp & _ & _ & _ & Hes & _).
  exists ow, oh.
  assert (Hse : ∀ B (f : event -> option B),
            (∀ x, f (DecoderStart x) = None) -> (∀ x, f (Print x) = None) ->
            omap f (setup_events v (input (st_args s1)) oh) = []).
  { intros B f Hd Hpr. unfold setup_events. rewrite omap_app.
    destruct v, (2160 <? oh); simpl; rewrite ?Hd, ?Hpr; reflexivity. }
  split; [| split].
  - rewrite Ht. unfold encoder_sizes in *. rewrite !omap_app, Hes.
    rewrite Hse by reflexivity. reflexivity.
  - rewrite Ht. unfold printed in *. rewrite !omap_app, Hp. unfold setup_events.
    rewrite omap_app. destruct v, (2160 <? oh); reflexivity.
  - eexists _, _, _. rewrite app_assoc in Ht. split; [exact Ht |].
    unfold encoder_sizes in *. rewrite omap_app, Hes. apply Hse; reflexivity.
Qed.

(** ** The frame-file pipeline: what is left on disk *)

Lemma ends_with_sep_last (a : string) :
  Py.ends_with_sep a = true -> last_char a = Some "/"%char.
Proof.
  unfold Py.ends_with_sep. induction a as [|c r IH]; [discriminate |].
  destruct r as [|d r'].
  - simpl. intros H. apply Ascii.eqb_eq in H. congruence.
  - intros H. apply IH. exact H.
Qed.

Lemma prefix_append_self (a c : string) : String.prefix a (a +:+ c) = true.
Proof.
  induction a as [|x a IH]; [destruct c; reflexivity |].
  rewrite append_cons, prefix_cons. destruct (ascii_dec x x); [exact IH | congruence].
Qed.

(** A frame is saved directly in the folder of the saved frames. *)
Lemma save_path_under (E : env) (a : args) (folder : string) (f : string * image)
    (out : image) (p : string) :
  folder ≠ "" -> last_char folder ≠ Some "/"%char ->
  frame_save_path E a folder f = Some (Item out p) ->
  is_under folder p = true.
Proof.
  intros Hne Hlast H. unfold frame_save_path in H.
  destruct (run_engine E a f.2); [| discriminate].
  destruct (Py.splitext (Py.basename f.1)) as [imgname extension] eqn:Hsp.
  inversion H; subst; clear H.
  pose proof (imgname_no_sep f.1) as Hi. rewrite Hsp in Hi. simpl in Hi.
  unfold Py.join. rewrite (save_name_relative _ _ Hi).
  destruct (String.eqb_spec folder "") as [-> | _]; [contradiction |].
  destruct (Py.ends_with_sep folder) eqn:He;
    [apply ends_with_sep_last in He; contradiction |].
  simpl. unfold is_under. rewrite <- append_assoc. apply prefix_append_self.
Qed.

Lemma save_folder_proper (a : args) :
  save_frame_folder_of a ≠ "" ∧ last_char (save_frame_folder_of a) ≠ Some "/"%char.
Proof.
  pose proof (last_char_folder a) as H. split.
  - intros Heq. rewrite Heq in H. discriminate.
  - rewrite H. discriminate.
Qed.

(** X12: In file mode no enhanced frame outlives the run: when the run returns,
    every path a result was queued for is gone from the disk, whether the
    merge command passed or not, and whatever the input was, a video, an
    image or a folder of images. *)
Theorem enhanced_frames_not_kept (E : env) (a : args) (fs : gmap string node)
    (s' : state) :
  inference_frames E (init_state a fs) = (s', Ok tt) ->
  ∀ out p, In (Item out p) (que_puts (st_trace s')) -> st_fs s' !! p = None.
Proof.
  intros H out p Hin.
  apply inference_frames_inv in H
    as [(e & _ & He) | (s1 & sff & vn & le & H1 & H2)]; [discriminate |].
  assert (Hq : que_puts (st_trace s') = que_puts (st_trace s1)).
  { pose proof H2 as Hm. frame_in Hm with (@eq args) event_put.
    exact (frame_omap _ _ _ _ Hm). }
  apply enhance_phase_init in H1
    as (s0 & v & paths & _ & Hsame & _ & -> & -> & _ & Hputs & _ & _ & _ & Hdir & _).
  destruct le as [e|]; [| rewrite merge_and_cleanup_none in H2; discriminate].
  destruct (same_but_fps_names _ _ Hsame) as (Hvn & Hsff & _).
  rewrite Hvn, Hsff in H2. rewrite merge_and_cleanup_some in H2.
  rewrite Hsff in Hdir.
  destruct (cleanup_run _ (video_name_of (st_args s1)) _
              (after_merge_folder E e s1 Hdir)) as (fs' & Hc & Hgone & _).
  rewrite Hc in H2. inversion H2; subst; clear H2. simpl.
  rewrite Hq, Hputs in Hin. apply in_app_or in Hin as [Hin | Hin].
  - apply list_elem_of_In, list_elem_of_omap in Hin as (f & _ & Hf).
    destruct Hgone as [_ Hgone]. apply Hgone. rewrite <- Hsff.
    destruct (save_folder_proper a) as [Hne Hl].
    eapply save_path_under; eassumption.
  - apply list_elem_of_In, elem_of_replicate in Hin as [Hin _]. discriminate.
Qed.

(** X13: In file mode a run without a frame, as on a video of which no frame
    could be extracted, ends in error: the loop never binds [extension], and
    after the consumers have been shut down the merge command cannot be put
    together. The run raises [NameError] (the unbound local), no merge
    command is run, and the folder of the saved frames is left on disk. *)
Theorem no_frame_no_merge (E : env) (a : args) (fs : gmap string node)
    (s' : state) (r : result unit) (paths : list string) :
  inference_frames E (init_state a fs) = (s', r) ->
  In paths (readers_started (st_trace s')) ->
  zip paths (reader E paths) = [] ->
  r = Err (NameError "local variable 'extension' referenced before assignment") ∧
  merge_cmds (st_trace s') = [] ∧
  que_puts (st_trace s') = replicate (Z.to_nat (consumer a)) Quit ∧
  st_fs s' !! save_frame_folder_of a = Some Dir.
Proof.
  intros H Hin Hz.
  destruct (reader_started_inv _ _ _ _ _ _ H Hin)
    as (s1 & [[sff vn] le] & s0 & v & Hph & Hmc & Hgf).
  simpl in Hmc.
  destruct (enhance_phase_init _ _ _ _ _ _ _ Hph)
    as (s0' & v' & paths' & Hgf' & _ & _ & _ & -> & -> & Hq & _ & _ & Hnm & Hdir & _).
  rewrite Hgf in Hgf'. inversion Hgf'; subst s0' v' paths'. clear Hgf'.
  rewrite Hz in Hmc, Hq. simpl in Hmc, Hq.
  unfold loop_extension in Hmc. simpl in Hmc.
  rewrite merge_and_cleanup_none in Hmc. inversion Hmc; subst. auto.
Qed.

(** ** The frame-file pipeline: progress *)

#[local] Hint Unfold silent : frame.

Lemma frame_events_progress (E : env) (a : args) (folder : string) (idx : nat)
    (f : string * image) :
  pbar_descriptions (frame_events E a folder idx f) = [idx] ∧
  pbar_updates (frame_events E a folder idx f) = [tt] ∧
  barriers (frame_events E a folder idx f) = [tt].
Proof.
  unfold frame_events, pbar_descriptions, pbar_updates, barriers.
  rewrite !omap_app.
  assert (Hp : ∀ B (g : event -> option B) l,
            (∀ x, g (Print x) = None) -> omap g (map Print l) = []).
  { intros B g l Hg. induction l as [|x l IH]; [reflexivity |].
    simpl. rewrite Hg. exact IH. }
  rewrite !Hp by reflexivity.
  destruct (frame_save_path E a folder f); auto.
Qed.

Lemma loop_events_progress (E : env) (a : args) (folder : string)
    (frames : list (string * image)) :
  ∀ idx,
    pbar_descriptions (loop_events E a folder idx frames) = seq idx (length frames) ∧
    length (pbar_updates (loop_events E a folder idx frames)) = length frames ∧
    length (barriers (loop_events E a folder idx frames)) = length frames.
Proof.
  induction frames as [|f rest IH]; intros idx; [auto |].
  destruct (IH (S idx)) as (Hd & Hu & Hb).
  destruct (frame_events_progress E a folder idx f) as (Hd1 & Hu1 & Hb1).
  cbn [loop_events]. unfold pbar_descriptions, pbar_updates, barriers in *.
  rewrite !omap_app, Hd1, Hu1, Hb1, Hd. simpl. rewrite Hu, Hb. auto.
Qed.

(** X14: In file mode every frame of the loop, enhanced or failed, advances the
    progress bar by one, is followed by one barrier on the accelerator, and
    sets the description of the bar to its index, from 0 on. The frames of
    the loop are the paths paired with what the reader yields: never more
    than the paths, and all of them when the reader yields a frame for
    each. *)
Theorem progress_per_frame (E : env) (a : args) (fs : gmap string node)
    (s' : state) (r : result unit) (paths : list string) :
  inference_frames E (init_state a fs) = (s', r) ->
  In paths (readers_started (st_trace s')) ->
  let n := length (zip paths (reader E paths)) in
  pbar_descriptions (st_trace s') = seq 0 n ∧
  length (pbar_updates (st_trace s')) = n ∧
  length (barriers (st_trace s')) = n ∧
  n = Nat.min (length paths) (length (reader E paths)).
Proof.
  intros H Hin n.
  destruct (reader_started_inv _ _ _ _ _ _ H Hin)
    as (s1 & [[sff vn] le] & s0 & v & Hph & Hmc & Hgf).
  simpl in Hmc.
  pose proof Hph as Hinv. apply enhance_phase_inv in Hinv
    as (s0' & v' & paths' & Hgf' & _ & _ & _ & _ & Ht & _).
  rewrite Hgf in Hgf'. inversion Hgf'; subst s0' v' paths'. clear Hgf'.
  assert (Hsil : ∀ B (g : event -> option B),
            (∀ x y, g (SystemExtract x y) = None) -> (∀ c, g (SystemMerge c) = None) ->
            (∀ x, g (ReaderStart x) = None) -> (∀ k, g (ConsumersStart k) = None) ->
            (∀ m, g (QuePut m) = None) -> g ConsumersJoin = None ->
            omap g (st_trace s') =
              omap g (loop_events E (st_args s0) (save_frame_folder_of (st_args s0)) 0
                        (zip paths (reader E paths)))).
  { intros B g He Hm Hr Hc Hq Hj.
    assert (H1 : omap g (st_trace s') = omap g (st_trace s1)).
    { pose proof Hmc as Hmc'.
      apply (preserves_apply (frame_rel (@eq args) (silent g))) in Hmc';
        [| frame_tac].
      exact (frame_omap _ _ _ _ Hmc'). }
    assert (H0 : omap g (st_trace s0) = []).
    { pose proof Hgf as Hgf'.
      apply (preserves_apply (frame_rel same_but_fps (silent g))) in Hgf';
        [| frame_tac].
      exact (frame_omap _ _ _ _ Hgf'). }
    rewrite H1, Ht, omap_app, H0. unfold phase_events. rewrite !omap_app. simpl.
    rewrite Hr, Hc, Hj, (omap_replicate_None g (QuePut Quit)) by apply Hq.
    rewrite app_nil_r. reflexivity. }
  destruct (loop_events_progress E (st_args s0) (save_frame_folder_of (st_args s0))
              (zip paths (reader E paths)) 0%nat) as (Hd & Hu & Hb).
  unfold pbar_descriptions, pbar_updates, barriers in *.
  rewrite !Hsil by reflexivity.
  split; [exact Hd |]. split; [exact Hu |]. split; [exact Hb |].
  unfold n. apply length_zip.
Qed.

(** ** Frame discovery on a video *)

Lemma get_frames_video_run (E : env) (s : state) (t : string) :
  guess_type E (input (st_args s)) = Some t ->
  Py.startswith "video" t = true ->
  get_frames E true s =
    let a := st_args s in
    if existsb (fun q => bool_decide (st_fs s !! q = Some File))
               (makedirs_chain (frame_folder_of a))
    then (s, Err (ExternalError "FileExistsError")) else
    let fs1 := extracted_fs E a (st_fs s) in
    let s1 := mkState a fs1 (st_pipe s)
                (st_trace s ++ [SystemExtract (input a)
                                  (frame_folder_of a +:+ "/frame%08d.png")]) in
    let paths := sorted (listing (frame_folder_of a) fs1) in
    match fps a with
    | Some _ => (s1, Ok (true, paths))
    | None =>
        match probed_fps E (input a) with
        | Ok r => (set_args s1 (set_fps (Some r) a), Ok (true, paths))
        | Err e => (s1, Err e)
        end
    end.
Proof.
  intros Hg Hv. destruct s as [a fs p tr]. simpl in *.
  unfold get_frames, mime_startswith.
  cbv beta iota zeta delta [mbind M_bind get_args st_args].
  rewrite Hg. cbv beta iota zeta delta [mret M_ret]. rewrite Hv.
  fold (video_name_of a). fold (frame_folder_of a).
  rewrite makedirs_run. cbn [st_fs].
  destruct (existsb _ (makedirs_chain _)); [reflexivity |].
  unfold system_extract, glob_star, set_fs, probed_fps, video_streams_of, first_stream.
  cbv beta iota zeta delta [mbind M_bind mret M_ret get_args get_fs put_fs emit lift
                            st_args st_fs st_pipe st_trace modify_args set_args
                            result_bind].
  fold (extracted_fs E a fs).
  fold (listing (frame_folder_of a) (extracted_fs E a fs)).
  destruct (fps a) as [f|] eqn:Hf; [rewrite Hf; reflexivity |].
  destruct (ffmpeg_probe E (input a)) as [streams|e]; [| reflexivity].
  destruct (List.filter _ streams) as [|st rest]; [reflexivity |].
  destruct (py_truediv _ _) as [r|e]; [| reflexivity].
  cbn [fps set_fps]. reflexivity.
Qed.

Lemma contains_char (c : ascii) (s : string) :
  Py.contains (String c "") s = has_char c s.
Proof.
  induction s as [|a r IH]; [reflexivity |].
  cbn [Py.contains has_char]. rewrite IH, prefix_cons.
  destruct (ascii_dec c a) as [-> | Hne].
  - rewrite Ascii.eqb_refl. destruct r; reflexivity.
  - destruct (Ascii.eqb_spec a c); [congruence | reflexivity].
Qed.

Lemma uint_no_sep (d : Decimal.uint) :
  has_char "/" (DecimalString.NilZero.string_of_uint d) = false.
Proof.
  assert (H : ∀ u, has_char "/" (DecimalString.NilEmpty.string_of_uint u) = false).
  { induction u; simpl; auto. }
  destruct d; try apply H. reflexivity.
Qed.

Lemma zeros_no_sep (n : nat) : has_char "/" (zeros n) = false.
Proof. induction n as [|n IH]; [reflexivity | exact IH]. Qed.

Lemma pad8_no_sep (n : nat) : has_char "/" (pad8 n) = false.
Proof.
  unfold pad8, Py.str_of_nat. rewrite has_char_append, zeros_no_sep, uint_no_sep.
  reflexivity.
Qed.

Lemma last_char_has_char (c : ascii) (s : string) :
  last_char s = Some c -> has_char c s = true.
Proof.
  induction s as [|a r IH]; [discriminate |].
  intros H. cbn [has_char]. destruct r as [|b r'].
  - simpl in H. inversion H. rewrite Ascii.eqb_refl. reflexivity.
  - rewrite (IH H). apply orb_true_r.
Qed.

Lemma join_folder (d : string) :
  d ≠ "" -> last_char d ≠ Some "/"%char -> Py.join d "" = d +:+ "/".
Proof.
  intros Hne Hl. unfold Py.join. simpl.
  destruct (String.eqb_spec d "") as [-> | _]; [contradiction |].
  destruct (Py.ends_with_sep d) eqn:He;
    [apply ends_with_sep_last in He; contradiction |].
  simpl. rewrite append_nil_r. reflexivity.
Qed.

(** What [*] matches in a folder: the names without a slash that do not
    start with a dot. *)
Lemma is_child_name (d name : string) :
  d ≠ "" -> last_char d ≠ Some "/"%char ->
  is_child d (d +:+ "/" +:+ name) =
    negb (String.eqb name "") && negb (has_char "/" name)
    && negb (String.prefix "." name).
Proof.
  intros Hne Hl. unfold is_child. rewrite (join_folder d Hne Hl). cbv zeta.
  rewrite <- append_assoc, prefix_append_self, slice_from_append.
  rewrite contains_char. reflexivity.
Qed.

Lemma frame_name_child (d : string) (i : nat) :
  d ≠ "" -> last_char d ≠ Some "/"%char ->
  is_child d (d +:+ "/frame" +:+ pad8 i +:+ ".png") = true.
Proof.
  intros Hne Hl.
  change ("/frame" +:+ pad8 i +:+ ".png") with ("/" +:+ "frame" +:+ pad8 i +:+ ".png").
  rewrite (is_child_name d _ Hne Hl).
  rewrite !append_cons, append_nil_l. cbn [String.eqb has_char]. 
  rewrite has_char_append, pad8_no_sep. reflexivity.
Qed.

Lemma prefix_length (a b : string) :
  String.prefix a b = true -> (String.length a <= String.length b)%nat.
Proof.
  revert b. induction a as [|x a IH]; intros b H; [simpl; lia |].
  destruct b as [|y b]; [discriminate |].
  rewrite prefix_cons in H. destruct (ascii_dec x y); [| discriminate].
  specialize (IH _ H). simpl. lia.
Qed.

Lemma dir_prefixes_length (p : string) :
  ∀ acc q, In q (dir_prefixes_from acc p) ->
           (String.length q < String.length acc + String.length p)%nat.
Proof.
  induction p as [|c r IH]; intros acc q H; [destruct H |].
  simpl in H. apply in_app_or in H as [H | H].
  - destruct (_ && _); [| destruct H]. destruct H as [<- | []]. simpl. lia.
  - apply IH in H. rewrite length_append in H. simpl in *. lia.
Qed.

(** The folders [makedirs] goes through are not entries of the folder it
    makes. *)
Lemma chain_not_child (d q : string) :
  d ≠ "" -> last_char d ≠ Some "/"%char ->
  In q (makedirs_chain d) -> is_child d q = false.
Proof.
  intros Hne Hl Hin.
  assert (Hlen : (String.length q <= String.length d)%nat).
  { unfold makedirs_chain in Hin. apply in_app_or in Hin as [Hin | [<- | []]]; [| lia].
    apply dir_prefixes_length in Hin. simpl in Hin. lia. }
  unfold is_child. rewrite (join_folder d Hne Hl). cbv zeta.
  destruct (String.prefix (d +:+ "/") q) eqn:Hp; [| reflexivity].
  apply prefix_length in Hp. rewrite length_append in Hp. simpl in Hp. lia.
Qed.

Lemma foldr_insert_lookup (x : node) (l : list string) (m : gmap string node) (p : string) :
  foldr (fun q m => <[q := x]> m) m l !! p = if decide (p ∈ l) then Some x else m !! p.
Proof.
  induction l as [|k l IH]; [reflexivity |].
  simpl foldr. destruct (decide (k = p)) as [-> | Hne].
  - rewrite lookup_insert_eq. rewrite decide_True by left. reflexivity.
  - rewrite lookup_insert_ne by exact Hne. rewrite IH.
    destruct (decide (p ∈ l)) as [Hi | Hi].
    + rewrite decide_True by (right; exact Hi). reflexivity.
    + rewrite decide_False; [reflexivity |].
      intros Hj. apply elem_of_cons in Hj as [Hj | Hj]; [congruence | contradiction].
Qed.

Lemma listing_spec (d : string) (fs : gmap string node) (p : string) :
  In p (listing d fs) ↔ is_Some (fs !! p) ∧ is_child d p = true.
Proof.
  unfold listing. rewrite filter_In, in_map_iff. split.
  - intros [((k & x) & <- & Hk) Hc]. split; [| exact Hc].
    apply list_elem_of_In, elem_of_map_to_list in Hk. simpl. eauto.
  - intros [[x Hx] Hc]. split; [| exact Hc].
    exists (p, x). split; [reflexivity |].
    apply list_elem_of_In, elem_of_map_to_list. exact Hx.
Qed.

Lemma listing_NoDup (d : string) (fs : gmap string node) : NoDup (listing d fs).
Proof.
  unfold listing. apply NoDup_ListNoDup, List.NoDup_filter, NoDup_ListNoDup.
  exact (NoDup_fst_map_to_list fs).
Qed.

Lemma frame_folder_proper (a : args) :
  video_name_of a ≠ "" ->
  frame_folder_of a = "tmp_frames/" +:+ video_name_of a ∧
  frame_folder_of a ≠ "" ∧ last_char (frame_folder_of a) ≠ Some "/"%char.
Proof.
  intros Hne.
  assert (Hs : has_char "/" (video_name_of a) = false) by apply imgname_no_sep.
  assert (Hf : frame_folder_of a = "tmp_frames/" +:+ video_name_of a).
  { unfold frame_folder_of, Py.join.
    destruct (video_name_of a) as [|c r] eqn:Hv; [contradiction |].
    cbn [has_char] in Hs. apply orb_false_elim in Hs as [Hc _].
    rewrite prefix_cons. destruct (ascii_dec "/" c) as [<- | _]; [discriminate |].
    reflexivity. }
  split; [exact Hf |]. rewrite Hf. split; [discriminate |].
  rewrite last_char_append by exact Hne. intros Hl.
  apply last_char_has_char in Hl. congruence.
Qed.

Lemma extracted_fs_lookup (E : env) (a : args) (fs : gmap string node) (p : string) :
  extracted_fs E a fs !! p =
    if decide (p ∈ extracted_names (frame_folder_of a) (video_frames E (input a)))
    then Some File
    else if decide (p ∈ makedirs_chain (frame_folder_of a)) then Some Dir
    else fs !! p.
Proof.
  unfold extracted_fs, makedirs_fs. rewrite !foldr_insert_lookup. reflexivity.
Qed.

Lemma folder_not_frame (d : string) (n : nat) : d ∉ extracted_names d n.
Proof.
  unfold extracted_names. intros H. apply list_elem_of_In, in_map_iff in H as (i & Hi & _).
  revert Hi. apply append_neq_self. rewrite append_cons. discriminate.
Qed.

Lemma extracted_fs_folder (E : env) (a : args) (fs : gmap string node) :
  extracted_fs E a fs !! frame_folder_of a = Some Dir.
Proof.
  rewrite extracted_fs_lookup.
  rewrite decide_False by apply folder_not_frame.
  rewrite decide_True; [reflexivity |].
  unfold makedirs_chain. apply elem_of_app. right. left.
Qed.



(** ** Frame discovery on a folder *)

Lemma get_frames_folder_run (E : env) (x : bool) (s : state) (t : string) :
  guess_type E (input (st_args s)) = Some t ->
  Py.startswith "video" t = false ->
  Py.startswith "image" t = false ->
  get_frames E x s =
    let a := st_args s in
    let paths := sorted (listing (input a) (st_fs s)) in
    if 0 <? Z.of_nat (length paths) then
      (match fps a with
       | None => set_args s (set_fps (Some (PInt 24)) a)
       | Some _ => s
       end, Ok (false, paths))
    else (s, Err (AssertionError "the input folder is empty")).
Proof.
  intros Hg Hv Hi. destruct s as [a fs p tr]. simpl in *.
  unfold get_frames, mime_startswith.
  cbv beta iota zeta delta [mbind M_bind get_args st_args].
  rewrite Hg. cbv beta iota zeta delta [mret M_ret]. rewrite Hv.
  cbv beta iota zeta delta [mbind M_bind]. rewrite Hi.
  unfold glob_star, set_args.
  cbv beta iota zeta delta [mbind M_bind mret M_ret get_args get_fs raise
                            st_args st_fs st_pipe st_trace modify_args].
  fold (listing (input a) fs).
  destruct (0 <? Z.of_nat (length (sorted (listing (input a) fs)))); [| reflexivity].
  destruct (fps a) as [f|] eqn:Hf; rewrite ?Hf; reflexivity.
Qed.


(** ** The frame-file pipeline: the video *)

Lemma filter_lookup_keep (P : string * node -> Prop) `{!∀ x, Decision (P x)}
    (m : gmap string node) (k : string) :
  (∀ x, P (k, x)) -> filter P m !! k = m !! k.
Proof.
  intros HP. destruct (m !! k) as [x|] eqn:Hk.
  - apply map_lookup_filter_Some. split; [exact Hk | apply HP].
  - apply map_lookup_filter_None. left. exact Hk.
Qed.

(** The cleanup touches only the two folders it removes. *)
Lemma cleanup_keeps (sff vn : string) (s s' : state) (r : result unit) (k : string) :
  st_fs s !! sff = Some Dir ->
  cleanup sff vn s = (s', r) ->
  k ≠ sff -> is_under sff k = false ->
  k ≠ Py.join "tmp_frames" vn -> is_under (Py.join "tmp_frames" vn) k = false ->
  st_fs s' !! k = st_fs s !! k.
Proof.
  intros Hd H Hk1 Hu1 Hk2 Hu2. unfold cleanup in H.
  rewrite bind_run, (rmtree_run _ _ Hd) in H.
  set (fs1 := filter _ (st_fs s)) in H.
  assert (H1 : fs1 !! k = st_fs s !! k).
  { unfold fs1. apply filter_lookup_keep. intros x. simpl. auto. }
  rewrite bind_run, isdir_run in H.
  change (st_fs (set_fs s fs1)) with fs1 in H.
  destruct (bool_decide (fs1 !! Py.join "tmp_frames" vn = Some Dir)) eqn:Hb.
  - apply bool_decide_eq_true in Hb.
    rewrite (rmtree_run _ (set_fs s fs1) Hb) in H. inversion H; subst; clear H.
    simpl. rewrite <- H1. apply filter_lookup_keep. intros x. simpl. auto.
  - rewrite ret_run in H. inversion H; subst; clear H. exact H1.
Qed.

Lemma prefix_diverge (x y z : string) (c d : ascii) :
  c ≠ d -> String.prefix (x +:+ String c y) (x +:+ String d z) = false.
Proof.
  intros Hcd. induction x as [|a x IH].
  - rewrite !append_nil_l, prefix_cons.
    destruct (ascii_dec c d); [contradiction | reflexivity].
  - rewrite !append_cons, prefix_cons.
    destruct (ascii_dec a a); [exact IH | congruence].
Qed.

(** The video is not written into the folder of the saved frames. *)
Lemma video_not_under_folder (a : args) :
  is_under (save_frame_folder_of a) (video_save_path_of a) = false.
Proof.
  unfold is_under, save_frame_folder_of, video_save_path_of.
  set (vn := video_name_of a).
  assert (Hvn : has_char "/" vn = false) by apply imgname_no_sep.
  assert (Hrel : ∀ rest, String.prefix "/" (vn +:+ rest) = false ∨ vn = "").
  { intros rest. destruct vn as [|c r]; [right; reflexivity | left].
    cbn [has_char] in Hvn. apply orb_false_elim in Hvn as [Hc _].
    rewrite append_cons, prefix_cons.
    destruct (ascii_dec "/" c) as [<- | _]; [discriminate | reflexivity]. }
  assert (Hjoin : ∃ o, Py.join (output a) vn = o +:+ vn ∧
                       Py.join (output a) (vn +:+ "_" +:+ suffix a +:+ ".mp4")
                       = o +:+ vn +:+ "_" +:+ suffix a +:+ ".mp4" ∧
                       (vn = "" -> o = "" ∨ last_char o = Some "/"%char)).
  { assert (H1 : String.prefix "/" vn = false).
    { destruct (Hrel "") as [H | ->]; [rewrite append_nil_r in H; exact H | reflexivity]. }
    assert (H2 : String.prefix "/" (vn +:+ "_" +:+ suffix a +:+ ".mp4") = false).
    { destruct (Hrel ("_" +:+ suffix a +:+ ".mp4")) as [H | ->]; [exact H | reflexivity]. }
    unfold Py.join. rewrite H1, H2.
    destruct (String.eqb_spec (output a) "") as [Ho | Ho]; simpl.
    - exists (output a). auto.
    - destruct (Py.ends_with_sep (output a)) eqn:He.
      + exists (output a). split; [reflexivity |]. split; [reflexivity |].
        intros _. right. apply ends_with_sep_last, He.
      + exists (output a +:+ "/"). rewrite !append_assoc.
        split; [reflexivity |]. split; [reflexivity |].
        intros _. right. apply last_char_append. discriminate. }
  destruct Hjoin as (o & -> & -> & Ho).
  assert (Hs : ∃ c rest, c ≠ "_"%char ∧
             Py.join (o +:+ vn) "frames_tmpout" +:+ "/" = (o +:+ vn) +:+ String c rest).
  { unfold Py.join. simpl.
    destruct ((o +:+ vn =? "")%string || Py.ends_with_sep (o +:+ vn)).
    - exists "f"%char, "rames_tmpout/". split; [discriminate |].
      rewrite append_assoc. reflexivity.
    - exists "/"%char, "frames_tmpout/". split; [discriminate |].
      rewrite !append_assoc. reflexivity. }
  destruct Hs as (c & rest & Hc & ->).
  rewrite <- (append_assoc o vn). apply prefix_diverge, Hc.
Qed.

(** X18: In file mode, when the merge command passes, the video is on disk when
    the run returns: the cleanup does not take it away, as long as the
    output folder does not put the video inside the frame folder of the
    input, which the cleanup removes. *)
Theorem merged_video_kept (E : env) (a : args) (fs : gmap string node) (s' : state) :
  inference_frames E (init_state a fs) = (s', Ok tt) ->
  (∀ c d, ffmpeg_merge E c d = 0) ->
  video_save_path_of a ≠ frame_folder_of a ->
  is_under (frame_folder_of a) (video_save_path_of a) = false ->
  st_fs s' !! video_save_path_of a = Some File.
Proof.
  intros H Hok Hne Hnu.
  apply inference_frames_inv in H
    as [(e & _ & He) | (s1 & sff & vn & le & H1 & H2)]; [discriminate |].
  apply enhance_phase_init in H1
    as (s0 & v & paths & _ & Hsame & _ & -> & -> & _ & _ & _ & _ & _ & Hdir & _).
  destruct le as [e|]; [| rewrite merge_and_cleanup_none in H2; discriminate].
  destruct (same_but_fps_names _ _ Hsame) as (Hvn & Hsff & Hff & Hvp).
  rewrite Hvn, Hsff in H2. rewrite merge_and_cleanup_some in H2.
  rewrite Hsff in Hdir.
  pose proof (after_merge_folder E e s1 Hdir) as Hdir'.
  rewrite (cleanup_keeps _ _ _ _ _ (video_save_path_of a) Hdir' H2).
  - unfold after_merge. simpl. rewrite Hok. simpl.
    unfold merge_cmd_of. simpl. rewrite Hvp. apply lookup_insert_eq.
  - rewrite Hvp. apply video_not_folder.
  - rewrite Hvp. apply video_not_under_folder.
  - rewrite <- Hvn. exact Hne.
  - rewrite <- Hvn. exact Hnu.
Qed.

(** X19: Both pipelines write the video to the same place,
    [<output>/<video name>_<suffix>.mp4], whatever frame discovery did to
    the options on the way. The encoder of the streaming pipeline copies the
    audio of the input exactly when the input is a video; the merge command
    of the frame-file pipeline always names the input as its audio source. *)
Theorem video_path_in_both_modes (E : env) (a : args) (fs : gmap string node) :
  (∀ s' v paths w h,
     stream_setup E (init_state a fs) = (s', Ok (v, paths, w, h)) ->
     encoder_targets (st_trace s') = [(video_save_path_of a, v)]) ∧
  (∀ s' r c,
     inference_frames E (init_state a fs) = (s', r) ->
     In c (merge_cmds (st_trace s')) ->
     merge_video c = video_save_path_of a ∧ merge_audio c = input a).
Proof.
  split.
  - intros s' v paths w h H.
    apply stream_setup_inv in H
      as (s1 & ow & oh & Hgf & _ & _ & _ & _ & _ & Ht).
    pose proof Hgf as Hsil. frame_in Hsil with same_but_fps event_encoder_target.
    pose proof (frame_omap _ _ _ _ Hsil) as H0. simpl in H0.
    pose proof (frame_args _ _ _ _ Hsil) as Hsame. simpl in Hsame.
    destruct (same_but_fps_names _ _ Hsame) as (_ & _ & _ & Hvp).
    rewrite Ht. unfold encoder_targets. rewrite !omap_app, H0. unfold setup_events.
    rewrite omap_app. rewrite Hvp.
    destruct v, (2160 <? oh); reflexivity.
  - intros s' r c H Hc.
    destruct (inference_frames_merge _ _ _ _ _ _ H Hc)
      as (s1 & v & paths & f & _ & Hsame & _ & -> & _).
    destruct (same_but_fps_names _ _ Hsame) as (_ & _ & _ & Hvp).
    simpl. split; [symmetry; exact Hvp |].
    pose proof (f_equal input Hsame) as Hi. simpl in Hi. symmetry. exact Hi.
Qed.

(** ** The names of the saved frames *)

Lemma append_inj_l (x b c : string) : x +:+ b = x +:+ c -> b = c.
Proof.
  induction x as [|a x IH]; [rewrite !append_nil_l; auto |].
  rewrite !append_cons. intros H. inversion H. auto.
Qed.

Lemma append_inj_r (b c x : string) : b +:+ x = c +:+ x -> b = c.
Proof.
  revert c. induction b as [|a b IH]; intros c H.
  - destruct c as [|d c]; [reflexivity |]. exfalso.
    apply (f_equal String.length) in H. rewrite !length_append in H. simpl in H. lia.
  - destruct c as [|d c].
    + exfalso. apply (f_equal String.length) in H. rewrite !length_append in H.
      simpl in H. lia.
    + rewrite !append_cons in H. inversion H. f_equal. auto.
Qed.

Lemma join_inj (d b c : string) :
  String.prefix "/" b = false -> String.prefix "/" c = false ->
  Py.join d b = Py.join d c -> b = c.
Proof.
  unfold Py.join. intros -> ->.
  destruct (_ || _); intros H; [| apply append_inj_l in H]; apply append_inj_l in H;
    exact H.
Qed.

(** X20: When does a saved frame overwrite another? With a fixed [--ext], as soon
    as two frames have the same name up to the extension, as [a.jpg] and
    [a.png]: both are saved to the one path. With [--ext auto], for frames
    without alpha whose names have an extension, never: equal save paths
    mean equal file names. *)
Theorem saved_frames_collide_on_names (E : env) (a : args) (folder : string)
    (p1 p2 : string) (img1 img2 o1 o2 : image) (q1 q2 : string) :
  frame_save_path E a folder (p1, img1) = Some (Item o1 q1) ->
  frame_save_path E a folder (p2, img2) = Some (Item o2 q2) ->
  has_alpha img1 = false -> has_alpha img2 = false ->
  (ext a ≠ "auto" ->
   (Py.splitext (Py.basename p1)).1 = (Py.splitext (Py.basename p2)).1 -> q1 = q2) ∧
  (ext a = "auto" ->
   (Py.splitext (Py.basename p1)).2 ≠ "" -> (Py.splitext (Py.basename p2)).2 ≠ "" ->
   q1 = q2 -> Py.basename p1 = Py.basename p2).
Proof.
  unfold frame_save_path. simpl. intros H1 H2 Ha1 Ha2.
  destruct (run_engine E a img1); [| discriminate].
  destruct (run_engine E a img2); [| discriminate].
  pose proof (splitext_append (Py.basename p1)) as Hb1.
  pose proof (splitext_append (Py.basename p2)) as Hb2.
  pose proof (imgname_no_sep p1) as Hn1. pose proof (imgname_no_sep p2) as Hn2.
  pose proof (splitext_extension (Py.basename p1)) as He1.
  pose proof (splitext_extension (Py.basename p2)) as He2.
  destruct (Py.splitext (Py.basename p1)) as [n1 r1].
  destruct (Py.splitext (Py.basename p2)) as [n2 r2].
  simpl in *. inversion H1; subst o1 q1; clear H1.
  inversion H2; subst o2 q2; clear H2.
  unfold save_extension. rewrite !img_mode_alpha, Ha1, Ha2.
  split.
  - intros Hx ->. destruct (String.eqb_spec (ext a) "auto"); [contradiction |].
    reflexivity.
  - intros Hx Hr1 Hr2 Hq. rewrite Hx in Hq. simpl in Hq.
    destruct He1 as [-> | (x1 & -> & Hx1)]; [contradiction |].
    destruct He2 as [-> | (x2 & -> & Hx2)]; [contradiction |].
    simpl in Hq.
    apply join_inj in Hq; try (apply save_name_relative; assumption).
    rewrite !out_split in Hq.
    apply last_occurrence_unique in Hq as [Hn Hxx]; [| assumption..].
    apply append_inj_r in Hn. rewrite <- Hb1, <- Hb2, Hn, Hxx. reflexivity.
Qed.

(** ** A whole run in stream mode *)

Lemma main_setup_disk (s s1 : state) (r : result unit) :
  main_setup s = (s1, r) ->
  stream (st_args s1) = stream (st_args s) ∧
  match r with
  | Ok _ => st_fs s1 = makedirs_fs (output (st_args s)) (st_fs s)
  | Err _ => st_fs s1 = st_fs s
  end.
Proof.
  destruct r as [[] | e]; intros H.
  - apply main_setup_ok in H as (_ & _ & Ha & _ & _ & Hfs). cbv zeta in Ha, Hfs.
    split; [| exact Hfs]. rewrite Ha. destruct (_ && _); reflexivity.
  - rewrite main_setup_run in H. cbv zeta in H.
    destruct (negb _); [inversion H; subst; split; reflexivity |].
    destruct (negb _); [inversion H; subst; split; reflexivity |].
    destruct (_ && _); rewrite makedirs_run in H;
      destruct (existsb _ (makedirs_chain _)); inversion H; subst; split; reflexivity.
Qed.

(** X21: With [--stream], all that a run of [main] does to the disk is to make
    the output folder: whatever the input and however the run ends, the disk
    is as it was, or as it was with the output folder made. *)
Theorem stream_run_makes_output_only (E : env) (s s' : state) (r : result unit) :
  stream (st_args s) = true ->
  main E s = Some (s', r) ->
  st_fs s' = st_fs s ∨ st_fs s' = makedirs_fs (output (st_args s)) (st_fs s).
Proof.
  intros Hst H. unfold main in H.
  destruct (main_setup s) as [s1 [[] | e]] eqn:Hs;
    apply main_setup_disk in Hs as [Hflag Hfs].
  - rewrite Hflag, Hst in H. apply inference_stream_same_disk in H.
    right. rewrite H. exact Hfs.
  - inversion H; subst. left. exact Hfs.
Qed.

(** ** The further properties on concrete runs *)

Lemma main_missing_weights_witness :
  ∃ s',
    main Scene.clip (init_state Scene.defaults ∅) =
      Some (s', Err (ValueError "Model realesr-animevideov3 does not exist.")) ∧
    st_fs s' = ∅ ∧ st_trace s' = [].
Proof.
  apply (main_missing_weights Scene.clip (init_state Scene.defaults ∅)).
  vm_compute. reflexivity.
Defined.

Lemma main_unknown_model_witness :
  ∃ s' m,
    main Scene.clip
      (init_state (set_model_name "mymodel.pth" Scene.defaults) Scene.weights) =
      Some (s', Err (NameError m)) ∧
    st_fs s' = Scene.weights ∧ st_trace s' = [].
Proof.
  apply (main_unknown_model Scene.clip
           (init_state (set_model_name "mymodel.pth" Scene.defaults) Scene.weights)).
  - vm_compute. reflexivity.
  - vm_compute. intuition discriminate.
Defined.

Lemma anime_never_face_enhanced_witness :
  let s := init_state (set_face_enhance true Scene.defaults) Scene.weights in
  face_enhance (st_args (main_setup s).1) = false ∧
  (∀ img, run_engine Scene.clip (st_args (main_setup s).1) img =
          upsampler_enhance Scene.clip img Demo.scale_2) ∧
  printed (st_trace (main_setup s).1) = [] ++ [anime_notice].
Proof.
  apply (anime_never_face_enhanced Scene.clip
           (init_state (set_face_enhance true Scene.defaults) Scene.weights)).
  - vm_compute. reflexivity.
  - vm_compute. reflexivity.
Defined.

Lemma main_output_folder_witness :
  let s' := (main_setup (init_state Scene.defaults Scene.weights)).1 in
  st_fs s' !! "results" = Some Dir ∧
  (∀ p x, Scene.weights !! p = Some x -> st_fs s' !! p = Some x) ∧
  (∀ p, st_fs s' !! p = Some File -> Scene.weights !! p = Some File).
Proof.
  cbv zeta.
  destruct (main_output_folder (init_state Scene.defaults Scene.weights) _ _
              (surjective_pairing _)) as [H _].
  apply H. vm_compute. reflexivity.
Defined.

Lemma main_normalises_names_witness :
  let s := init_state (set_input "clips/a.mp4/"
                         (set_model_name "realesr-animevideov3.pth" Scene.defaults))
                      Scene.weights in
  input (st_args (main_setup s).1) = "clips/a.mp4" ∧
  model_name (st_args (main_setup s).1) = "realesr-animevideov3".
Proof.
  cbv zeta.
  destruct (main_normalises_names
              (init_state (set_input "clips/a.mp4/"
                             (set_model_name "realesr-animevideov3.pth" Scene.defaults))
                          Scene.weights) _ _ (surjective_pairing _))
    as (_ & _ & Hi & _ & Hm).
  split.
  - apply Hi; vm_compute; [reflexivity | discriminate | reflexivity].
  - apply Hm; vm_compute; reflexivity.
Defined.

Lemma get_frames_only_reads_witness :
  let run := get_frames Scene.clip false (init_state Scene.defaults ∅) in
  st_fs run.1 = ∅ ∧ st_trace run.1 = [] ∧ same_but_fps Scene.defaults (st_args run.1).
Proof.
  apply (get_frames_only_reads Scene.clip (init_state Scene.defaults ∅) _
           (Ok (true, []))).
  vm_compute. reflexivity.
Defined.

Lemma stream_leaves_disk_witness :
  ∃ s', inference_stream Scene.clip (init_state Scene.defaults Scene.stale)
          = Some (s', Ok tt) ∧
        st_fs s' = Scene.stale.
Proof.
  eexists. split; [vm_compute; reflexivity |].
  apply (stream_leaves_disk Scene.clip (init_state Scene.defaults Scene.stale) _ (Ok tt)).
  vm_compute. reflexivity.
Defined.

Lemma decoder_output_read_once_witness :
  ∃ s',
    inference_stream Scene.clip (init_state Scene.defaults ∅) = Some (s', Ok tt) ∧
    concat (pipe_frames (st_trace s')) = [x01; x00; x00; x02; x00; x00] ∧
    Forall (fun b => Z.of_nat (length b) = 1 * 1 * 3) (pipe_frames (st_trace s')).
Proof.
  eexists. split; [vm_compute; reflexivity |].
  eapply (decoder_output_read_once Scene.clip Scene.defaults ∅ _ _ [] 1 1 (Ok tt)).
  - vm_compute. reflexivity.
  - vm_compute. reflexivity.
  - reflexivity.
  - reflexivity.
Defined.

Lemma short_frame_aborts_stream_witness :
  ∃ s', inference_stream Scene.truncated (init_state Scene.defaults ∅)
        = Some (s', Err (ValueError "cannot reshape array")).
Proof.
  destruct (inference_stream Scene.truncated (init_state Scene.defaults ∅))
    as [[s' r] |] eqn:H.
  - exists s'. f_equal. f_equal.
    eapply (short_frame_aborts_stream Scene.truncated Scene.defaults ∅ _ s' [] 1 1 r).
    + vm_compute. reflexivity.
    + exact H.
    + reflexivity.
    + vm_compute. discriminate.
  - vm_compute in H. discriminate.
Defined.

Lemma pipes_closed_on_return_only_witness :
  ∃ s',
    inference_stream Scene.clip (init_state Scene.defaults ∅) = Some (s', Ok tt) ∧
    ∃ s1 v paths w h t,
      stream_setup Scene.clip (init_state Scene.defaults ∅) = (s1, Ok (v, paths, w, h)) ∧
      st_trace s' = t ++ (if v then [DecoderClose] else []) ++ [EncoderClose] ∧
      closes t = [].
Proof.
  eexists. split; [vm_compute; reflexivity |].
  apply (pipes_closed_on_return_only Scene.clip Scene.defaults ∅ _ (Ok tt)).
  vm_compute. reflexivity.
Defined.

Lemma large_output_warned_by_height_witness :
  let run := stream_setup (Demo.world 1 1081 1 [] 0) (init_state Scene.defaults ∅) in
  ∃ ow oh,
    encoder_sizes (st_trace run.1) = [(ow, oh)] ∧
    printed (st_trace run.1) = (if 2160 <? oh then [large_output_warning] else []) ∧
    ∃ t fr p, st_trace run.1 = t ++ [EncoderStart ow oh fr p true] ∧ encoder_sizes t = [].
Proof.
  apply (large_output_warned_by_height (Demo.world 1 1081 1 [] 0) Scene.defaults ∅ _
           true [] 1 1081).
  vm_compute. reflexivity.
Defined.

Example wide_output_not_warned :
  printed (st_trace (stream_setup (Demo.world 8000 1080 1 [] 0)
                       (init_state Scene.defaults ∅)).1) = [] ∧
  printed (st_trace (stream_setup (Demo.world 1 1081 1 [] 0)
                       (init_state Scene.defaults ∅)).1) = [large_output_warning].
Proof. split; vm_compute; reflexivity. Qed.

Lemma enhanced_frames_not_kept_witness :
  let run := inference_frames Scene.clip (init_state Scene.defaults ∅) in
  st_fs run.1 !! "results/clip/frames_tmpout/frame00000001_out.png" = None ∧
  st_fs run.1 !! "results/clip/frames_tmpout/frame00000002_out.png" = None.
Proof.
  cbv zeta.
  assert (H0 : inference_frames Scene.clip (init_state Scene.defaults ∅) =
               ((inference_frames Scene.clip (init_state Scene.defaults ∅)).1, Ok tt))
    by (vm_compute; reflexivity).
  pose proof (enhanced_frames_not_kept Scene.clip Scene.defaults ∅ _ H0) as H.
  split.
  - apply (H (mkImage [2%nat; 2%nat; 3%nat] (List.repeat x01 12))).
    vm_compute. left. reflexivity.
  - apply (H (mkImage [2%nat; 2%nat; 3%nat] (List.repeat x02 12))).
    vm_compute. right. left. reflexivity.
Defined.

Example two_frames_saved_then_removed :
  let run := inference_frames Scene.clip (init_state Scene.defaults ∅) in
  omap item_path (que_puts (st_trace run.1)) =
    ["results/clip/frames_tmpout/frame00000001_out.png";
     "results/clip/frames_tmpout/frame00000002_out.png"] ∧
  st_fs run.1 =
    {[ "results" := Dir; "results/clip" := Dir; "results/clip_out.mp4" := File;
       "tmp_frames" := Dir ]}.
Proof. split; vm_compute; reflexivity. Qed.

Lemma no_frame_no_merge_witness :
  let run := inference_frames (Demo.world 1 1 0 [] 0) (init_state Scene.defaults ∅) in
  run.2 = Err (NameError "local variable 'extension' referenced before assignment") ∧
  merge_cmds (st_trace run.1) = [] ∧
  que_puts (st_trace run.1) = replicate 4 Quit ∧
  st_fs run.1 !! "results/clip/frames_tmpout" = Some Dir.
Proof.
  apply (no_frame_no_merge (Demo.world 1 1 0 [] 0) Scene.defaults ∅ _ _ []).
  - apply surjective_pairing.
  - vm_compute. left. reflexivity.
  - reflexivity.
Defined.

Lemma progress_per_frame_witness :
  let run := inference_frames (Demo.world 1 1 10 [5%nat] 0) (init_state Scene.defaults ∅) in
  pbar_descriptions (st_trace run.1) = seq 0 10 ∧
  length (pbar_updates (st_trace run.1)) = 10%nat ∧
  length (barriers (st_trace run.1)) = 10%nat ∧
  10%nat = Nat.min 10 10.
Proof.
  apply (progress_per_frame (Demo.world 1 1 10 [5%nat] 0) Scene.defaults ∅ _
           (inference_frames (Demo.world 1 1 10 [5%nat] 0) (init_state Scene.defaults ∅)).2
           (extracted_names "tmp_frames/clip" 10)).
  - apply surjective_pairing.
  - vm_compute. left. reflexivity.
Defined.




Lemma merged_video_kept_witness :
  st_fs (inference_frames Scene.clip (init_state Scene.defaults ∅)).1
    !! "results/clip_out.mp4" = Some File.
Proof.
  apply (merged_video_kept Scene.clip Scene.defaults ∅).
  - vm_compute. reflexivity.
  - reflexivity.
  - vm_compute. discriminate.
  - vm_compute. reflexivity.
Defined.

Lemma video_path_in_both_modes_witness :
  encoder_targets (st_trace (stream_setup Scene.clip (init_state Scene.defaults ∅)).1)
    = [("results/clip_out.mp4", true)].
Proof.
  destruct (video_path_in_both_modes Scene.clip Scene.defaults ∅) as [H _].
  apply (H _ true [] 1 1). vm_compute. reflexivity.
Defined.

Lemma saved_frames_collide_on_names_witness :
  Py.join "results/frames/frames_tmpout"
    ((Py.splitext (Py.basename "frames.txt/a.jpg")).1 +:+ "_out." +:+ "png") =
  Py.join "results/frames/frames_tmpout"
    ((Py.splitext (Py.basename "frames.txt/a.png")).1 +:+ "_out." +:+ "png").
Proof.
  destruct (saved_frames_collide_on_names Scene.clip Scene.png_options
              "results/frames/frames_tmpout"
              "frames.txt/a.jpg" "frames.txt/a.png" (Demo.pixel x01) (Demo.pixel x02)
              (mkImage [2%nat; 2%nat; 3%nat] (List.repeat x01 12))
              (mkImage [2%nat; 2%nat; 3%nat] (List.repeat x02 12))
              _ _ eq_refl eq_refl eq_refl eq_refl) as [H _].
  apply H; [discriminate | reflexivity].
Defined.

Example same_name_overwritten :
  let frames := [("frames.txt/a.jpg", Demo.pixel x01); ("frames.txt/a.png", Demo.pixel x02)] in
  omap item_path
    (omap (frame_save_path Scene.clip Scene.png_options "results/frames/frames_tmpout")
          frames) =
    ["results/frames/frames_tmpout/a_out.png"; "results/frames/frames_tmpout/a_out.png"].
Proof. vm_compute. reflexivity. Qed.

Lemma stream_run_makes_output_only_witness :
  ∃ s',
    main Scene.clip (init_state (Scene.streaming) Scene.weights) = Some (s', Ok tt) ∧
    (st_fs s' = Scene.weights ∨ st_fs s' = makedirs_fs "results" Scene.weights).
Proof.
  eexists. split; [vm_compute; reflexivity |].
  apply (stream_run_makes_output_only Scene.clip
           (init_state Scene.streaming Scene.weights) _ (Ok tt)).
  - reflexivity.
  - vm_compute. reflexivity.
Defined.
